(** * A shallow embedding of the Titanic data-preparation pipeline

    The two Python modules [data_processing.py] and [feature_engineering.py]
    are embedded function by function, under the names they have in the
    source.

    - A pandas [DataFrame] is a list of column names together with a list of
      rows, each row a finite map from column name to cell. The row labels
      (the index) are not part of the model.
    - A cell is a string, a 64-bit integer, a float or the missing marker NaN.
      Finite floats are idealised as canonical rationals ([Qc]); no statement
      below depends on rounding. Column dtypes are not tracked: a cell carries
      its own type.
    - Python exceptions are values of [exn]; a call returns a [result].
    - The file system and the heap of dataframe objects are explicit states
      threaded through a state-and-exception monad.
    - The calls into pandas (2.x), numpy, scikit-learn and pathlib are
      embedded by what these libraries do on the values of the model; the CSV
      parser and printer, the printing of floats and the reading of a float
      from a string are parameters.
    - A path is resolved as the operating system does it: [..] leads to the
      parent directory, every component on the way has to be a directory,
      and a null character is refused.
    - Output printed with [print] is not part of the model. *)

From Stdlib Require Import ZArith QArith Qcanon Qround Lqa String Ascii
  DecimalString.
From stdpp Require Import sorting numbers gmap strings fin_maps list.

Local Open Scope string_scope.
Local Open Scope list_scope.
Local Open Scope Z_scope.

(** ** Python values and exceptions *)

Inductive cell :=
  | VStr (s : string)
  | VInt (z : Z)
  | VFloat (q : Qc)
  | VNaN.

#[global] Instance cell_eq_dec : EqDecision cell.
Proof. solve_decision. Defined.

Inductive exn :=
  | KeyError (key : string)
  | IndexError (msg : string)
  | ValueError (msg : string)
  | TypeError (msg : string)
  | AttributeError (msg : string)
  | FileNotFoundError (msg : string)
  | FileExistsError (msg : string)
  | NotADirectoryError (msg : string)
  | IsADirectoryError (msg : string)
  | OSError (msg : string)
  | ParserError (msg : string)
  | ReferenceError (msg : string).

Inductive result (A : Type) :=
  | Ok (a : A)
  | Raise (e : exn).
Arguments Ok {A} a.
Arguments Raise {A} e.

#[global] Instance result_ret : MRet result := λ A a, Ok a.
#[global] Instance result_bind : MBind result := λ A B k r,
  match r with
  | Ok a => k a
  | Raise e => Raise e
  end.

(** State and exceptions: the state survives a raised exception. *)
Definition state_exn (S A : Type) : Type := S → result A * S.

#[global] Instance state_exn_ret {S} : MRet (state_exn S) :=
  λ A a st, (Ok a, st).
#[global] Instance state_exn_bind {S} : MBind (state_exn S) :=
  λ A B k m st,
    match m st with
    | (Ok a, st') => k a st'
    | (Raise e, st') => (Raise e, st')
    end.

Definition raise {S A} (e : exn) : state_exn S A := λ st, (Raise e, st).
Definition lift_result {S A} (r : result A) : state_exn S A := λ st, (r, st).

(** ** Order on Python strings

    Python compares [str] values code point by code point; on UTF-8 encoded
    text this is the bytewise lexicographic order of [String.compare]. *)

Definition str_lt (a b : string) : Prop := String.compare a b = Lt.
Definition str_le (a b : string) : Prop := String.leb a b = true.

#[global] Instance str_lt_dec : RelDecision str_lt.
Proof. intros a b. unfold str_lt. solve_decision. Defined.
#[global] Instance str_le_dec : RelDecision str_le.
Proof. intros a b. unfold str_le. solve_decision. Defined.

(** ** The label encoder of scikit-learn *)

Record LabelEncoder := { classes_ : list string }.

(** [le.fit(y)] keeps [sorted(set(y))]: the distinct values in ascending
    order. *)
Definition LabelEncoder_fit (y : list string) : LabelEncoder :=
  {| classes_ := merge_sort str_le (remove_dups y) |}.

(** Position of a label among the classes. *)
Definition class_index (le : LabelEncoder) (x : string) : option nat :=
  fst <$> list_find (λ c, c = x) (classes_ le).

Definition unseen_msg : string := "y contains previously unseen labels".

(** [le.transform(y)] on an object array: every element must be a string
    that is one of the classes. *)
Definition transform_cell (le : LabelEncoder) (c : cell) : result cell :=
  match c with
  | VStr s =>
      match class_index le s with
      | Some i => Ok (VInt (Z.of_nat i))
      | None => Raise (ValueError unseen_msg)
      end
  | _ => Raise (ValueError unseen_msg)
  end.

Fixpoint LabelEncoder_transform (le : LabelEncoder) (y : list cell)
  : result (list cell) :=
  match y with
  | [] => Ok []
  | c :: y' =>
      v ← transform_cell le c;
      vs ← LabelEncoder_transform le y';
      Ok (v :: vs)
  end.

(** [le.fit_transform(y)]: fit, then the index of every element. *)
Definition LabelEncoder_fit_transform (y : list string)
  : LabelEncoder * result (list cell) :=
  let le := LabelEncoder_fit y in
  (le, LabelEncoder_transform le (VStr <$> y)).

(** ** Generic list helpers *)

(** The distinct elements of a list in order of first appearance. *)
Fixpoint unique_first {A} `{EqDecision A} (l : list A) : list A :=
  match l with
  | [] => []
  | x :: l' => x :: filter (λ y, y ≠ x) (unique_first l')
  end.

Definition count_of {A} `{EqDecision A} (x : A) (l : list A) : nat :=
  length (filter (λ y, y = x) l).

(** ** Dataframes *)

Record DataFrame := {
  columns : list string;
  rows : list (gmap string cell)
}.

#[global] Instance DataFrame_eq_dec : EqDecision DataFrame.
Proof. solve_decision. Defined.

(** The cell of a row under a column; an absent key reads as missing. *)
Definition cell_at (c : string) (r : gmap string cell) : cell :=
  default VNaN (r !! c).

(** [df.empty]: some axis has length zero. *)
Definition df_empty (df : DataFrame) : bool :=
  bool_decide (columns df = []) || bool_decide (rows df = []).

(** [df[c]] *)
Definition getitem (df : DataFrame) (c : string) : result (list cell) :=
  if decide (c ∈ columns df) then Ok (cell_at c <$> rows df)
  else Raise (KeyError c).

Definition length_mismatch_msg : string :=
  "Length of values does not match length of index".

(** [df[c] = values] *)
Definition setitem (df : DataFrame) (c : string) (values : list cell)
  : result DataFrame :=
  if decide (length values = length (rows df)) then
    Ok {| columns := if decide (c ∈ columns df) then columns df
                     else columns df ++ [c];
          rows := zip_with (λ r v, <[c := v]> r) (rows df) values |}
  else Raise (ValueError length_mismatch_msg).

(** [df.drop_duplicates()]: an empty frame is returned as it is, otherwise
    the first occurrence of every row is kept. *)
Definition drop_duplicates (df : DataFrame) : DataFrame :=
  if df_empty df then df
  else {| columns := columns df; rows := unique_first (rows df) |}.

(** [df.drop(columns=cs, errors="ignore")] *)
Definition drop_columns_ignore (cs : list string) (df : DataFrame) : DataFrame :=
  {| columns := filter (λ c, c ∉ cs) (columns df);
     rows := (λ r, foldr delete r cs) <$> rows df |}.

(** Numeric value of a cell: [Some (Some q)] for a number, [Some None] for
    the missing marker, [None] for a string. *)
Definition cell_num (c : cell) : option (option Qc) :=
  match c with
  | VInt z => Some (Some (Q2Qc (inject_Z z)))
  | VFloat q => Some (Some q)
  | VNaN => Some None
  | VStr _ => None
  end.

(** The numbers of a column as numpy compares and subtracts them, missing
    values skipped; a string is a [TypeError]. *)
Fixpoint numeric_values (col : list cell) : result (list Qc) :=
  match col with
  | [] => Ok []
  | c :: col' =>
      match cell_num c with
      | None => Raise (TypeError "could not convert string to numeric")
      | Some o =>
          qs ← numeric_values col';
          Ok (match o with Some q => q :: qs | None => qs end)
      end
  end.

Definition Qc_half : Qc := Q2Qc (1 # 2).

Definition median_sorted (a : list Qc) : Qc :=
  let n := length a in
  if Nat.even n then
    ((nth (n / 2 - 1) a 0 + nth (n / 2) a 0) * Qc_half)%Qc
  else nth (n / 2) a 0%Qc.

Definition is_str (c : cell) : bool :=
  match c with VStr _ => true | _ => false end.
Definition is_int (c : cell) : bool :=
  match c with VInt _ => true | _ => false end.
Definition is_number (c : cell) : bool :=
  match c with VInt _ | VFloat _ => true | _ => false end.

Section Cleaning.

(** Python's [float(s)] on a string, as the cast of an object column to
    [float64] applies it to the strings of the column: [None] when the
    string spells no number ([ValueError]), [Some None] when it spells
    nan. *)
Variable float_of_str : string → option (option Qc).

(** The [float64] value of a cell of an object column. *)
Definition cell_float (c : cell) : option (option Qc) :=
  match c with
  | VStr s => float_of_str s
  | _ => cell_num c
  end.

(** [values.astype("f8")], missing values skipped afterwards; a string that
    spells no number is a [TypeError]. *)
Fixpoint float_values (col : list cell) : result (list Qc) :=
  match col with
  | [] => Ok []
  | c :: col' =>
      match cell_float c with
      | None => Raise (TypeError "could not convert string to float")
      | Some o =>
          qs ← float_values col';
          Ok (match o with Some q => q :: qs | None => qs end)
      end
  end.

(** [Series.median()], missing values skipped. A column that holds a string
    has dtype object; pandas infers the kind of its values and refuses the
    kinds string and mixed, which are those of the columns that hold a
    string and no integer. The strings of a column that holds an integer
    are cast with [float]. *)
Definition Series_median (col : list cell) : result cell :=
  if existsb is_str col && negb (existsb is_int col) then
    Raise (TypeError "Cannot convert to numeric")
  else
    qs ← float_values col;
    match qs with
    | [] => Ok VNaN
    | _ => Ok (VFloat (median_sorted (merge_sort Qcle qs)))
    end.

Definition str_key (c : cell) : string :=
  match c with VStr s => s | _ => "" end.
Definition num_key (c : cell) : Qc :=
  match cell_num c with Some (Some q) => q | _ => 0%Qc end.

Definition str_key_le (a b : cell) : Prop := str_le (str_key a) (str_key b).
Definition num_key_le (a b : cell) : Prop := (num_key a ≤ num_key b)%Qc.

#[global] Instance str_key_le_dec : RelDecision str_key_le.
Proof. intros a b. unfold str_key_le. apply _. Defined.
#[global] Instance num_key_le_dec : RelDecision num_key_le.
Proof. intros a b. unfold num_key_le. apply _. Defined.

(** [np.sort] inside a [try]: strings are sorted among themselves, numbers
    among themselves; a list that mixes both cannot be sorted and is left
    in its order. *)
Definition np_sort_modes (l : list cell) : list cell :=
  if forallb is_str l then merge_sort str_key_le l
  else if forallb is_number l then merge_sort num_key_le l
  else l.

(** [Series.mode()]: the non-missing values that occur most often. pandas
    counts them in order of first appearance and then sorts the modes, so the
    first of several modes is the smallest one. *)
Definition Series_mode (col : list cell) : list cell :=
  let vals := filter (λ c, c ≠ VNaN) col in
  let keys := unique_first vals in
  let best := foldr Nat.max 0%nat ((λ k, count_of k vals) <$> keys) in
  np_sort_modes (filter (λ k, count_of k vals = best) keys).

(** [s.iloc[0]] *)
Definition iloc0 (s : list cell) : result cell :=
  match s with
  | [] => Raise (IndexError "single positional indexer is out-of-bounds")
  | x :: _ => Ok x
  end.

Definition fill_row (k : string) (v : cell) (r : gmap string cell)
  : gmap string cell :=
  if decide (cell_at k r = VNaN) then <[k := v]> r else r.

(** [df.fillna(value)] with a dict: keys that are no column are skipped. *)
Definition fillna (value : list (string * cell)) (df : DataFrame) : DataFrame :=
  foldl (λ d kv,
           if decide (kv.1 ∈ columns d) then
             {| columns := columns d;
                rows := fill_row kv.1 kv.2 <$> rows d |}
           else d)
        df value.

(** ** data_processing.py *)

Definition clean_data (df : DataFrame) : result DataFrame :=
  let df := drop_duplicates df in
  let df := drop_columns_ignore ["Cabin"] df in
  age ← getitem df "Age" ≫= Series_median;
  embarked ← getitem df "Embarked" ≫= (λ s, iloc0 (Series_mode s));
  fare ← getitem df "Fare" ≫= Series_median;
  let imputation_strategy :=
    [("Age", age); ("Embarked", embarked); ("Fare", fare)] in
  Ok (fillna imputation_strategy df).

End Cleaning.

(** ** Paths and the file system

    A path is the list of its components below the root, as [pathlib] keeps
    them: no component is empty or [.], but [..] is a component like any
    other until the operating system resolves it. A file system maps the
    places that exist, each named by its components without [..], to a
    directory or to a regular file with its content. Symbolic links and
    permissions are not modelled. *)

Inductive node :=
  | Dir
  | File (content : string).

#[global] Instance node_eq_dec : EqDecision node.
Proof. solve_decision. Defined.

Abbreviation FS := (gmap (list string) node).

Fixpoint split_on (sep : ascii) (s : string) : list string :=
  match s with
  | EmptyString => [EmptyString]
  | String c s' =>
      if decide (c = sep) then EmptyString :: split_on sep s'
      else match split_on sep s' with
           | [] => [String c EmptyString]
           | w :: ws => String c w :: ws
           end
  end.

(** The components of a path written as text: empty components and [.] are
    dropped, as [pathlib] does. *)
Definition path_parts (s : string) : list string :=
  filter (λ w, w ≠ "" ∧ w ≠ ".") (split_on "/"%char s).

Definition is_absolute (s : string) : bool :=
  match s with
  | String "/"%char _ => true
  | _ => false
  end.

(** [p / name]: an absolute [name] replaces [p]. *)
Definition path_div (p : list string) (name : string) : list string :=
  if is_absolute name then path_parts name else p ++ path_parts name.

(** [p.parent]; the root is its own parent. *)
Definition path_parent (p : list string) : list string := removelast p.

(** [p.name] *)
Definition path_name (p : list string) : string := List.last p "".

(** [str(p)] *)
Definition path_str (p : list string) : string :=
  match p with
  | [] => "/"
  | _ => String.concat "" ((λ c, "/" +:+ c) <$> p)
  end.

(** What the file system holds at a place; the root is a directory. *)
Definition entry (fs : FS) (p : list string) : option node :=
  match p with
  | [] => Some Dir
  | _ => fs !! p
  end.

Inductive errno := ENOENT | ENOTDIR.

(** The walk of the operating system along the components [p], from the
    directory [cur]: [..] leads to the parent directory, and every component
    but the last has to lead to a directory. The result is the place the
    path names, which need not exist. *)
Fixpoint resolve_from (fs : FS) (cur p : list string)
  : errno + list string :=
  match p with
  | [] => inr cur
  | c :: p' =>
      let next := if decide (c = "..") then path_parent cur else cur ++ [c] in
      match p' with
      | [] => inr next
      | _ =>
          match entry fs next with
          | Some Dir => resolve_from fs next p'
          | Some (File _) => inl ENOTDIR
          | None => inl ENOENT
          end
      end
  end.

Definition resolve (fs : FS) (p : list string) : errno + list string :=
  resolve_from fs [] p.

(** [os.stat(p)] *)
Definition os_stat (fs : FS) (p : list string) : errno + node :=
  match resolve fs p with
  | inl e => inl e
  | inr q =>
      match entry fs q with
      | Some n => inr n
      | None => inl ENOENT
      end
  end.

Fixpoint str_has_nul (s : string) : bool :=
  match s with
  | EmptyString => false
  | String c s' => bool_decide (c = "000"%char) || str_has_nul s'
  end.

(** A null character in a path: Python refuses to hand such a path to the
    operating system. *)
Definition has_nul (p : list string) : bool := existsb str_has_nul p.

Definition null_byte : exn := ValueError "embedded null byte".

Definition exn_of_errno (e : errno) (p : list string) : exn :=
  match e with
  | ENOENT => FileNotFoundError (path_str p)
  | ENOTDIR => NotADirectoryError (path_str p)
  end.

(** What [p.exists()] and [p.is_dir()] see at [p]: they take the two errors
    of [os.stat], and the [ValueError] of a null character, as absence. *)
Definition lookup_node (fs : FS) (p : list string) : option node :=
  if has_nul p then None
  else match os_stat fs p with
       | inr n => Some n
       | inl _ => None
       end.

(** [p.exists()] *)
Definition Path_exists (p : list string) : state_exn FS bool :=
  λ fs, (Ok (bool_decide (is_Some (lookup_node fs p))), fs).

(** [p.is_dir()] *)
Definition Path_is_dir (p : list string) : state_exn FS bool :=
  λ fs, (Ok (bool_decide (lookup_node fs p = Some Dir)), fs).

(** Size reported for a directory (one block). *)
Definition dir_st_size : Z := 4096.

(** [p.stat().st_size] *)
Definition Path_st_size (p : list string) : state_exn FS Z :=
  λ fs,
    if has_nul p then (Raise null_byte, fs)
    else match os_stat fs p with
         | inr (File s) => (Ok (Z.of_nat (String.length s)), fs)
         | inr Dir => (Ok dir_st_size, fs)
         | inl e => (Raise (exn_of_errno e p), fs)
         end.

(** [os.mkdir(p)] *)
Definition os_mkdir (p : list string) : state_exn FS () :=
  λ fs,
    if has_nul p then (Raise null_byte, fs)
    else match resolve fs p with
         | inl e => (Raise (exn_of_errno e p), fs)
         | inr q =>
             match entry fs q with
             | Some _ => (Raise (FileExistsError (path_str p)), fs)
             | None => (Ok (), <[q := Dir]> fs)
             end
         end.

Definition is_FileNotFoundError (e : exn) : bool :=
  match e with FileNotFoundError _ => true | _ => false end.

Definition is_OSError (e : exn) : bool :=
  match e with
  | FileNotFoundError _ | FileExistsError _ | NotADirectoryError _
  | IsADirectoryError _ | OSError _ => true
  | _ => false
  end.

(** [p.mkdir(parents=False, exist_ok=True)]: an [OSError] is dropped when
    the path is a directory. *)
Definition Path_mkdir_exist_ok (p : list string) : state_exn FS () :=
  λ fs,
    match os_mkdir p fs with
    | (Ok u, fs') => (Ok u, fs')
    | (Raise e, fs') =>
        if is_FileNotFoundError e then (Raise e, fs')
        else if is_OSError e && bool_decide (lookup_node fs' p = Some Dir)
             then (Ok (), fs')
        else (Raise e, fs')
    end.

(** [p.mkdir(parents=True, exist_ok=True)], by recursion on the reversed
    path: a missing parent is created first. *)
Fixpoint Path_mkdir_rev (rp : list string) : state_exn FS () :=
  λ fs,
    match os_mkdir (rev rp) fs with
    | (Ok u, fs') => (Ok u, fs')
    | (Raise e, fs') =>
        if is_FileNotFoundError e then
          match rp with
          | [] => (Raise e, fs')
          | _ :: rp' =>
              (Path_mkdir_rev rp';; Path_mkdir_exist_ok (rev rp)) fs'
          end
        else if is_OSError e
                && bool_decide (lookup_node fs' (rev rp) = Some Dir)
             then (Ok (), fs')
        else (Raise e, fs')
    end.

Definition Path_mkdir_parents (p : list string) : state_exn FS () :=
  Path_mkdir_rev (rev p).

(** Opening a path for writing and storing [content] in it. *)
Definition write_text (p : list string) (content : string) : state_exn FS () :=
  λ fs,
    if has_nul p then (Raise null_byte, fs)
    else match resolve fs p with
         | inl e => (Raise (exn_of_errno e p), fs)
         | inr q =>
             match entry fs q with
             | Some Dir => (Raise (IsADirectoryError (path_str p)), fs)
             | _ => (Ok (), <[q := File content]> fs)
             end
         end.

(** Opening a path for reading. *)
Definition read_text (p : list string) : state_exn FS string :=
  λ fs,
    if has_nul p then (Raise null_byte, fs)
    else match os_stat fs p with
         | inr (File s) => (Ok s, fs)
         | inr Dir => (Raise (IsADirectoryError (path_str p)), fs)
         | inl e => (Raise (exn_of_errno e p), fs)
         end.

Section DataProcessing.

(** The directory two levels above the module file. *)
Variable BASE_DIR : list string.

(** The CSV parser and printer of pandas, on the text of a file; the
    printer takes the [index] flag. *)
Variable parse_csv : string → result DataFrame.
Variable format_csv : DataFrame → bool → string.

Definition RAW_DATA_DIR : list string := BASE_DIR ++ ["data"; "raw"].
Definition PROCESSED_DATA_DIR : list string :=
  BASE_DIR ++ ["data"; "processed"].
Definition SUBMISSION_DATA_DIR : list string :=
  BASE_DIR ++ ["data"; "submission"].

(** [pd.read_csv(p)] *)
Definition read_csv (p : list string) : state_exn FS DataFrame :=
  s ← read_text p; lift_result (parse_csv s).

(** [df.to_csv(p, index=index)]: pandas looks for the directory of the
    file before it opens the file. *)
Definition to_csv (df : DataFrame) (p : list string) (index : bool)
  : state_exn FS () :=
  parent_is_dir ← Path_is_dir (path_parent p);
  if negb parent_is_dir then
    raise (OSError ("Cannot save file into a non-existent directory: '"
                    +:+ path_str (path_parent p) +:+ "'"))
  else write_text p (format_csv df index).

Definition _validate_csv_file (file_path : list string) : state_exn FS () :=
  parent_exists ← Path_exists (path_parent file_path);
  if negb parent_exists then
    raise (FileNotFoundError
             ("The directory " +:+ path_str (path_parent file_path)
              +:+ " does not exist."))
  else
    file_exists ← Path_exists file_path;
    if negb file_exists then
      raise (FileNotFoundError
               ("The file " +:+ path_name file_path
                +:+ " does not exist in "
                +:+ path_str (path_parent file_path) +:+ "."))
    else
      size ← Path_st_size file_path;
      if bool_decide (size = 0) then
        raise (ValueError ("The file " +:+ path_name file_path
                           +:+ " is empty."))
      else mret ().

Definition load_data (file_name : string) (data_type : string)
  : state_exn FS DataFrame :=
  let data_dir :=
    if decide (data_type = "raw") then RAW_DATA_DIR
    else PROCESSED_DATA_DIR in
  let file_path := path_div data_dir file_name in
  _validate_csv_file file_path;;
  df ← read_csv file_path;
  mret df.

Definition load_raw_data (file_name : string) : state_exn FS DataFrame :=
  load_data file_name "raw".


Definition save_data (df : DataFrame) (file_name : string)
    (data_type : string) : state_exn FS () :=
  if df_empty df then
    raise (ValueError "The DataFrame is empty and cannot be saved.")
  else
    let data_dir :=
      if decide (data_type = "processed") then PROCESSED_DATA_DIR
      else SUBMISSION_DATA_DIR in
    let file_path := path_div data_dir file_name in
    Path_mkdir_parents (path_parent file_path);;
    to_csv df file_path false.


Definition save_submission_data (df : DataFrame) (file_name : string)
  : state_exn FS () :=
  save_data df file_name "submission".

End DataProcessing.

(** ** Series operations used by feature_engineering.py *)

Definition wrap64 (z : Z) : Z := (z + 2 ^ 63) mod 2 ^ 64 - 2 ^ 63.

(** Elementwise [+] of two numeric cells; [int64] addition wraps around,
    a missing operand gives a missing result, a string is a [TypeError]. *)
Definition cell_add (a b : cell) : result cell :=
  match a, b with
  | VInt x, VInt y => Ok (VInt (wrap64 (x + y)))
  | _, _ =>
      match cell_num a, cell_num b with
      | Some (Some x), Some (Some y) => Ok (VFloat (x + y)%Qc)
      | Some _, Some _ => Ok VNaN
      | _, _ => Raise (TypeError "unsupported operand type(s) for +")
      end
  end.

Fixpoint Series_add (a b : list cell) : result (list cell) :=
  match a, b with
  | x :: a', y :: b' =>
      v ← cell_add x y;
      vs ← Series_add a' b';
      Ok (v :: vs)
  | _, _ => Ok []
  end.

(** [(s == k).astype(int)] *)
Definition cell_eq_int (k : Z) (c : cell) : cell :=
  match cell_num c with
  | Some (Some x) =>
      if decide (x = Q2Qc (inject_Z k)) then VInt 1 else VInt 0
  | _ => VInt 0
  end.

Definition is_letter (c : ascii) : bool :=
  let n := N_of_ascii c in
  ((65 <=? n) && (n <=? 90) || (97 <=? n) && (n <=? 122))%N.

(** The part [([A-Za-z]+)\.] of the pattern, anchored: the repetition is
    greedy, so a longer run of letters is tried before the run is ended in
    front of a period. The captured group is returned. *)
Fixpoint match_letters_dot (s : string) : option string :=
  match s with
  | String c s' =>
      if is_letter c then
        match match_letters_dot s' with
        | Some t => Some (String c t)
        | None =>
            match s' with
            | String "."%char _ => Some (String c EmptyString)
            | _ => None
            end
        end
      else None
  | EmptyString => None
  end.

(** The pattern [" ([A-Za-z]+)\."] anchored at the start of [s]. *)
Definition match_title_at (s : string) : option string :=
  match s with
  | String " "%char s' => match_letters_dot s'
  | _ => None
  end.

(** [re.search]: the match at the leftmost position. *)
Fixpoint search_title (s : string) : option string :=
  match match_title_at s with
  | Some t => Some t
  | None =>
      match s with
      | EmptyString => None
      | String _ s' => search_title s'
      end
  end.

(** What [s.str.extract(r" ([A-Za-z]+)\.", expand=False)] gives for one
    element: an element that is no string, or has no match, gives a missing
    value. *)
Definition str_extract_title (c : cell) : cell :=
  match c with
  | VStr s =>
      match search_title s with
      | Some t => VStr t
      | None => VNaN
      end
  | _ => VNaN
  end.

(** The check of the [.str] accessor. pandas infers the kind of the values,
    leaving missing ones aside, and refuses a column of numbers. A column
    that holds a string is accepted (its kind is string or mixed), and so is
    a column without elements. A column without any string is taken to have
    a numeric dtype, as [read_csv] gives a column without text, also when
    all its values are missing. *)
Definition str_accessor (s : list cell) : result () :=
  if bool_decide (s = []) || existsb is_str s then Ok ()
  else Raise (AttributeError
                "Can only use .str accessor with string values!").

(** [s.str.extract(r" ([A-Za-z]+)\.", expand=False)] *)
Definition Series_str_extract_title (s : list cell) : result (list cell) :=
  str_accessor s;;
  Ok (str_extract_title <$> s).

(** [s.replace(mapping)] *)
Definition Series_replace (mapping : gmap string string) (s : list cell)
  : list cell :=
  (λ c, match c with
        | VStr t =>
            match mapping !! t with
            | Some t' => VStr t'
            | None => c
            end
        | _ => c
        end) <$> s.

Definition Qc_of_Z (z : Z) : Qc := Q2Qc (inject_Z z).

(** The label of the right-closed interval of [bins] that holds [x]. *)
Fixpoint cut_bin (bins : list Qc) (labels : list string) (x : Qc) : cell :=
  match bins, labels with
  | lo :: ((hi :: _) as bins'), lab :: labels' =>
      if decide ((lo < x)%Qc ∧ (x ≤ hi)%Qc) then VStr lab
      else cut_bin bins' labels' x
  | _, _ => VNaN
  end.

(** [pd.cut(s, bins=bins, labels=labels)] *)
Fixpoint pd_cut (bins : list Qc) (labels : list string) (s : list cell)
  : result (list cell) :=
  match s with
  | [] => Ok []
  | c :: s' =>
      match cell_num c with
      | None => Raise (TypeError "'<' not supported between str and int")
      | Some o =>
          vs ← pd_cut bins labels s';
          Ok (match o with
              | Some x => cut_bin bins labels x
              | None => VNaN
              end :: vs)
      end
  end.

(** The quantile [q] of the sorted, non-empty list [a], by linear
    interpolation between the two neighbours of position [(n - 1) * q]. *)
Definition quantile_linear (a : list Qc) (q : Qc) : Qc :=
  let n := length a in
  let h := (Qc_of_Z (Z.of_nat (n - 1)) * q)%Qc in
  let lo := Z.to_nat (Qfloor h) in
  let hi := Nat.min (lo + 1) (n - 1) in
  let g := (h - Qc_of_Z (Qfloor h))%Qc in
  (nth lo a 0 + (nth hi a 0 - nth lo a 0) * g)%Qc.

(** [np.quantile(s, qs)]: a missing value in the data makes every quantile
    missing. *)
Definition np_quantile (s : list cell) (qs : list Qc) : result (list cell) :=
  match s with
  | [] => Raise (IndexError "index -1 is out of bounds for axis 0 with size 0")
  | _ =>
      xs ← numeric_values s;
      if bool_decide (VNaN ∈ s) then Ok ((λ _, VNaN) <$> qs)
      else
        let a := merge_sort Qcle xs in
        Ok ((λ q, VFloat (quantile_linear a q)) <$> qs)
  end.

(** [a <= b] on floats: false as soon as one side is missing. *)
Definition cell_leb (a b : cell) : bool :=
  match cell_num a, cell_num b with
  | Some (Some x), Some (Some y) => bool_decide (x ≤ y)%Qc
  | _, _ => false
  end.

(** ** feature_engineering.py *)

Definition rare_titles : list string :=
  ["Lady"; "Countess"; "Capt"; "Col"; "Don"; "Dr"; "Major"; "Rev"; "Sir";
   "Jonkheer"; "Dona"].

Definition title_mapping : gmap string string :=
  <["Mme" := "Mrs"]>
    (<["Ms" := "Miss"]>
       (<["Mlle" := "Miss"]>
          (list_to_map ((λ title, (title, "Rare")) <$> rare_titles)))).

Definition _group_titles (titles : list cell) : list cell :=
  Series_replace title_mapping titles.

Definition age_bins : list Qc := Qc_of_Z <$> [0; 12; 18; 35; 60; 100].
Definition age_labels : list string :=
  ["Child"; "Teenager"; "Adult"; "Middle"; "Senior"].

Definition fare_quantiles : list Qc :=
  [Qc_of_Z 0; Q2Qc (1 # 4); Q2Qc (1 # 2); Q2Qc (3 # 4); Qc_of_Z 1].

Definition fare_to_bin (q : list cell) (fare : cell) : cell :=
  if cell_leb fare (nth 1 q VNaN) then VStr "Low"
  else if cell_leb fare (nth 2 q VNaN) then VStr "Medium"
  else if cell_leb fare (nth 3 q VNaN) then VStr "High"
  else VStr "Very High".

(** The frame is copied first, so the function is pure for its caller. *)
Definition generate_features (df : DataFrame) : result DataFrame :=
  sibsp ← getitem df "SibSp";
  parch ← getitem df "Parch";
  family ← Series_add sibsp parch;
  family ← Series_add family ((λ _, VInt 1) <$> family);
  df ← setitem df "FamilySize" family;
  family ← getitem df "FamilySize";
  df ← setitem df "IsAlone" (cell_eq_int 1 <$> family);
  name ← getitem df "Name";
  title ← Series_str_extract_title name;
  df ← setitem df "Title" title;
  title ← getitem df "Title";
  df ← setitem df "Title" (_group_titles title);
  age ← getitem df "Age";
  agebin ← pd_cut age_bins age_labels age;
  df ← setitem df "AgeBin" agebin;
  fare ← getitem df "Fare";
  q ← np_quantile fare fare_quantiles;
  fare ← getitem df "Fare";
  df ← setitem df "FareBin" (fare_to_bin q <$> fare);
  Ok df.

(** ** The heap of dataframe objects

    [_encode_column] assigns into the frames it is given, so the frames live
    in a heap and are passed by reference. A reference is an index into the
    heap; [ReferenceError] stands for a reference to no object, which no
    Python program can produce. *)

Abbreviation heap := (list DataFrame).

Definition deref (l : nat) : state_exn heap DataFrame :=
  λ h,
    match h !! l with
    | Some df => (Ok df, h)
    | None => (Raise (ReferenceError "no such object"), h)
    end.

Definition alloc (df : DataFrame) : state_exn heap nat :=
  λ h, (Ok (length h), (h ++ [df])%list).

Definition assign (l : nat) (df : DataFrame) : state_exn heap () :=
  λ h, (Ok (), <[l := df]> h).

(** [df.copy()] *)
Definition DataFrame_copy (l : nat) : state_exn heap nat :=
  df ← deref l; alloc df.

(** [df[c]] through a reference *)
Definition frame_getitem (l : nat) (c : string) : state_exn heap (list cell) :=
  df ← deref l; lift_result (getitem df c).

(** [df[c] = values] through a reference: the object is updated in place. *)
Definition frame_setitem (l : nat) (c : string) (values : list cell)
  : state_exn heap () :=
  df ← deref l;
  df' ← lift_result (setitem df c values);
  assign l df'.

Section Encoding.

(** [repr] of a finite float, as [str] prints it. *)
Variable float_repr : Qc → string.

(** [str(c)], the cast of [astype(str)] *)
Definition astype_str (c : cell) : string :=
  match c with
  | VStr s => s
  | VInt z => NilZero.string_of_int (Z.to_int z)
  | VFloat q => float_repr q
  | VNaN => "nan"
  end.

(** [lambda x: x if x in le.classes_ else le.classes_[0]] *)
Definition fallback (le : LabelEncoder) (x : string) : result string :=
  if decide (x ∈ classes_ le) then Ok x
  else match classes_ le with
       | [] => Raise (IndexError
                        "index 0 is out of bounds for axis 0 with size 0")
       | c :: _ => Ok c
       end.

(** [s.apply(f)] *)
Fixpoint Series_apply {A B} (f : A → result B) (s : list A)
  : result (list B) :=
  match s with
  | [] => Ok []
  | x :: s' =>
      v ← f x;
      vs ← Series_apply f s';
      Ok (v :: vs)
  end.

Definition _encode_column (train test : nat) (column : string)
  : state_exn heap (nat * nat * LabelEncoder) :=
  col ← frame_getitem train column;
  let '(le, codes) := LabelEncoder_fit_transform (astype_str <$> col) in
  codes ← lift_result codes;
  frame_setitem train column codes;;
  col ← frame_getitem test column;
  col ← lift_result (Series_apply (fallback le) (astype_str <$> col));
  frame_setitem test column (VStr <$> col);;
  col ← frame_getitem test column;
  codes ← lift_result (LabelEncoder_transform le col);
  frame_setitem test column codes;;
  mret (train, test, le).

Definition categorical_cols : list string :=
  ["Sex"; "Embarked"; "Title"; "AgeBin"; "FareBin"].

(** The [for] loop of [encode_features]. *)
Fixpoint encode_loop (cols : list string) (train test : nat)
    (label_encoders : gmap string LabelEncoder)
  : state_exn heap (nat * nat * gmap string LabelEncoder) :=
  match cols with
  | [] => mret (train, test, label_encoders)
  | col :: cols' =>
      '(train, test, le) ← _encode_column train test col;
      encode_loop cols' train test (<[col := le]> label_encoders)
  end.

Definition encode_features (train test : nat)
  : state_exn heap (nat * nat * gmap string LabelEncoder) :=
  train ← DataFrame_copy train;
  test ← DataFrame_copy test;
  encode_loop categorical_cols train test ∅.

End Encoding.

(** * Vocabulary of the statements

    Definitions used to state the properties; none of them is part of the
    embedded program. *)

(** ** Encoding *)

(** Number of distinct values of [y] that sort strictly before [x]. *)
Definition rank (x : string) (y : list string) : nat :=
  length (filter (λ c, str_lt c x) (remove_dups y)).

(** The code of a training value and of a test value, given the strings
    [y] of the training column. *)
Definition train_code (y : list string) (x : string) : cell :=
  VInt (Z.of_nat (rank x y)).

Definition test_code (y : list string) (x : string) : cell :=
  if decide (x ∈ y) then train_code y x else VInt 0.

(** [col_updated d c vs d']: [d'] is [d] with the cells of the existing
    column [c] replaced by [vs]. *)
Definition col_updated (d : DataFrame) (c : string) (vs : list cell)
    (d' : DataFrame) : Prop :=
  columns d' = columns d ∧ length (rows d') = length (rows d) ∧
  getitem d' c = Ok vs ∧ ∀ c', c' ≠ c → getitem d' c' = getitem d c'.

(** The state of column [c] after encoding, stated on the two original
    frames [dtr], [dte] and the encoded frames [dtr'], [dte']. *)
Definition column_encoded (float_repr : Qc → string)
  (dtr dte dtr' dte' : DataFrame)
    (le : option LabelEncoder) (c : string) : Prop :=
  ∃ ctr cte,
    getitem dtr c = Ok ctr ∧ getitem dte c = Ok cte ∧
    (ctr ≠ [] ∨ cte = []) ∧
    getitem dtr' c = Ok (train_code (astype_str float_repr <$> ctr) <$> (astype_str float_repr <$> ctr)) ∧
    getitem dte' c = Ok (test_code (astype_str float_repr <$> ctr) <$> (astype_str float_repr <$> cte)) ∧
    le = Some (LabelEncoder_fit (astype_str float_repr <$> ctr)).

(** [touches_only tr te Q m]: the computation [m] changes no object of the
    heap besides [tr] and [te], keeps the size of the heap, and a value it
    returns satisfies [Q]. *)
Definition touches_only {A} (tr te : nat) (Q : A → Prop)
    (m : state_exn heap A) : Prop :=
  ∀ h r h', m h = (r, h') →
    length h' = length h ∧
    (∀ l, l ≠ tr → l ≠ te → h' !! l = h !! l) ∧
    (∀ a, r = Ok a → Q a).

(** ** Cleaning *)

Definition fill_cell (v c : cell) : cell :=
  if decide (c = VNaN) then v else c.

Definition fill3 (age embarked fare : cell) (r : gmap string cell)
  : gmap string cell :=
  fill_row "Fare" fare (fill_row "Embarked" embarked (fill_row "Age" age r)).

(** The frame on which the imputation values are computed. *)
Definition deduplicated (df : DataFrame) : DataFrame :=
  drop_columns_ignore ["Cabin"] (drop_duplicates df).

(** A column whose median pandas computes: every string in it spells a
    number, and a column that holds a string also holds an integer. *)
Definition castable (float_of_str : string → option (option Qc))
    (col : list cell) : Prop :=
  ∀ s, VStr s ∈ col →
       is_Some (float_of_str s) ∧ ∃ c, c ∈ col ∧ is_int c = true.

(** ** File system *)


(** A path that names its place by itself: no component is [..] and none
    holds a null character. *)
Definition plain (p : list string) : Prop :=
  Forall (λ c, c ≠ ".." ∧ str_has_nul c = false) p.


(** The path [load_data] reads. *)
Definition load_path (BASE_DIR : list string)
    (file_name data_type : string) : list string :=
  path_div (if decide (data_type = "raw") then RAW_DATA_DIR BASE_DIR
            else PROCESSED_DATA_DIR BASE_DIR) file_name.

(** The path [save_data] writes. *)
Definition save_path (BASE_DIR : list string)
    (file_name data_type : string) : list string :=
  path_div (if decide (data_type = "processed")
            then PROCESSED_DATA_DIR BASE_DIR
            else SUBMISSION_DATA_DIR BASE_DIR) file_name.

(** [only_new_dirs p fs fs']: from [fs] to [fs'] every entry is unchanged,
    or was absent and is now a directory on the way to [p]. *)
Definition only_new_dirs (p : list string) (fs fs' : FS) : Prop :=
  ∀ q, fs' !! q = fs !! q ∨
       (fs !! q = None ∧ fs' !! q = Some Dir ∧ q `prefix_of` p).

(** ** Titles *)

Fixpoint all_letters (t : string) : bool :=
  match t with
  | EmptyString => true
  | String c t' => is_letter c && all_letters t'
  end.

(** [s] holds, after [pre], a space, the non-empty run of letters [t] and a
    period. *)
Definition title_match (s pre t post : string) : Prop :=
  s = pre +:+ " " +:+ t +:+ "." +:+ post ∧ t ≠ "" ∧ all_letters t = true.

(** The normalisation of titles as the specification words it. *)
Definition normalize_title_spec (t : string) : string :=
  if bool_decide (t ∈ ["Lady"; "Countess"; "Capt"; "Col"; "Don"; "Dr";
                       "Major"; "Rev"; "Sir"; "Jonkheer"; "Dona"])
  then "Rare"
  else if bool_decide (t ∈ ["Mlle"; "Ms"]) then "Miss"
  else if bool_decide (t = "Mme") then "Mrs"
  else t.

(** ** Example data *)

Definition ex_fs : FS :=
  <[["repo"; "data"; "raw"; "train.csv"] := File "Sex,Age"]>
    (<[["repo"; "data"; "raw"; "empty.csv"] := File ""]>
       (<[["repo"; "data"; "raw"] := Dir]>
          (<[["repo"; "data"] := Dir]> (<[["repo"] := Dir]> ∅)))).

Definition ex_format_csv : DataFrame → bool → string :=
  λ _ index, if index then ",Sex,Age" else "Sex,Age".

Definition ex_no_columns : DataFrame :=
  {| columns := []; rows := [∅] |}.

Definition mkrow (l : list (string * cell)) : gmap string cell := list_to_map l.

Definition ex_float_repr : Qc → string := λ _, "0.0".

Definition ex_parse_csv : string → result DataFrame := λ _, Ok ex_no_columns.

Definition ex_train : DataFrame :=
  {| columns := ["Sex"; "Embarked"; "Title"; "AgeBin"; "FareBin"];
     rows :=
       [mkrow [("Sex", VStr "male"); ("Embarked", VStr "S");
               ("Title", VStr "Mr"); ("AgeBin", VStr "Adult");
               ("FareBin", VStr "Low")];
        mkrow [("Sex", VStr "female"); ("Embarked", VNaN);
               ("Title", VStr "Mrs"); ("AgeBin", VNaN);
               ("FareBin", VStr "High")]] |}.

Definition ex_test : DataFrame :=
  {| columns := ["Sex"; "Embarked"; "Title"; "AgeBin"; "FareBin"];
     rows :=
       [mkrow [("Sex", VStr "other"); ("Embarked", VStr "Q");
               ("Title", VStr "Mrs"); ("AgeBin", VStr "Adult");
               ("FareBin", VStr "Low")]] |}.

Definition ex_train_no_rows : DataFrame :=
  {| columns := ["Sex"; "Embarked"; "Title"; "AgeBin"; "FareBin"];
     rows := [] |}.

Definition ex_age_gap : DataFrame :=
  {| columns := ["Age"; "Embarked"; "Fare"];
     rows :=
       [mkrow [("Age", VNaN); ("Embarked", VStr "S");
               ("Fare", VFloat (Qc_of_Z 1))];
        mkrow [("Age", VFloat (Qc_of_Z 5)); ("Embarked", VStr "S");
               ("Fare", VFloat (Qc_of_Z 1))]] |}.

(** A parser of floats that knows the spelling of one number. *)
Definition ex_float_of_str : string → option (option Qc) :=
  λ s, if decide (s = "2") then Some (Some (Qc_of_Z 2)) else None.

(** An Age column that holds an integer, a string that spells a number and
    a missing value. *)
Definition ex_age_text : DataFrame :=
  {| columns := ["Age"; "Embarked"; "Fare"];
     rows :=
       [mkrow [("Age", VInt 1); ("Embarked", VStr "S");
               ("Fare", VFloat (Qc_of_Z 1))];
        mkrow [("Age", VStr "2"); ("Embarked", VStr "S");
               ("Fare", VFloat (Qc_of_Z 1))];
        mkrow [("Age", VNaN); ("Embarked", VStr "S");
               ("Fare", VFloat (Qc_of_Z 1))]] |}.

(** An Embarked column in which two strings are tied for the most frequent
    value and a number occurs less often. *)
Definition ex_embarked_mixed : DataFrame :=
  {| columns := ["Age"; "Embarked"; "Fare"];
     rows :=
       [mkrow [("Age", VFloat (Qc_of_Z 1)); ("Embarked", VStr "S");
               ("Fare", VFloat (Qc_of_Z 1))];
        mkrow [("Age", VFloat (Qc_of_Z 2)); ("Embarked", VStr "S");
               ("Fare", VFloat (Qc_of_Z 1))];
        mkrow [("Age", VFloat (Qc_of_Z 3)); ("Embarked", VStr "C");
               ("Fare", VFloat (Qc_of_Z 1))];
        mkrow [("Age", VFloat (Qc_of_Z 4)); ("Embarked", VStr "C");
               ("Fare", VFloat (Qc_of_Z 1))];
        mkrow [("Age", VFloat (Qc_of_Z 5)); ("Embarked", VInt 1);
               ("Fare", VFloat (Qc_of_Z 1))];
        mkrow [("Age", VFloat (Qc_of_Z 6)); ("Embarked", VNaN);
               ("Fare", VFloat (Qc_of_Z 1))]] |}.

Definition ex_embarked_tie : DataFrame :=
  {| columns := ["Age"; "Embarked"; "Fare"];
     rows :=
       [mkrow [("Age", VFloat (Qc_of_Z 1)); ("Embarked", VStr "S");
               ("Fare", VFloat (Qc_of_Z 1))];
        mkrow [("Age", VFloat (Qc_of_Z 2)); ("Embarked", VStr "C");
               ("Fare", VFloat (Qc_of_Z 1))];
        mkrow [("Age", VFloat (Qc_of_Z 3)); ("Embarked", VNaN);
               ("Fare", VFloat (Qc_of_Z 1))]] |}.

Definition ex_passengers : DataFrame :=
  {| columns := ["SibSp"; "Parch"; "Name"; "Age"; "Fare"];
     rows :=
       [mkrow [("SibSp", VInt 1); ("Parch", VInt 0);
               ("Name", VStr "Braund, Mr. Owen Harris");
               ("Age", VFloat (Qc_of_Z 22));
               ("Fare", VFloat (Q2Qc (725 # 100)))];
        mkrow [("SibSp", VInt 0); ("Parch", VInt 0);
               ("Name", VStr "Brewe, Dr. Arthur Jackson");
               ("Age", VFloat (Qc_of_Z 70)); ("Fare", VNaN)]] |}.


Definition ex_two_fares : DataFrame :=
  {| columns := ["SibSp"; "Parch"; "Name"; "Age"; "Fare"];
     rows :=
       [mkrow [("SibSp", VInt 1); ("Parch", VInt 0);
               ("Name", VStr "Cumings, Mrs. John Bradley");
               ("Age", VFloat (Qc_of_Z 38));
               ("Fare", VFloat (Q2Qc (712833 # 10000)))];
        mkrow [("SibSp", VInt 0); ("Parch", VInt 0);
               ("Name", VStr "Heikkinen, Miss. Laina");
               ("Age", VFloat (Qc_of_Z 26));
               ("Fare", VFloat (Q2Qc (7925 # 1000)))]] |}.

(** * Properties *)

(** ** The order on strings *)

Lemma ascii_compare_refl (a : ascii) : Ascii.compare a a = Eq.
Proof. unfold Ascii.compare. apply N.compare_refl. Qed.

Lemma ascii_compare_lt_trans (a b c : ascii) :
  Ascii.compare a b = Lt → Ascii.compare b c = Lt → Ascii.compare a c = Lt.
Proof.
  unfold Ascii.compare. rewrite !N.compare_lt_iff. lia.
Qed.

Lemma str_compare_refl (s : string) : String.compare s s = Eq.
Proof.
  induction s as [|a s IH]; simpl; [done|].
  by rewrite ascii_compare_refl.
Qed.

Lemma str_compare_eq (s t : string) : String.compare s t = Eq ↔ s = t.
Proof.
  split; [apply String.compare_eq_iff|intros ->; apply str_compare_refl].
Qed.

Lemma str_lt_trans (s t u : string) : str_lt s t → str_lt t u → str_lt s u.
Proof.
  unfold str_lt. revert t u.
  induction s as [|a s IH]; intros [|b t] [|c u]; simpl; try done.
  destruct (Ascii.compare a b) eqn:Hab; try done;
    destruct (Ascii.compare b c) eqn:Hbc; try done; intros H1 H2.
  - apply Ascii.compare_eq_iff in Hab, Hbc. subst.
    rewrite ascii_compare_refl. eauto.
  - apply Ascii.compare_eq_iff in Hab. subst. by rewrite Hbc.
  - apply Ascii.compare_eq_iff in Hbc. subst. by rewrite Hab.
  - by rewrite (ascii_compare_lt_trans a b c).
Qed.

Lemma str_lt_irrefl (s : string) : ¬ str_lt s s.
Proof. unfold str_lt. by rewrite str_compare_refl. Qed.

Lemma str_le_lt_eq (s t : string) : str_le s t ↔ str_lt s t ∨ s = t.
Proof.
  unfold str_le, str_lt, String.leb.
  destruct (String.compare s t) eqn:H.
  - apply str_compare_eq in H. naive_solver.
  - naive_solver.
  - split; [done|]. intros [| ->]; [done|].
    by rewrite str_compare_refl in H.
Qed.

Lemma str_lt_not_le (s t : string) : str_lt s t → ¬ str_le t s.
Proof.
  intros Hlt [Hle| ->]%str_le_lt_eq.
  - by apply (str_lt_irrefl s), (str_lt_trans s t s).
  - by apply (str_lt_irrefl s).
Qed.

#[global] Instance str_le_preorder : PreOrder str_le.
Proof.
  split.
  - intros s. apply str_le_lt_eq. by right.
  - intros s t u [H1| ->]%str_le_lt_eq [H2| ->]%str_le_lt_eq;
      apply str_le_lt_eq; eauto using str_lt_trans.
Qed.

#[global] Instance str_le_total : Total str_le.
Proof. intros s t. apply String.leb_total. Qed.

#[global] Instance str_le_antisymm : AntiSymm (=) str_le.
Proof. intros s t H1 H2. by apply String.leb_antisym. Qed.

(** ** Lists *)

Lemma filter_none {A} (P : A → Prop) `{∀ x, Decision (P x)} (l : list A) :
  (∀ x, x ∈ l → ¬ P x) → filter P l = [].
Proof.
  induction l as [|a l IH]; intros Hl; [done|].
  rewrite filter_cons_False by (apply Hl; left).
  apply IH. intros x Hx. apply Hl. by right.
Qed.

Lemma filter_all {A} (P : A → Prop) `{∀ x, Decision (P x)} (l : list A) :
  (∀ x, x ∈ l → P x) → filter P l = l.
Proof.
  induction l as [|a l IH]; intros Hl; [done|].
  rewrite filter_cons_True by (apply Hl; left).
  f_equal. apply IH. intros x Hx. apply Hl. by right.
Qed.

(** ** The label encoder *)

Lemma sorted_position (l : list string) (i : nat) (x : string) :
  StronglySorted str_le l → NoDup l → l !! i = Some x →
  i = length (filter (λ c, str_lt c x) l).
Proof.
  intros Hs. revert i. induction Hs as [|a l Hs IH Ha]; intros i Hnd Hi.
  - done.
  - apply NoDup_cons in Hnd as [Hnotin Hnd].
    destruct i as [|i]; simpl in Hi.
    + injection Hi as ->. rewrite filter_cons_False by apply str_lt_irrefl.
      rewrite filter_none; [done|].
      rewrite Forall_forall in Ha. intros c Hc Hlt.
      by apply (str_lt_not_le c x), Ha.
    + assert (x ∈ l) as Hx by (by eapply list_elem_of_lookup_2).
      rewrite Forall_forall in Ha.
      rewrite filter_cons_True.
      * simpl. f_equal. by apply IH.
      * destruct (proj1 (str_le_lt_eq a x) (Ha x Hx)) as [| ->]; done.
Qed.

Lemma fit_classes_NoDup (y : list string) :
  NoDup (classes_ (LabelEncoder_fit y)).
Proof.
  simpl. rewrite merge_sort_Permutation. apply NoDup_remove_dups.
Qed.

Lemma fit_classes_sorted (y : list string) :
  StronglySorted str_le (classes_ (LabelEncoder_fit y)).
Proof. apply (StronglySorted_merge_sort str_le). Qed.

Lemma fit_classes_elem_of (y : list string) (x : string) :
  x ∈ classes_ (LabelEncoder_fit y) ↔ x ∈ y.
Proof. simpl. by rewrite merge_sort_Permutation, elem_of_remove_dups. Qed.

Lemma fit_classes_length (y : list string) :
  length (classes_ (LabelEncoder_fit y)) = length (remove_dups y).
Proof. simpl. by rewrite merge_sort_Permutation. Qed.

Lemma rank_classes (x : string) (y : list string) :
  rank x y = length (filter (λ c, str_lt c x) (classes_ (LabelEncoder_fit y))).
Proof. unfold rank. simpl. by rewrite merge_sort_Permutation. Qed.

Lemma rank_lt (x : string) (y : list string) :
  x ∈ y → (rank x y < length (remove_dups y))%nat.
Proof.
  intros Hx. unfold rank.
  apply (length_filter_lt _ _ x); [|apply str_lt_irrefl].
  by apply elem_of_remove_dups.
Qed.

Lemma class_index_Some (le : LabelEncoder) (x : string) (i : nat) :
  class_index le x = Some i → classes_ le !! i = Some x.
Proof.
  unfold class_index. intros H.
  apply fmap_Some in H as ([j c] & H & ->).
  apply list_find_Some in H as (H & -> & _). done.
Qed.

Lemma class_index_elem_of (le : LabelEncoder) (x : string) :
  x ∈ classes_ le → is_Some (class_index le x).
Proof.
  intros Hx. unfold class_index.
  destruct (list_find_elem_of (λ c, c = x) (classes_ le) x Hx eq_refl)
    as [[j c] ->].
  by eexists.
Qed.

Lemma class_index_fit (y : list string) (x : string) :
  x ∈ y → class_index (LabelEncoder_fit y) x = Some (rank x y).
Proof.
  intros Hx.
  destruct (class_index_elem_of (LabelEncoder_fit y) x) as [i Hi].
  { by apply fit_classes_elem_of. }
  rewrite Hi. f_equal.
  rewrite rank_classes.
  apply sorted_position; auto using fit_classes_sorted, fit_classes_NoDup.
  by apply class_index_Some.
Qed.

Lemma class_index_None (le : LabelEncoder) (x : string) :
  x ∉ classes_ le → class_index le x = None.
Proof.
  intros Hx. destruct (class_index le x) as [i|] eqn:H; [|done].
  apply class_index_Some in H. destruct Hx. by eapply list_elem_of_lookup_2.
Qed.

(** ** Frames *)

Lemma getitem_Ok (df : DataFrame) (c : string) (vs : list cell) :
  getitem df c = Ok vs ↔ c ∈ columns df ∧ vs = cell_at c <$> rows df.
Proof.
  unfold getitem. case_decide as Hc.
  - split; [by intros [= <-]|by intros [_ ->]].
  - split; [done|by intros [? _]].
Qed.

Lemma getitem_length (df : DataFrame) (c : string) (vs : list cell) :
  getitem df c = Ok vs → length vs = length (rows df).
Proof. intros [_ ->]%getitem_Ok. by rewrite length_fmap. Qed.

Lemma cell_at_zip_insert_eq (c : string) (rs : list (gmap string cell))
    (vs : list cell) :
  length vs = length rs →
  cell_at c <$> zip_with (λ r v, <[c := v]> r) rs vs = vs.
Proof.
  revert vs. induction rs as [|r rs IH]; intros [|v vs] Hlen;
    simplify_eq/=; [done|].
  unfold cell_at at 1. rewrite lookup_insert_eq. simpl. f_equal. by apply IH.
Qed.

Lemma cell_at_zip_insert_ne (c c' : string) (rs : list (gmap string cell))
    (vs : list cell) :
  c' ≠ c → length vs = length rs →
  cell_at c' <$> zip_with (λ r v, <[c := v]> r) rs vs = cell_at c' <$> rs.
Proof.
  intros Hne. revert vs. induction rs as [|r rs IH]; intros [|v vs] Hlen;
    simplify_eq/=; [done|].
  unfold cell_at at 1 3. rewrite lookup_insert_ne by done. f_equal.
  by apply IH.
Qed.

Lemma setitem_updated (d : DataFrame) (c : string) (vs : list cell) :
  c ∈ columns d → length vs = length (rows d) →
  ∃ d', setitem d c vs = Ok d' ∧ col_updated d c vs d'.
Proof.
  intros Hc Hlen. unfold setitem. rewrite decide_True by done.
  eexists. split; [done|]. unfold col_updated, getitem. simpl.
  rewrite !decide_True by done. split_and!.
  - done.
  - by rewrite length_zip_with_l_eq.
  - by rewrite cell_at_zip_insert_eq.
  - intros c' Hne. by rewrite cell_at_zip_insert_ne.
Qed.

Lemma setitem_Ok_inv (d d' : DataFrame) (c : string) (vs : list cell) :
  setitem d c vs = Ok d' → length vs = length (rows d).
Proof. unfold setitem. case_decide; naive_solver. Qed.

Lemma col_updated_again (d d1 d2 : DataFrame) (c : string)
    (vs ws : list cell) :
  col_updated d c vs d1 → col_updated d1 c ws d2 → col_updated d c ws d2.
Proof.
  intros (Hc1 & Hl1 & Hg1 & Ho1) (Hc2 & Hl2 & Hg2 & Ho2).
  split_and!; try congruence.
  intros c' Hne. by rewrite Ho2, Ho1.
Qed.

(** ** The heap *)

Lemma state_bind_eq {S A B} (m : state_exn S A) (k : A → state_exn S B)
    (st : S) :
  (m ≫= k) st =
  match m st with
  | (Ok a, st') => k a st'
  | (Raise e, st') => (Raise e, st')
  end.
Proof. done. Qed.

Lemma frame_getitem_eq (l : nat) (c : string) (h : heap) :
  frame_getitem l c h =
  match h !! l with
  | Some df => (getitem df c, h)
  | None => (Raise (ReferenceError "no such object"), h)
  end.
Proof.
  unfold frame_getitem, deref. rewrite state_bind_eq.
  by destruct (h !! l).
Qed.

Lemma frame_setitem_eq (l : nat) (c : string) (vs : list cell) (h : heap) :
  frame_setitem l c vs h =
  match h !! l with
  | Some df =>
      match setitem df c vs with
      | Ok df' => (Ok (), <[l := df']> h)
      | Raise e => (Raise e, h)
      end
  | None => (Raise (ReferenceError "no such object"), h)
  end.
Proof.
  unfold frame_setitem, deref. rewrite state_bind_eq.
  destruct (h !! l) as [df|]; [|done].
  rewrite state_bind_eq. unfold lift_result. by destruct (setitem df c vs).
Qed.

(** ** _encode_column and encode_features *)

Lemma transform_cons (le : LabelEncoder) (c : cell) (l : list cell) :
  LabelEncoder_transform le (c :: l)
  = transform_cell le c ≫= λ v,
      LabelEncoder_transform le l ≫= λ vs, Ok (v :: vs).
Proof. done. Qed.

Lemma transform_fit_members (y l : list string) :
  (∀ x, x ∈ l → x ∈ y) →
  LabelEncoder_transform (LabelEncoder_fit y) (VStr <$> l)
  = Ok (train_code y <$> l).
Proof.
  induction l as [|x l IH]; intros Hl; [done|].
  rewrite fmap_cons, transform_cons, IH.
  - unfold transform_cell. by rewrite class_index_fit by (apply Hl; left).
  - intros x' Hx'. apply Hl. by right.
Qed.

Lemma fit_classes_nil (y : list string) :
  classes_ (LabelEncoder_fit y) = [] ↔ y = [].
Proof.
  split; [|by intros ->].
  intros Hnil. destruct y as [|x y]; [done|].
  assert (x ∈ classes_ (LabelEncoder_fit (x :: y))) as Hx.
  { apply fit_classes_elem_of. left. }
  rewrite Hnil in Hx. by apply elem_of_nil in Hx.
Qed.

Lemma rank_head (y : list string) (c0 : string) :
  head (classes_ (LabelEncoder_fit y)) = Some c0 → c0 ∈ y ∧ rank c0 y = 0%nat.
Proof.
  intros Hhd.
  assert (classes_ (LabelEncoder_fit y) !! 0%nat = Some c0) as H0.
  { by destruct (classes_ (LabelEncoder_fit y)). }
  assert (c0 ∈ y) as Hin.
  { apply fit_classes_elem_of. by eapply list_elem_of_lookup_2. }
  split; [done|].
  pose proof (class_index_Some _ _ _ (class_index_fit y c0 Hin)) as Hr.
  symmetry. eapply NoDup_lookup; eauto using fit_classes_NoDup.
Qed.

Section EncodingFacts.
Variable float_repr : Qc → string.

Lemma apply_fallback_Ok (y l : list string) (c0 : string) :
  head (classes_ (LabelEncoder_fit y)) = Some c0 →
  Series_apply (fallback (LabelEncoder_fit y)) l
  = Ok ((λ x, if decide (x ∈ y) then x else c0) <$> l).
Proof.
  intros Hhd. induction l as [|x l IH]; [done|].
  simpl. rewrite IH. unfold fallback.
  destruct (decide (x ∈ classes_ (LabelEncoder_fit y))) as [Hx|Hx];
    rewrite fit_classes_elem_of in Hx.
  - by rewrite decide_True.
  - rewrite decide_False by done.
    by destruct (classes_ (LabelEncoder_fit y)); simplify_eq/=.
Qed.

Lemma apply_fallback_nil (x : string) (l : list string) :
  Series_apply (fallback (LabelEncoder_fit [])) (x :: l)
  = Raise (IndexError "index 0 is out of bounds for axis 0 with size 0").
Proof. done. Qed.

Lemma encode_test_codes (y l : list string) (c0 : string) :
  head (classes_ (LabelEncoder_fit y)) = Some c0 →
  LabelEncoder_transform (LabelEncoder_fit y)
    (VStr <$> ((λ x, if decide (x ∈ y) then x else c0) <$> l))
  = Ok (test_code y <$> l).
Proof.
  intros Hhd. destruct (rank_head y c0 Hhd) as [Hc0 Hr0].
  rewrite transform_fit_members.
  - f_equal. rewrite <- list_fmap_compose. apply list_fmap_ext.
    intros _ x _. simpl. unfold test_code. case_decide; [done|].
    unfold train_code. by rewrite Hr0.
  - intros x (x' & -> & _)%list_elem_of_fmap. by case_decide.
Qed.

(** What [_encode_column] does to two distinct frames that hold the
    column, when the training column is not empty or the test column is. *)
Lemma _encode_column_run (tr te : nat) (col : string) (h : heap)
    (dtr dte : DataFrame) (ctr cte : list cell) :
  tr ≠ te → h !! tr = Some dtr → h !! te = Some dte →
  getitem dtr col = Ok ctr → getitem dte col = Ok cte →
  ctr ≠ [] ∨ cte = [] →
  ∃ dtr' dte',
    _encode_column float_repr tr te col h
    = (Ok (tr, te, LabelEncoder_fit (astype_str float_repr <$> ctr)),
       <[te := dte']> (<[tr := dtr']> h)) ∧
    col_updated dtr col
      (train_code (astype_str float_repr <$> ctr)
         <$> (astype_str float_repr <$> ctr)) dtr' ∧
    col_updated dte col
      (test_code (astype_str float_repr <$> ctr)
         <$> (astype_str float_repr <$> cte)) dte'.
Proof.
  intros Hne Htr Hte Hctr Hcte Hnonempty.
  set (y := astype_str float_repr <$> ctr).
  pose proof (proj1 (getitem_Ok _ _ _) Hctr) as [Hcol_tr _].
  pose proof (proj1 (getitem_Ok _ _ _) Hcte) as [Hcol_te _].
  destruct (setitem_updated dtr col (train_code y <$> y))
    as (dtr' & Hset_tr & Hup_tr); [done| |].
  { unfold y. rewrite !length_fmap. by eapply getitem_length. }
  assert (∃ dte', col_updated dte col
                    (test_code y <$> (astype_str float_repr <$> cte)) dte' ∧
            (frame_getitem te col ≫= λ col0,
               lift_result (Series_apply (fallback (LabelEncoder_fit y))
                              (astype_str float_repr <$> col0)) ≫= λ col1,
               frame_setitem te col (VStr <$> col1) ≫= λ _,
               frame_getitem te col ≫= λ col2,
               lift_result (LabelEncoder_transform (LabelEncoder_fit y) col2)
                 ≫= λ codes,
               frame_setitem te col codes ≫= λ _,
               mret (tr, te, LabelEncoder_fit y)) (<[tr := dtr']> h)
            = (Ok (tr, te, LabelEncoder_fit y),
               <[te := dte']> (<[tr := dtr']> h))) as (dte' & Hup_te & Hrun).
  { rewrite state_bind_eq, frame_getitem_eq.
    rewrite list_lookup_insert_ne, Hte, Hcte by done.
    rewrite state_bind_eq. unfold lift_result at 1.
    assert (∃ mapped,
              Series_apply (fallback (LabelEncoder_fit y))
                (astype_str float_repr <$> cte) = Ok mapped ∧
              length mapped = length cte ∧
              LabelEncoder_transform (LabelEncoder_fit y) (VStr <$> mapped)
              = Ok (test_code y <$> (astype_str float_repr <$> cte)))
      as (mapped & -> & Hlen & Htrans).
    { destruct (classes_ (LabelEncoder_fit y)) as [|c0 cs] eqn:Hcls.
      - apply (proj1 (fit_classes_nil y)) in Hcls. unfold y in Hcls.
        apply fmap_nil_inv in Hcls.
        destruct Hnonempty as [?| ->]; [done|].
        exists []. done.
      - eexists. split; [apply (apply_fallback_Ok _ _ c0); by rewrite Hcls|].
        split; [by rewrite !length_fmap|].
        apply encode_test_codes. by rewrite Hcls. }
    destruct (setitem_updated dte col (VStr <$> mapped))
      as (dte1 & Hset1 & Hup1); [done| |].
    { rewrite length_fmap, Hlen. by eapply getitem_length. }
    destruct Hup1 as (Hc1 & Hl1 & Hg1 & Ho1).
    destruct (setitem_updated dte1 col
                (test_code y <$> (astype_str float_repr <$> cte)))
      as (dte2 & Hset2 & Hup2).
    { by rewrite Hc1. }
    { rewrite !length_fmap, Hl1. by eapply getitem_length. }
    exists dte2. split.
    { eapply col_updated_again; [|done]. by split_and!. }
    rewrite state_bind_eq, frame_setitem_eq.
    rewrite list_lookup_insert_ne, Hte, Hset1 by done.
    rewrite state_bind_eq, frame_getitem_eq.
    assert (te < length (<[tr := dtr']> h))%nat as Hlt.
    { rewrite length_insert. by eapply lookup_lt_Some. }
    rewrite list_lookup_insert_eq, Hg1 by done.
    rewrite state_bind_eq. unfold lift_result. rewrite Htrans.
    rewrite state_bind_eq, frame_setitem_eq.
    rewrite list_lookup_insert_eq, Hset2 by done.
    by rewrite list_insert_insert_eq. }
  exists dtr', dte'. split_and!; [|done|done].
  unfold _encode_column.
  rewrite state_bind_eq, frame_getitem_eq, Htr, Hctr.
  unfold LabelEncoder_fit_transform. fold y.
  rewrite transform_fit_members by done.
  rewrite state_bind_eq. unfold lift_result at 1.
  rewrite state_bind_eq, frame_setitem_eq, Htr, Hset_tr.
  exact Hrun.
Qed.

End EncodingFacts.

Lemma touches_only_bind {A B} (tr te : nat) (P : A → Prop) (Q : B → Prop)
    (m : state_exn heap A) (k : A → state_exn heap B) :
  touches_only tr te P m → (∀ a, touches_only tr te Q (k a)) →
  touches_only tr te Q (m ≫= k).
Proof.
  intros Hm Hk h r h' Hrun. rewrite state_bind_eq in Hrun.
  destruct (m h) as [[a|e] h1] eqn:Hmh.
  - destruct (Hm _ _ _ Hmh) as (Hlen1 & Hother1 & _).
    destruct (Hk a _ _ _ Hrun) as (Hlen & Hother & HQ).
    split_and!; [congruence| |done].
    intros l ??. by rewrite Hother, Hother1.
  - destruct (Hm _ _ _ Hmh) as (Hlen1 & Hother1 & _). by simplify_eq.
Qed.

Lemma touches_only_ret {A} (tr te : nat) (Q : A → Prop) (a : A) :
  Q a → touches_only tr te Q (mret a).
Proof. intros HQ h r h' [= <- <-]. split_and!; [done|done|]. by intros ? [= <-]. Qed.

Lemma touches_only_lift {A} (tr te : nat) (r : result A) :
  touches_only tr te (λ _, True) (lift_result r).
Proof. by intros h r' h' [= <- <-]. Qed.

Lemma touches_only_getitem (tr te l : nat) (c : string) :
  touches_only tr te (λ _, True) (frame_getitem l c).
Proof.
  intros h r h'. rewrite frame_getitem_eq.
  by destruct (h !! l); intros [= <- <-].
Qed.

Lemma touches_only_setitem (tr te l : nat) (c : string) (vs : list cell) :
  l = tr ∨ l = te → touches_only tr te (λ _, True) (frame_setitem l c vs).
Proof.
  intros Hl h r h'. rewrite frame_setitem_eq.
  destruct (h !! l) as [df|]; [|by intros [= <- <-]].
  destruct (setitem df c vs); intros [= <- <-]; [|done].
  rewrite length_insert. split_and!; [done| |done].
  intros l' Htr Hte. apply list_lookup_insert_ne.
  intros <-. by destruct Hl.
Qed.

Ltac step_heap :=
  rewrite ?state_bind_eq, ?frame_getitem_eq, ?frame_setitem_eq in *;
  unfold lift_result in *;
  match goal with
  | |- context [match ?x with _ => _ end] => destruct x eqn:?
  | H : context [match ?x with _ => _ end] |- _ => destruct x eqn:?
  end.


Section EncodingInversion.
Variable float_repr : Qc → string.

Lemma apply_fallback_Ok_inv (y l m : list string) :
  Series_apply (fallback (LabelEncoder_fit y)) l = Ok m → y ≠ [] ∨ l = [].
Proof.
  destruct y as [|x y]; [|by left]. destruct l as [|x l]; [by right|].
  by rewrite apply_fallback_nil.
Qed.

(** [_encode_column] touches no object besides the two frames it is
    given, and hands back the references it received. *)
Lemma _encode_column_touches_only (tr te : nat) (col : string) :
  touches_only tr te (λ res, res.1 = (tr, te))
    (_encode_column float_repr tr te col).
Proof.
  unfold _encode_column, LabelEncoder_fit_transform.
  eapply touches_only_bind; [apply touches_only_getitem|intros ctr].
  eapply touches_only_bind; [apply touches_only_lift|intros codes].
  eapply touches_only_bind;
    [apply touches_only_setitem; by left|intros _].
  eapply touches_only_bind; [apply touches_only_getitem|intros cte].
  eapply touches_only_bind; [apply touches_only_lift|intros mapped].
  eapply touches_only_bind;
    [apply touches_only_setitem; by right|intros _].
  eapply touches_only_bind; [apply touches_only_getitem|intros cte'].
  eapply touches_only_bind; [apply touches_only_lift|intros codes'].
  eapply touches_only_bind;
    [apply touches_only_setitem; by right|intros _].
  by apply touches_only_ret.
Qed.

Lemma _encode_column_footprint (tr te : nat) (col : string) (h h' : heap)
    (r : result (nat * nat * LabelEncoder)) :
  _encode_column float_repr tr te col h = (r, h') →
  length h' = length h ∧
  (∀ l, l ≠ tr → l ≠ te → h' !! l = h !! l) ∧
  (∀ res, r = Ok res → res.1 = (tr, te)).
Proof. apply _encode_column_touches_only. Qed.

Lemma _encode_column_Ok_inv (tr te : nat) (col : string) (h h' : heap)
    (res : nat * nat * LabelEncoder) :
  tr ≠ te →
  _encode_column float_repr tr te col h = (Ok res, h') →
  ∃ dtr dte ctr cte,
    h !! tr = Some dtr ∧ h !! te = Some dte ∧
    getitem dtr col = Ok ctr ∧ getitem dte col = Ok cte ∧
    (ctr ≠ [] ∨ cte = []).
Proof.
  intros Hne. unfold _encode_column, LabelEncoder_fit_transform.
  intros Hrun.
  destruct (h !! tr) as [dtr|] eqn:Htr;
    [|by rewrite state_bind_eq, frame_getitem_eq, Htr in Hrun].
  rewrite state_bind_eq, frame_getitem_eq, Htr in Hrun.
  destruct (getitem dtr col) as [ctr|] eqn:Hctr; [|by simplify_eq/=].
  cbv beta iota in Hrun.
  step_heap; [|by simplify_eq/=].
  rewrite state_bind_eq, frame_setitem_eq, Htr in Hrun.
  destruct (setitem dtr col _) as [dtr1|] eqn:Hset; [|by simplify_eq/=].
  cbv beta iota in Hrun.
  rewrite state_bind_eq, frame_getitem_eq in Hrun.
  rewrite list_lookup_insert_ne in Hrun by done.
  destruct (h !! te) as [dte|] eqn:Hte; [|by simplify_eq/=].
  destruct (getitem dte col) as [cte|] eqn:Hcte; [|by simplify_eq/=].
  cbv beta iota in Hrun.
  step_heap; [|by simplify_eq/=].
  exists dtr, dte, ctr, cte. split_and!; try done.
  match goal with
  | H : Series_apply _ _ = Ok _ |- _ =>
      destruct (apply_fallback_Ok_inv _ _ _ H) as [Hy|Hl]
  end.
  - left. by intros ->.
  - right. by apply fmap_nil_inv in Hl.
Qed.

End EncodingInversion.

Section EncodingLoop.
Variable float_repr : Qc → string.
Local Abbreviation astr := (astype_str float_repr).

Lemma encode_loop_nil (tr te : nat) (les : gmap string LabelEncoder)
    (h : heap) :
  encode_loop float_repr [] tr te les h = (Ok (tr, te, les), h).
Proof. done. Qed.

Lemma encode_loop_cons (col : string) (cols : list string) (tr te : nat)
    (les : gmap string LabelEncoder) (h : heap) :
  encode_loop float_repr (col :: cols) tr te les h =
  match _encode_column float_repr tr te col h with
  | (Ok (tr', te', le), h1) =>
      encode_loop float_repr cols tr' te' (<[col := le]> les) h1
  | (Raise e, h1) => (Raise e, h1)
  end.
Proof.
  simpl. rewrite state_bind_eq.
  by destruct (_encode_column float_repr tr te col h) as [[[[??]?]|?] ?].
Qed.

Lemma encode_loop_footprint (cols : list string) (tr te : nat)
    (les : gmap string LabelEncoder) (h h' : heap)
    (r : result (nat * nat * gmap string LabelEncoder)) :
  encode_loop float_repr cols tr te les h = (r, h') →
  length h' = length h ∧ ∀ l, l ≠ tr → l ≠ te → h' !! l = h !! l.
Proof.
  revert les h. induction cols as [|col cols IH]; intros les h Hrun.
  - rewrite encode_loop_nil in Hrun. by simplify_eq.
  - rewrite encode_loop_cons in Hrun.
    destruct (_encode_column float_repr tr te col h) as [r1 h1] eqn:Hcol.
    apply _encode_column_footprint in Hcol as (Hlen & Hother & Hres).
    destruct r1 as [[[tr' te'] le]|e]; [|by simplify_eq/=].
    specialize (Hres _ eq_refl). simplify_eq/=.
    apply IH in Hrun as [Hlen' Hother']. split; [congruence|].
    intros l ??. by rewrite Hother', Hother.
Qed.

Lemma encode_loop_spec (cols : list string) (tr te : nat)
    (les : gmap string LabelEncoder) (h h' : heap)
    (res : nat * nat * gmap string LabelEncoder) (dtr dte : DataFrame) :
  NoDup cols → tr ≠ te → h !! tr = Some dtr → h !! te = Some dte →
  encode_loop float_repr cols tr te les h = (Ok res, h') →
  ∃ dtr' dte' les',
    res = (tr, te, les') ∧ h' !! tr = Some dtr' ∧ h' !! te = Some dte' ∧
    (∀ c, c ∈ cols → column_encoded float_repr dtr dte dtr' dte' (les' !! c) c) ∧
    (∀ c, c ∉ cols →
       getitem dtr' c = getitem dtr c ∧ getitem dte' c = getitem dte c ∧
       les' !! c = les !! c).
Proof.
  intros Hnd Hne. revert les h dtr dte.
  induction Hnd as [|col cols Hnotin Hnd IH]; intros les h dtr dte Htr Hte Hrun.
  - rewrite encode_loop_nil in Hrun. simplify_eq.
    exists dtr, dte, les. split_and!; try done.
    intros c Hc. by apply elem_of_nil in Hc.
  - rewrite encode_loop_cons in Hrun.
    destruct (_encode_column float_repr tr te col h) as [r1 h1] eqn:Hcol.
    destruct r1 as [res1|e]; [|by simplify_eq/=].
    destruct (_encode_column_Ok_inv _ _ _ _ _ _ _ Hne Hcol)
      as (dtr0 & dte0 & ctr & cte & Htr0 & Hte0 & Hctr & Hcte & Hnonempty).
    simplify_eq.
    destruct (_encode_column_run float_repr tr te col h dtr dte ctr cte)
      as (dtr1 & dte1 & Hrun1 & Hup_tr & Hup_te); try done.
    rewrite Hrun1 in Hcol. simplify_eq.
    destruct Hup_tr as (_ & _ & Hg_tr & Ho_tr).
    destruct Hup_te as (_ & _ & Hg_te & Ho_te).
    assert (tr < length h)%nat by (by eapply lookup_lt_Some).
    assert (te < length h)%nat by (by eapply lookup_lt_Some).
    apply IH with (dtr := dtr1) (dte := dte1) in Hrun
        as (dtr' & dte' & les' & -> & Htr' & Hte' & Hin & Hout).
    + exists dtr', dte', les'. split_and!; try done.
      * intros c [->|Hc]%elem_of_cons.
        -- destruct (Hout col Hnotin) as (Hg1 & Hg2 & Hl).
           exists ctr, cte. rewrite Hg1, Hg2, Hl, lookup_insert_eq.
           by split_and!.
        -- assert (c ≠ col) by (by intros ->).
           destruct (Hin c Hc)
             as (ctr' & cte' & Ha & Hb & Hc' & Hd & He & Hf).
           exists ctr', cte'. rewrite <- Ho_tr, <- Ho_te by done.
           by split_and!.
      * intros c Hc. apply not_elem_of_cons in Hc as [Hc1 Hc2].
        destruct (Hout c Hc2) as (Hg1 & Hg2 & Hl).
        rewrite Hg1, Hg2, Hl, Ho_tr, Ho_te by done.
        by rewrite lookup_insert_ne.
    + rewrite list_lookup_insert_ne by done.
      by rewrite list_lookup_insert_eq.
    + by rewrite list_lookup_insert_eq by (by rewrite length_insert).
Qed.

Lemma encode_loop_total (cols : list string) (tr te : nat)
    (les : gmap string LabelEncoder) (h : heap) (dtr dte : DataFrame) :
  tr ≠ te → h !! tr = Some dtr → h !! te = Some dte →
  (∀ c, c ∈ cols → c ∈ columns dtr ∧ c ∈ columns dte) →
  rows dtr ≠ [] →
  ∃ res h', encode_loop float_repr cols tr te les h = (Ok res, h').
Proof.
  intros Hne. revert les h dtr dte.
  induction cols as [|col cols IH]; intros les h dtr dte Htr Hte Hcols Hrows.
  - by eexists _, _.
  - destruct (Hcols col) as [Hc1 Hc2]; [left|].
    assert (cell_at col <$> rows dtr ≠ []) as Hctr.
    { intros Hnil%fmap_nil_inv. done. }
    destruct (_encode_column_run float_repr tr te col h dtr dte
                (cell_at col <$> rows dtr) (cell_at col <$> rows dte))
      as (dtr1 & dte1 & Hrun1 & Hup_tr & Hup_te); try done.
    { by apply getitem_Ok. }
    { by apply getitem_Ok. }
    { by left. }
    rewrite encode_loop_cons, Hrun1.
    destruct Hup_tr as (Hcols_tr & Hlen_tr & _ & _).
    destruct Hup_te as (Hcols_te & _ & _ & _).
    assert (tr < length h)%nat by (by eapply lookup_lt_Some).
    assert (te < length h)%nat by (by eapply lookup_lt_Some).
    apply IH with (dtr := dtr1) (dte := dte1).
    + rewrite list_lookup_insert_ne by done.
      by rewrite list_lookup_insert_eq.
    + by rewrite list_lookup_insert_eq by (by rewrite length_insert).
    + intros c Hc. rewrite Hcols_tr, Hcols_te. apply Hcols. by right.
    + intros Hnil. rewrite Hnil in Hlen_tr. by destruct (rows dtr).
Qed.

Lemma categorical_cols_NoDup : NoDup categorical_cols.
Proof. apply (bool_decide_unpack _). by vm_compute. Qed.

Lemma DataFrame_copy_eq (l : nat) (h : heap) :
  DataFrame_copy l h =
  match h !! l with
  | Some df => (Ok (length h), (h ++ [df])%list)
  | None => (Raise (ReferenceError "no such object"), h)
  end.
Proof.
  unfold DataFrame_copy, deref, alloc. rewrite state_bind_eq.
  by destruct (h !! l).
Qed.

Lemma encode_features_eq (train test : nat) (h : heap)
    (dtr dte : DataFrame) :
  h !! train = Some dtr → h !! test = Some dte →
  encode_features float_repr train test h =
  encode_loop float_repr categorical_cols (length h) (S (length h)) ∅
    (h ++ [dtr; dte])%list.
Proof.
  intros Htr Hte. unfold encode_features.
  rewrite state_bind_eq, DataFrame_copy_eq, Htr.
  rewrite state_bind_eq, DataFrame_copy_eq.
  rewrite lookup_app_l, Hte by (by eapply lookup_lt_Some).
  rewrite length_app. simpl. rewrite Nat.add_1_r.
  by rewrite <- app_assoc.
Qed.

Lemma encode_features_spec (train test : nat) (h h' : heap)
    (res : nat * nat * gmap string LabelEncoder) (dtr dte : DataFrame) :
  h !! train = Some dtr → h !! test = Some dte →
  encode_features float_repr train test h = (Ok res, h') →
  ∃ dtr' dte' les,
    res = (length h, S (length h), les) ∧
    h' !! length h = Some dtr' ∧ h' !! S (length h) = Some dte' ∧
    ∀ c, c ∈ categorical_cols →
         column_encoded float_repr dtr dte dtr' dte' (les !! c) c.
Proof.
  intros Htr Hte. rewrite (encode_features_eq _ _ _ dtr dte) by done.
  intros Hrun.
  apply encode_loop_spec with (dtr := dtr) (dte := dte) in Hrun
      as (dtr' & dte' & les & -> & Htr' & Hte' & Hin & _).
  - by exists dtr', dte', les.
  - apply categorical_cols_NoDup.
  - lia.
  - by rewrite lookup_app_r, Nat.sub_diag by done.
  - rewrite lookup_app_r by lia.
    by replace (S (length h) - length h)%nat with 1%nat by lia.
Qed.

Lemma encode_features_total (train test : nat) (h : heap)
    (dtr dte : DataFrame) :
  h !! train = Some dtr → h !! test = Some dte →
  (∀ c, c ∈ categorical_cols → c ∈ columns dtr ∧ c ∈ columns dte) →
  rows dtr ≠ [] →
  ∃ res h', encode_features float_repr train test h = (Ok res, h').
Proof.
  intros Htr Hte Hcols Hrows.
  rewrite (encode_features_eq _ _ _ dtr dte) by done.
  apply encode_loop_total with (dtr := dtr) (dte := dte);
    [lia| | |done|done].
  - by rewrite lookup_app_r, Nat.sub_diag by done.
  - rewrite lookup_app_r by lia.
    by replace (S (length h) - length h)%nat with 1%nat by lia.
Qed.

Lemma encode_features_footprint (train test : nat) (h : heap) :
  take (length h) (encode_features float_repr train test h).2 = h.
Proof.
  unfold encode_features.
  rewrite state_bind_eq, DataFrame_copy_eq.
  destruct (h !! train) as [dtr|]; [|by rewrite take_ge].
  rewrite state_bind_eq, DataFrame_copy_eq.
  destruct ((h ++ [dtr])%list !! test) as [dte|];
    [|simpl; by rewrite take_app_length].
  destruct (encode_loop _ _ _ _ _ _) as [r h'] eqn:Hrun. simpl.
  apply encode_loop_footprint in Hrun as [Hlen Hother].
  rewrite !length_app in *. simpl in *.
  apply list_eq. intros i.
  destruct (decide (i < length h)%nat) as [Hi|Hi].
  - rewrite lookup_take_lt by done.
    rewrite Hother by lia.
    by rewrite <- app_assoc, lookup_app_l.
  - rewrite lookup_take_ge by lia. symmetry. apply lookup_ge_None. lia.
Qed.

End EncodingLoop.

Section EncodingTheorems.
Variable float_repr : Qc → string.
Local Abbreviation astr := (astype_str float_repr).

(** C1 (as amended). When the training frame has at least one row and both
    frames hold the five categorical columns, [encode_features] returns
    without raising; the encoder of every column is the one fitted on the
    training column, its classes are sorted, and every test value whose string
    is not among them is replaced by the first class and receives code 0. *)
Theorem encode_features_unseen_to_first (train test : nat) (h : heap)
    (dtr dte : DataFrame) :
  h !! train = Some dtr → h !! test = Some dte →
  rows dtr ≠ [] →
  (∀ c, c ∈ categorical_cols → c ∈ columns dtr ∧ c ∈ columns dte) →
  ∃ tr' te' les h' dte',
    encode_features float_repr train test h = (Ok (tr', te', les), h') ∧
    h' !! te' = Some dte' ∧
    ∀ col, col ∈ categorical_cols →
      ∃ le first,
        les !! col = Some le ∧
        le = LabelEncoder_fit (astr <$> (cell_at col <$> rows dtr)) ∧
        StronglySorted str_le (classes_ le) ∧
        head (classes_ le) = Some first ∧
        ∀ i x, (cell_at col <$> rows dte) !! i = Some x →
               astr x ∉ classes_ le →
               fallback le (astr x) = Ok first ∧
               (cell_at col <$> rows dte') !! i = Some (VInt 0).
Proof.
  intros Htr Hte Hrows Hcols.
  destruct (encode_features_total float_repr train test h dtr dte)
    as ([[tr' te'] les] & h' & Hrun); try done.
  destruct (encode_features_spec _ _ _ _ _ _ dtr dte Htr Hte Hrun)
    as (dtr' & dte' & les' & Hres & Htr' & Hte' & Henc).
  simplify_eq. exists (length h), (S (length h)), les', h', dte'.
  split_and!; try done.
  intros col Hcol.
  destruct (Henc col Hcol)
    as (ctr & cte & Hctr & Hcte & _ & _ & Hcodes & Hle).
  apply getitem_Ok in Hctr as [_ ->]. apply getitem_Ok in Hcte as [_ ->].
  apply getitem_Ok in Hcodes as [_ Hcodes].
  set (y := astr <$> (cell_at col <$> rows dtr)) in *.
  assert (∃ first, head (classes_ (LabelEncoder_fit y)) = Some first)
    as [first Hhd].
  { destruct (classes_ (LabelEncoder_fit y)) as [|first cs] eqn:Hcls;
      [|by eexists].
    apply (proj1 (fit_classes_nil y)) in Hcls. unfold y in Hcls.
    by apply fmap_nil_inv, fmap_nil_inv in Hcls. }
  exists (LabelEncoder_fit y), first.
  split_and!; try done.
  { apply fit_classes_sorted. }
  intros i x Hi Hx. split.
  - unfold fallback. rewrite decide_False by done.
    by destruct (classes_ (LabelEncoder_fit y)); simplify_eq/=.
  - rewrite <- Hcodes, !list_lookup_fmap.
    rewrite list_lookup_fmap in Hi. destruct (rows dte !! i); [|done].
    simplify_eq/=. unfold test_code. rewrite decide_False; [done|].
    by rewrite <- fit_classes_elem_of.
Qed.

(** C2. [_encode_column], given two distinct frames, replaces every value of
    the training column by the number of distinct strings of that column that
    sort strictly before it: 0 for the smallest, 1 for the next, and so on.
    The classes of the returned encoder are those strings, sorted, without
    repetition, and the class at position [rank x] is [x]. The codes are a
    function of the training column alone. *)
Theorem encode_column_codes_sorted_order (tr te : nat) (col : string)
    (h h' : heap) (res : nat * nat * LabelEncoder)
    (dtr : DataFrame) (ctr : list cell) :
  tr ≠ te → h !! tr = Some dtr → getitem dtr col = Ok ctr →
  _encode_column float_repr tr te col h = (Ok res, h') →
  ∃ dtr',
    h' !! tr = Some dtr' ∧
    getitem dtr' col
    = Ok ((λ x, VInt (Z.of_nat (rank x (astr <$> ctr)))) <$> (astr <$> ctr)) ∧
    StronglySorted str_le (classes_ res.2) ∧
    NoDup (classes_ res.2) ∧
    (∀ x, x ∈ classes_ res.2 ↔ x ∈ astr <$> ctr) ∧
    (∀ x, x ∈ astr <$> ctr →
          classes_ res.2 !! rank x (astr <$> ctr) = Some x).
Proof.
  intros Hne Htr Hctr Hrun.
  destruct (_encode_column_Ok_inv _ _ _ _ _ _ _ Hne Hrun)
    as (dtr0 & dte & ctr0 & cte & Htr0 & Hte & Hctr0 & Hcte & Hnonempty).
  assert (dtr0 = dtr) as -> by congruence.
  assert (ctr0 = ctr) as -> by congruence.
  destruct (_encode_column_run float_repr tr te col h dtr dte ctr cte)
    as (dtr' & dte' & Hrun' & Hup_tr & _); try done.
  rewrite Hrun' in Hrun. simplify_eq. cbn [snd].
  destruct Hup_tr as (_ & _ & Hg & _).
  exists dtr'. split_and!.
  - rewrite list_lookup_insert_ne by done.
    apply list_lookup_insert_eq. by eapply lookup_lt_Some.
  - done.
  - apply fit_classes_sorted.
  - apply fit_classes_NoDup.
  - apply fit_classes_elem_of.
  - intros x Hx. by apply class_index_Some, class_index_fit.
Qed.

(** C3. After [encode_features] has returned, every value of each of the
    five encoded columns, in the returned train frame and in the returned
    test frame, is an integer [z] with [0 <= z < n], where [n] is the number
    of distinct strings in the training column the caller passed in. *)
Theorem encode_features_codes_in_range (train test : nat) (h h' : heap)
    (tr' te' : nat) (les : gmap string LabelEncoder)
    (dtr dte : DataFrame) (col : string) :
  h !! train = Some dtr → h !! test = Some dte →
  encode_features float_repr train test h = (Ok (tr', te', les), h') →
  col ∈ categorical_cols →
  ∃ ctr dtr' dte' vtr vte,
    getitem dtr col = Ok ctr ∧
    h' !! tr' = Some dtr' ∧ h' !! te' = Some dte' ∧
    getitem dtr' col = Ok vtr ∧ getitem dte' col = Ok vte ∧
    ∀ v, v ∈ vtr ∨ v ∈ vte →
         ∃ z, v = VInt z ∧
              0 ≤ z < Z.of_nat (length (remove_dups (astr <$> ctr))).
Proof.
  intros Htr Hte Hrun Hcol.
  destruct (encode_features_spec _ _ _ _ _ _ dtr dte Htr Hte Hrun)
    as (dtr' & dte' & les' & Hres & Htr' & Hte' & Henc).
  simplify_eq.
  destruct (Henc col Hcol)
    as (ctr & cte & Hctr & Hcte & Hnonempty & Hvtr & Hvte & _).
  exists ctr, dtr', dte'. eexists _, _. split_and!; try done.
  set (y := astr <$> ctr).
  intros v [Hv|Hv].
  - apply list_elem_of_fmap in Hv as (x & -> & Hx).
    eexists. split; [done|]. pose proof (rank_lt x y Hx). lia.
  - apply list_elem_of_fmap in Hv as (x & -> & Hx).
    unfold test_code. case_decide as Hin.
    + eexists. split; [done|]. pose proof (rank_lt x y Hin). lia.
    + eexists. split; [done|].
      destruct Hnonempty as [Hne| ->]; [|by apply elem_of_nil in Hx].
      destruct ctr as [|c ctr]; [done|].
      assert (astr c ∈ remove_dups y) as Hc.
      { apply elem_of_remove_dups. left. }
      destruct (remove_dups y); [by apply elem_of_nil in Hc|]. simpl. lia.
Qed.

(** C10. Whatever [encode_features] returns or raises, every object that
    was in the heap before the call, the two frames passed in by the caller
    among them, is the same after the call. *)
Theorem encode_features_leaves_arguments (train test : nat) (h : heap)
    (l : nat) (df : DataFrame) :
  h !! l = Some df →
  (encode_features float_repr train test h).2 !! l = Some df.
Proof.
  intros Hl. rewrite <- Hl.
  rewrite <- (encode_features_footprint float_repr train test h) at 2.
  symmetry. apply lookup_take_lt. by eapply lookup_lt_Some.
Qed.
End EncodingTheorems.

Lemma encode_features_unseen_to_first_witness :
  ∃ tr' te' les h' dte',
    encode_features ex_float_repr 0 1 [ex_train; ex_test]
    = (Ok (tr', te', les), h') ∧
    h' !! te' = Some dte' ∧
    ∀ col, col ∈ categorical_cols →
      ∃ le first,
        les !! col = Some le ∧
        le = LabelEncoder_fit
               (astype_str ex_float_repr <$> (cell_at col <$> rows ex_train)) ∧
        StronglySorted str_le (classes_ le) ∧
        head (classes_ le) = Some first ∧
        ∀ i x, (cell_at col <$> rows ex_test) !! i = Some x →
               astype_str ex_float_repr x ∉ classes_ le →
               fallback le (astype_str ex_float_repr x) = Ok first ∧
               (cell_at col <$> rows dte') !! i = Some (VInt 0).
Proof.
  apply (encode_features_unseen_to_first ex_float_repr 0 1
           [ex_train; ex_test] ex_train ex_test).
  - reflexivity.
  - reflexivity.
  - discriminate.
  - intros c Hc. split; exact Hc.
Defined.

(** With a training frame that has the columns but no row, the value
    "other" of the test column [Sex] is not among the fitted categories, and
    the call raises [IndexError]. *)
Lemma encode_features_empty_train_raises :
  getitem ex_test "Sex" = Ok [VStr "other"] ∧
  ("other" ∉ classes_ (LabelEncoder_fit
                         (astype_str ex_float_repr <$>
                            (cell_at "Sex" <$> rows ex_train_no_rows)))) ∧
  ((encode_features ex_float_repr 0 1 [ex_train_no_rows; ex_test]).1
   = Raise (IndexError "index 0 is out of bounds for axis 0 with size 0")).
Proof.
  split_and!.
  - by vm_compute.
  - apply not_elem_of_nil.
  - by vm_compute.
Qed.

Lemma encode_column_codes_sorted_order_witness :
  ∃ res h' dtr',
    _encode_column ex_float_repr 0 1 "Sex" [ex_train; ex_test]
    = (Ok res, h') ∧
    h' !! 0%nat = Some dtr' ∧
    getitem dtr' "Sex" = Ok [VInt 1; VInt 0] ∧
    classes_ res.2 = ["female"; "male"].
Proof.
  destruct (_encode_column ex_float_repr 0 1 "Sex" [ex_train; ex_test])
    as [[res|e] h'] eqn:Hrun; [|by vm_compute in Hrun].
  destruct (encode_column_codes_sorted_order ex_float_repr 0 1 "Sex"
              [ex_train; ex_test] h' res ex_train
              [VStr "male"; VStr "female"])
    as (dtr' & Hlookup & Hcodes & _); [lia|reflexivity|reflexivity|exact Hrun|].
  exists res, h', dtr'. split_and!; [done|done|exact Hcodes|].
  vm_compute in Hrun. by simplify_eq.
Defined.

Lemma encode_features_codes_in_range_witness :
  ∃ tr' te' les h' vtr vte dtr' dte',
    encode_features ex_float_repr 0 1 [ex_train; ex_test]
    = (Ok (tr', te', les), h') ∧
    h' !! tr' = Some dtr' ∧ h' !! te' = Some dte' ∧
    getitem dtr' "Sex" = Ok vtr ∧ getitem dte' "Sex" = Ok vte ∧
    ∀ v, v ∈ vtr ∨ v ∈ vte → ∃ z, v = VInt z ∧ 0 ≤ z < 2.
Proof.
  destruct (encode_features_total ex_float_repr 0 1 [ex_train; ex_test]
              ex_train ex_test)
    as ([[tr' te'] les] & h' & Hrun).
  { reflexivity. }
  { reflexivity. }
  { intros c Hc. split; exact Hc. }
  { discriminate. }
  destruct (encode_features_codes_in_range ex_float_repr 0 1
              [ex_train; ex_test] h' tr' te' les ex_train ex_test "Sex")
    as (ctr & dtr' & dte' & vtr & vte & Hctr & Htr & Hte & Hvtr & Hvte & Hrange).
  { reflexivity. }
  { reflexivity. }
  { exact Hrun. }
  { left. }
  exists tr', te', les, h', vtr, vte, dtr', dte'.
  split_and!; [exact Hrun|exact Htr|exact Hte|exact Hvtr|exact Hvte|].
  assert (ctr = [VStr "male"; VStr "female"]) as ->.
  { assert (Ok ctr = Ok [VStr "male"; VStr "female"]) as Heq;
      [by rewrite <- Hctr|by injection Heq]. }
  assert (length (remove_dups (astype_str ex_float_repr
                                 <$> [VStr "male"; VStr "female"])) = 2%nat)
    as Hn by reflexivity.
  rewrite Hn in Hrange. exact Hrange.
Defined.

Lemma encode_features_leaves_arguments_witness :
  (encode_features ex_float_repr 0 1 [ex_train; ex_test]).2 !! 0%nat
  = Some ex_train ∧
  (encode_features ex_float_repr 0 1 [ex_train; ex_test]).2 !! 1%nat
  = Some ex_test.
Proof.
  split.
  - apply (encode_features_leaves_arguments ex_float_repr 0 1
             [ex_train; ex_test] 0 ex_train).
    reflexivity.
  - apply (encode_features_leaves_arguments ex_float_repr 0 1
             [ex_train; ex_test] 1 ex_test).
    reflexivity.
Defined.

(** [_encode_column] itself assigns into the frames it is given. *)
Lemma encode_column_writes_in_place :
  (_encode_column ex_float_repr 0 1 "Sex" [ex_train; ex_test]).2 !! 0%nat
  ≠ Some ex_train.
Proof. by vm_compute. Qed.

(** ** Distinct elements in order of first appearance *)

Lemma elem_of_unique_first {A} `{EqDecision A} (l : list A) (x : A) :
  x ∈ unique_first l ↔ x ∈ l.
Proof.
  induction l as [|a l IH]; [done|]. simpl.
  rewrite !elem_of_cons, list_elem_of_filter, IH.
  destruct (decide (x = a)); tauto.
Qed.

Lemma length_unique_first {A} `{EqDecision A} (l : list A) :
  (length (unique_first l) ≤ length l)%nat.
Proof.
  induction l as [|a l IH]; [done|]. simpl.
  pose proof (length_filter (λ y, y ≠ a) (unique_first l)). lia.
Qed.

Lemma unique_first_NoDup {A} `{EqDecision A} (l : list A) :
  NoDup l → unique_first l = l.
Proof.
  induction 1 as [|a l Hnotin Hnd IH]; [done|]. simpl. rewrite IH.
  f_equal. apply filter_all. intros y Hy ->. done.
Qed.

Lemma unique_first_length_NoDup {A} `{EqDecision A} (l : list A) :
  length (unique_first l) = length l → NoDup l.
Proof.
  induction l as [|a l IH]; [constructor|]. simpl. intros Hlen.
  pose proof (length_filter (λ y, y ≠ a) (unique_first l)) as Hf.
  pose proof (length_unique_first l) as Hu.
  constructor.
  - intros Ha. apply elem_of_unique_first in Ha.
    pose proof (length_filter_lt (λ y, y ≠ a) (unique_first l) a Ha) as Hlt.
    assert (¬ a ≠ a) as Hnn by (intros Hn; by apply Hn).
    specialize (Hlt Hnn). lia.
  - apply IH. lia.
Qed.

(** ** Filling missing values *)

Lemma cell_at_fill_row_eq (k : string) (v : cell) (r : gmap string cell) :
  cell_at k (fill_row k v r) = fill_cell v (cell_at k r).
Proof.
  unfold fill_row, fill_cell. case_decide; [|done].
  unfold cell_at. by rewrite lookup_insert_eq.
Qed.

Lemma cell_at_fill_row_ne (k k' : string) (v : cell) (r : gmap string cell) :
  k ≠ k' → cell_at k (fill_row k' v r) = cell_at k r.
Proof.
  intros Hne. unfold fill_row. case_decide; [|done].
  unfold cell_at. by rewrite lookup_insert_ne.
Qed.

Lemma fill_row_idem (k : string) (v v' : cell) (r : gmap string cell) :
  (v = VNaN → v' = VNaN) →
  fill_row k v' (fill_row k v r) = fill_row k v r.
Proof.
  intros Hv. unfold fill_row at 1. rewrite cell_at_fill_row_eq.
  unfold fill_cell, fill_row. repeat case_decide; simplify_eq; try done.
  rewrite (Hv eq_refl). by rewrite insert_insert_eq.
Qed.

Lemma fill_row_comm (k k' : string) (v v' : cell) (r : gmap string cell) :
  k ≠ k' →
  fill_row k v (fill_row k' v' r) = fill_row k' v' (fill_row k v r).
Proof.
  intros Hne. unfold fill_row at 1 3.
  rewrite !cell_at_fill_row_ne by done.
  unfold fill_row. repeat case_decide; try done.
  by apply insert_insert_ne.
Qed.

Lemma lookup_fill_row_ne (k k' : string) (v : cell) (r : gmap string cell) :
  k ≠ k' → fill_row k' v r !! k = r !! k.
Proof.
  intros Hne. unfold fill_row. case_decide; [|done].
  by rewrite lookup_insert_ne.
Qed.

(** ** Median and mode *)

Lemma numeric_values_cons (c : cell) (col : list cell) :
  numeric_values (c :: col) =
  match cell_num c with
  | None => Raise (TypeError "could not convert string to numeric")
  | Some o =>
      numeric_values col ≫= λ qs,
        Ok (match o with Some q => q :: qs | None => qs end)
  end.
Proof. done. Qed.

Lemma result_bind_Ok {A B} (r : result A) (k : A → result B) (b : B) :
  r ≫= k = Ok b ↔ ∃ a, r = Ok a ∧ k a = Ok b.
Proof.
  destruct r as [a|e]; simpl.
  - split; [by exists a|by intros (a' & [= <-] & Hk)].
  - split; [done|by intros (a' & Ha & _)].
Qed.

Section CleaningFacts.
Variable float_of_str : string → option (option Qc).

Lemma float_values_cons (c : cell) (col : list cell) :
  float_values float_of_str (c :: col) =
  match cell_float float_of_str c with
  | None => Raise (TypeError "could not convert string to float")
  | Some o =>
      float_values float_of_str col ≫= λ qs,
        Ok (match o with Some q => q :: qs | None => qs end)
  end.
Proof. done. Qed.

Lemma fill_cell_NaN (col : list cell) : fill_cell VNaN <$> col = col.
Proof.
  induction col as [|c col IH]; [done|]. rewrite fmap_cons, IH. f_equal.
  unfold fill_cell. by case_decide.
Qed.

Lemma existsb_fill_cell (P : cell → bool) (v : cell) (col : list cell) :
  P v = false → P VNaN = false →
  existsb P (fill_cell v <$> col) = existsb P col.
Proof.
  intros Hv Hnan. induction col as [|c col IH]; [done|].
  rewrite fmap_cons. cbn [existsb]. rewrite IH. f_equal.
  unfold fill_cell. case_decide as Hc; [|done]. by rewrite Hc, Hv, Hnan.
Qed.

Lemma float_values_fill (q : Qc) (col : list cell) (qs : list Qc) :
  float_values float_of_str col = Ok qs →
  ∃ qs', float_values float_of_str (fill_cell (VFloat q) <$> col) = Ok qs'.
Proof.
  revert qs. induction col as [|c col IH]; intros qs Hcol.
  - by exists [].
  - rewrite float_values_cons in Hcol.
    destruct (cell_float float_of_str c) as [o|] eqn:Hc; [|done].
    destruct (float_values float_of_str col) as [qs0|] eqn:Hcol0; [|done].
    destruct (IH qs0 eq_refl) as (qs0' & Hqs0').
    rewrite fmap_cons, float_values_cons, Hqs0'.
    unfold fill_cell at 1. case_decide as Hnan.
    + cbn. eauto.
    + rewrite Hc. cbn. eauto.
Qed.

Lemma Series_median_value (col : list cell) (m : cell) :
  Series_median float_of_str col = Ok m → m = VNaN ∨ ∃ q, m = VFloat q.
Proof.
  unfold Series_median. case_match; [done|].
  intros (qs & _ & Hm)%result_bind_Ok. destruct qs; simplify_eq; eauto.
Qed.

Lemma Series_median_fill (col : list cell) (m : cell) :
  Series_median float_of_str col = Ok m →
  ∃ m', Series_median float_of_str (fill_cell m <$> col) = Ok m' ∧
        (m = VNaN → m' = VNaN).
Proof.
  intros Hm. destruct (Series_median_value col m Hm) as [->|[q ->]].
  - rewrite fill_cell_NaN. eauto.
  - unfold Series_median in *. rewrite !existsb_fill_cell by done.
    destruct (existsb is_str col && negb (existsb is_int col)); [done|].
    apply result_bind_Ok in Hm as (qs & Hqs & _).
    destruct (float_values_fill q col qs Hqs) as (qs' & ->).
    cbn. destruct qs'; (eexists; split; [reflexivity|done]).
Qed.

Lemma foldr_max_attained (f : cell → nat) (keys : list cell) :
  keys ≠ [] → ∃ k, k ∈ keys ∧ f k = foldr Nat.max 0%nat (f <$> keys).
Proof.
  induction keys as [|a keys IH]; [done|]. intros _.
  destruct keys as [|b keys].
  - exists a. split; [left|]. simpl. lia.
  - destruct IH as (k & Hk & Hmax); [done|].
    rewrite fmap_cons. cbn [foldr].
    destruct (Nat.max_spec (f a) (foldr Nat.max 0%nat (f <$> b :: keys)))
      as [[_ ->]|[_ ->]].
    + exists k. split; [by right|done].
    + exists a. split; [left|done].
Qed.

Lemma foldr_max_upper (f : cell → nat) (keys : list cell) (k : cell) :
  k ∈ keys → (f k ≤ foldr Nat.max 0%nat (f <$> keys))%nat.
Proof.
  induction 1 as [|a keys Hk IH]; rewrite fmap_cons; cbn [foldr]; lia.
Qed.

Lemma np_sort_modes_Permutation (l : list cell) : np_sort_modes l ≡ₚ l.
Proof.
  unfold np_sort_modes.
  repeat case_match; by rewrite ?merge_sort_Permutation.
Qed.

Lemma count_of_filter_ne (x : cell) (col : list cell) :
  x ≠ VNaN → count_of x (filter (λ c, c ≠ VNaN) col) = count_of x col.
Proof.
  intros Hx. unfold count_of. f_equal.
  induction col as [|c col IH]; [done|].
  rewrite !filter_cons. repeat case_decide; simplify_eq; try done.
  - rewrite filter_cons_True by done. by f_equal.
  - by rewrite filter_cons_False.
Qed.

(** The modes are non-missing values of the column of maximal count. *)
Lemma Series_mode_elem_of (col : list cell) (m : cell) :
  m ∈ Series_mode col →
  m ≠ VNaN ∧ m ∈ col ∧
  ∀ c, c ∈ col → c ≠ VNaN → (count_of c col ≤ count_of m col)%nat.
Proof.
  unfold Series_mode. rewrite np_sort_modes_Permutation.
  intros [Hbest Hm]%list_elem_of_filter.
  apply elem_of_unique_first, list_elem_of_filter in Hm as [Hnan Hm].
  split_and!; try done. intros c Hc Hcn.
  rewrite <- (count_of_filter_ne m col), <- (count_of_filter_ne c col) by done.
  rewrite Hbest.
  apply (foldr_max_upper (λ k, count_of k (filter (λ c, c ≠ VNaN) col))).
  by apply elem_of_unique_first, list_elem_of_filter.
Qed.

Lemma Series_mode_nonempty (col : list cell) (c : cell) :
  c ∈ col → c ≠ VNaN → Series_mode col ≠ [].
Proof.
  intros Hc Hcn. unfold Series_mode. intros Hnil.
  set (vals := filter (λ c, c ≠ VNaN) col) in *.
  assert (unique_first vals ≠ []) as Hkeys.
  { intros Hk. assert (c ∈ unique_first vals) as Hin.
    - by apply elem_of_unique_first, list_elem_of_filter.
    - rewrite Hk in Hin. by apply elem_of_nil in Hin. }
  destruct (foldr_max_attained (λ k, count_of k vals) _ Hkeys)
    as (k & Hk & Hmax).
  assert (k ∈ np_sort_modes
            (filter (λ k, count_of k vals
                          = foldr Nat.max 0%nat
                              ((λ k, count_of k vals) <$> unique_first vals))
               (unique_first vals))) as Hin.
  { rewrite np_sort_modes_Permutation. by apply list_elem_of_filter. }
  rewrite Hnil in Hin. by apply elem_of_nil in Hin.
Qed.

(** ** clean_data *)

Lemma clean_data_Ok (df df' : DataFrame) :
  clean_data float_of_str df = Ok df' ↔
  ∃ age embarked fare,
    "Age" ∈ columns (deduplicated df) ∧
    "Embarked" ∈ columns (deduplicated df) ∧
    "Fare" ∈ columns (deduplicated df) ∧
    Series_median float_of_str (cell_at "Age" <$> rows (deduplicated df)) = Ok age ∧
    iloc0 (Series_mode (cell_at "Embarked" <$> rows (deduplicated df)))
    = Ok embarked ∧
    Series_median float_of_str (cell_at "Fare" <$> rows (deduplicated df)) = Ok fare ∧
    df' = {| columns := columns (deduplicated df);
             rows := fill3 age embarked fare <$> rows (deduplicated df) |}.
Proof.
  unfold clean_data. fold (deduplicated df).
  set (d2 := deduplicated df).
  assert (∀ age embarked fare,
            "Age" ∈ columns d2 → "Embarked" ∈ columns d2 →
            "Fare" ∈ columns d2 →
            fillna [("Age", age); ("Embarked", embarked); ("Fare", fare)] d2
            = {| columns := columns d2;
                 rows := fill3 age embarked fare <$> rows d2 |}) as Hfill.
  { intros age embarked fare H1 H2 H3. unfold fillna, fill3.
    cbn [foldl fst snd]. rewrite (decide_True _ _ H1). cbn [columns rows].
    rewrite (decide_True _ _ H2). cbn [columns rows].
    rewrite (decide_True _ _ H3). cbn [columns rows].
    by rewrite <- !list_fmap_compose. }
  split.
  - intros (age & (ca & Ha & Hage)%result_bind_Ok & Hrest)%result_bind_Ok.
    apply result_bind_Ok in Hrest
        as (emb & (ce & He & Hemb)%result_bind_Ok & Hrest).
    apply result_bind_Ok in Hrest
        as (fare & (cf & Hf & Hfare)%result_bind_Ok & Hres).
    apply getitem_Ok in Ha as [Ha ->]. apply getitem_Ok in He as [He ->].
    apply getitem_Ok in Hf as [Hf ->].
    exists age, emb, fare. rewrite Hfill in Hres by done.
    split_and!; try done. by simplify_eq.
  - intros (age & emb & fare & Ha & He & Hf & Hage & Hemb & Hfare & ->).
    unfold getitem. rewrite !decide_True by done.
    cbn [mbind result_bind]. rewrite Hage. cbn [mbind result_bind].
    rewrite Hemb. cbn [mbind result_bind].
    rewrite Hfare. cbn [mbind result_bind].
    by rewrite Hfill.
Qed.

Lemma fill3_idem (a e f a' e' f' : cell) (r : gmap string cell) :
  (a = VNaN → a' = VNaN) → (e = VNaN → e' = VNaN) → (f = VNaN → f' = VNaN) →
  fill3 a' e' f' (fill3 a e f r) = fill3 a e f r.
Proof.
  intros Ha He Hf. unfold fill3.
  rewrite (fill_row_comm "Age" "Fare"), (fill_row_comm "Age" "Embarked")
    by done.
  rewrite (fill_row_idem "Age") by done.
  rewrite (fill_row_comm "Embarked" "Fare") by done.
  rewrite (fill_row_idem "Embarked") by done.
  by rewrite (fill_row_idem "Fare") by done.
Qed.

Lemma cell_at_fill3 (a e f : cell) (r : gmap string cell) :
  cell_at "Age" (fill3 a e f r) = fill_cell a (cell_at "Age" r) ∧
  cell_at "Embarked" (fill3 a e f r) = fill_cell e (cell_at "Embarked" r) ∧
  cell_at "Fare" (fill3 a e f r) = fill_cell f (cell_at "Fare" r).
Proof.
  unfold fill3.
  by repeat (rewrite cell_at_fill_row_eq
             || rewrite cell_at_fill_row_ne by done).
Qed.

Lemma deduplicated_rows_no_Cabin (df : DataFrame) (r : gmap string cell) :
  r ∈ rows (deduplicated df) → r !! "Cabin" = None.
Proof.
  unfold deduplicated, drop_columns_ignore. simpl.
  intros (r0 & -> & _)%list_elem_of_fmap. apply lookup_delete_eq.
Qed.

Lemma deduplicated_columns_no_Cabin (df : DataFrame) :
  "Cabin" ∉ columns (deduplicated df).
Proof.
  unfold deduplicated, drop_columns_ignore. simpl.
  intros [Hc _]%list_elem_of_filter. apply Hc. left.
Qed.

Lemma DataFrame_eta (df : DataFrame) :
  {| columns := columns df; rows := rows df |} = df.
Proof. by destruct df. Qed.

(** A cleaned frame without duplicate rows is its own deduplicated frame. *)
Lemma deduplicated_cleaned (df : DataFrame) (a e f : cell) :
  let df' := {| columns := columns (deduplicated df);
                rows := fill3 a e f <$> rows (deduplicated df) |} in
  NoDup (rows df') → deduplicated df' = df'.
Proof.
  intros df' Hnd. unfold deduplicated at 1, drop_duplicates.
  assert ((if df_empty df' then df'
           else {| columns := columns df';
                   rows := unique_first (rows df') |}) = df') as ->.
  { destruct (df_empty df'); [done|].
    rewrite unique_first_NoDup by done. apply DataFrame_eta. }
  unfold drop_columns_ignore, df'. simpl. f_equal.
  - apply filter_all. intros c Hc Hcabin.
    apply (deduplicated_columns_no_Cabin df).
    apply list_elem_of_singleton in Hcabin. by subst.
  - rewrite <- list_fmap_compose.
    apply list_fmap_ext. intros i r Hr. simpl.
    apply delete_id. unfold fill3.
    rewrite !(lookup_fill_row_ne "Cabin") by done.
    eapply deduplicated_rows_no_Cabin, list_elem_of_lookup_2, Hr.
Qed.

Lemma iloc0_Ok (s : list cell) (m : cell) :
  iloc0 s = Ok m ↔ head s = Some m.
Proof. destruct s; simpl; naive_solver. Qed.

Lemma fill_cell_not_NaN (v c : cell) : v ≠ VNaN → fill_cell v c ≠ VNaN.
Proof. unfold fill_cell. by case_decide. Qed.

(** C4 (as amended). Cleaning a cleaned frame again gives the same frame
    exactly when the cleaned frame has no duplicate rows. *)
Theorem clean_data_idempotent_iff_no_duplicates (df df' : DataFrame) :
  clean_data float_of_str df = Ok df' →
  (clean_data float_of_str df' = Ok df' ↔ NoDup (rows df')).
Proof.
  intros Hclean.
  pose proof (proj1 (clean_data_Ok df df') Hclean)
    as (a & e & f & Ha & He & Hf & Hage & Hemb & Hfare & Hdf').
  split.
  - intros Hagain.
    apply clean_data_Ok in Hagain
        as (a' & e' & f' & Ha' & _ & _ & _ & _ & _ & Hdf'').
    assert (length (rows (deduplicated df')) = length (rows df')) as Hlen.
    { apply (f_equal (λ d, length (rows d))) in Hdf''.
      cbn [rows] in Hdf''. by rewrite length_fmap in Hdf''. }
    unfold deduplicated, drop_columns_ignore, drop_duplicates in Hlen.
    destruct (df_empty df') eqn:Hempty.
    + apply orb_prop in Hempty as [Hempty|Hempty];
        apply bool_decide_eq_true in Hempty.
      * rewrite Hdf' in Hempty. cbn [columns] in Hempty.
        rewrite Hempty in Ha. by apply elem_of_nil in Ha.
      * rewrite Hempty. constructor.
    + simpl in Hlen. rewrite length_fmap in Hlen.
      by apply unique_first_length_NoDup.
  - intros Hnd. apply clean_data_Ok. rewrite Hdf' in Hnd |- *.
    rewrite deduplicated_cleaned by done. cbn [columns rows].
    set (d2 := deduplicated df) in *.
    pose proof (λ r, proj1 (cell_at_fill3 a e f r)) as Hca.
    pose proof (λ r, proj1 (proj2 (cell_at_fill3 a e f r))) as Hce.
    pose proof (λ r, proj2 (proj2 (cell_at_fill3 a e f r))) as Hcf.
    assert (∀ k v, (∀ r, cell_at k (fill3 a e f r) = fill_cell v (cell_at k r)) →
              cell_at k <$> (fill3 a e f <$> rows d2)
              = fill_cell v <$> (cell_at k <$> rows d2)) as Hcol.
    { intros k v Hk. rewrite <- !list_fmap_compose.
      apply list_fmap_ext. intros i r _. apply Hk. }
    rewrite (Hcol _ _ Hca), (Hcol _ _ Hce), (Hcol _ _ Hcf).
    destruct (Series_median_fill _ _ Hage) as (a' & Hage' & Hna).
    destruct (Series_median_fill _ _ Hfare) as (f' & Hfare' & Hnf).
    apply iloc0_Ok in Hemb.
    assert (e ∈ Series_mode (cell_at "Embarked" <$> rows d2)) as He_in.
    { destruct (Series_mode _); simplify_eq/=. left. }
    apply Series_mode_elem_of in He_in as (He_nan & He_col & _).
    destruct (Series_mode (fill_cell e <$> (cell_at "Embarked" <$> rows d2)))
      as [|e' ms] eqn:Hmode'.
    { exfalso. eapply (Series_mode_nonempty _ (fill_cell e e)); [| |done].
      - apply list_elem_of_fmap. by exists e.
      - by apply fill_cell_not_NaN. }
    exists a', e', f'. split_and!; try done.
    f_equal. rewrite <- list_fmap_compose.
    apply list_fmap_ext. intros i r _. simpl.
    symmetry. by apply fill3_idem.
Qed.

(** ** The fill value of Embarked *)

#[global] Instance str_key_le_trans : Transitive str_key_le.
Proof. intros a b c. unfold str_key_le. apply (transitivity (R := str_le)). Qed.

#[global] Instance str_key_le_total : Total str_key_le.
Proof. intros a b. unfold str_key_le. apply (total str_le). Qed.

Lemma StronglySorted_head {A} (R : relation A) `{!Reflexive R}
    (l : list A) (x y : A) :
  StronglySorted R l → head l = Some x → y ∈ l → R x y.
Proof.
  intros Hs Hhd Hy. destruct Hs as [|a l Hs Ha]; simplify_eq/=.
  apply elem_of_cons in Hy as [->|Hy]; [done|].
  rewrite Forall_forall in Ha. by apply Ha.
Qed.

#[global] Instance str_key_le_refl : Reflexive str_key_le.
Proof. intros a. unfold str_key_le. done. Qed.

Lemma Series_mode_tie (col : list cell) (m : cell) :
  head (Series_mode col) = Some m →
  (∀ c, c ∈ col → c ≠ VNaN → count_of c col = count_of m col →
        is_str c = true) →
  ∀ c, c ∈ col → c ≠ VNaN → count_of c col = count_of m col →
       str_le (str_key m) (str_key c).
Proof.
  intros Hhd Hstr c Hc Hcn Hcount.
  assert (m ∈ Series_mode col) as Hm.
  { destruct (Series_mode col); simplify_eq/=. left. }
  pose proof (Series_mode_elem_of col m Hm) as (Hmn & Hmcol & _).
  unfold Series_mode in *.
  set (vals := filter (λ c, c ≠ VNaN) col) in *.
  set (best := foldr Nat.max 0%nat
                 ((λ k, count_of k vals) <$> unique_first vals)) in *.
  set (modes := filter (λ k, count_of k vals = best) (unique_first vals)) in *.
  assert (m ∈ modes) as Hm_modes by (by rewrite <- np_sort_modes_Permutation).
  assert (c ∈ modes) as Hc_modes.
  { apply list_elem_of_filter in Hm_modes as [Hbest _].
    apply list_elem_of_filter. split.
    - unfold vals in *. rewrite count_of_filter_ne in * by done. congruence.
    - by apply elem_of_unique_first, list_elem_of_filter. }
  assert (forallb is_str modes = true) as Hall.
  { apply Is_true_true, forallb_True, Forall_forall. intros k Hk.
    apply Is_true_true.
    apply list_elem_of_filter in Hk as [Hkbest Hk].
    apply elem_of_unique_first, list_elem_of_filter in Hk as [Hkn Hk].
    apply list_elem_of_filter in Hm_modes as [Hbest _].
    apply Hstr; [done|done|].
    unfold vals in *. rewrite !count_of_filter_ne in * by done. congruence. }
  unfold np_sort_modes in Hhd. rewrite Hall in Hhd.
  eapply (StronglySorted_head str_key_le); [|done|].
  - apply (StronglySorted_merge_sort str_key_le).
  - by rewrite merge_sort_Permutation.
Qed.

(** C5 (as amended). [clean_data] fills the missing values of [Embarked]
    with one non-missing value [m] of that column, computed on the frame after
    deduplication and after dropping [Cabin]; no non-missing value occurs more
    often than [m], and when the values that occur as often as [m] are
    strings, [m] is the smallest of them in sorted order, whatever else the
    column holds. *)
Theorem clean_data_embarked_mode (df df' : DataFrame) :
  clean_data float_of_str df = Ok df' →
  ∃ col m,
    getitem (deduplicated df) "Embarked" = Ok col ∧
    m ≠ VNaN ∧ m ∈ col ∧
    (∀ c, c ∈ col → c ≠ VNaN → (count_of c col ≤ count_of m col)%nat) ∧
    ((∀ c, c ∈ col → c ≠ VNaN → count_of c col = count_of m col →
           is_str c = true) →
     ∀ c, c ∈ col → c ≠ VNaN → count_of c col = count_of m col →
          str_le (str_key m) (str_key c)) ∧
    getitem df' "Embarked"
    = Ok ((λ c, if decide (c = VNaN) then m else c) <$> col).
Proof.
  intros Hclean.
  apply clean_data_Ok in Hclean
      as (a & e & f & Ha & He & Hf & Hage & Hemb & Hfare & ->).
  set (d2 := deduplicated df) in *.
  exists (cell_at "Embarked" <$> rows d2), e.
  apply iloc0_Ok in Hemb.
  assert (e ∈ Series_mode (cell_at "Embarked" <$> rows d2)) as He_in.
  { destruct (Series_mode _); simplify_eq/=. left. }
  apply Series_mode_elem_of in He_in as (He_nan & He_col & Hmax).
  split_and!; try done.
  - by apply getitem_Ok.
  - by apply Series_mode_tie.
  - apply getitem_Ok. split; [done|]. cbn [rows].
    rewrite <- !list_fmap_compose. apply list_fmap_ext. intros i r _. simpl.
    by rewrite (proj1 (proj2 (cell_at_fill3 a e f r))).
Qed.

End CleaningFacts.

Lemma clean_data_idempotent_iff_no_duplicates_witness :
  ∃ df', clean_data ex_float_of_str ex_embarked_tie = Ok df' ∧
         (clean_data ex_float_of_str df' = Ok df' ↔ NoDup (rows df')).
Proof.
  destruct (clean_data ex_float_of_str ex_embarked_tie) as [df'|] eqn:Hclean;
    [|by vm_compute in Hclean].
  exists df'. split; [done|].
  apply (clean_data_idempotent_iff_no_duplicates ex_float_of_str
           ex_embarked_tie df').
  exact Hclean.
Defined.

(** Two rows that differ only in a missing [Age] are equal after the
    imputation; cleaning the cleaned frame again drops one of them. *)
Lemma clean_data_not_idempotent :
  ∃ df', clean_data ex_float_of_str ex_age_gap = Ok df' ∧ clean_data ex_float_of_str df' ≠ Ok df'.
Proof.
  eexists. split; [vm_compute; reflexivity|]. intros Hagain.
  apply (f_equal (λ r, match r with
                       | Ok d => length (rows d)
                       | Raise _ => 0%nat
                       end)) in Hagain.
  by vm_compute in Hagain.
Qed.

Lemma clean_data_embarked_mode_witness :
  ∃ df' m,
    clean_data ex_float_of_str ex_embarked_mixed = Ok df' ∧
    m ∈ [VStr "S"; VStr "S"; VStr "C"; VStr "C"; VInt 1; VNaN] ∧
    str_le (str_key m) "C" ∧
    getitem df' "Embarked"
    = Ok ((λ c, if decide (c = VNaN) then m else c)
            <$> [VStr "S"; VStr "S"; VStr "C"; VStr "C"; VInt 1; VNaN]).
Proof.
  assert (∃ d, clean_data ex_float_of_str ex_embarked_mixed = Ok d)
    as [df' Hclean].
  { eexists. vm_compute. reflexivity. }
  destruct (clean_data_embarked_mode ex_float_of_str ex_embarked_mixed df'
              Hclean) as (col & m & Hcol & Hmn & Hm & Hmax & Htie & Hfill).
  assert (col = [VStr "S"; VStr "S"; VStr "C"; VStr "C"; VInt 1; VNaN])
    as ->.
  { assert (Ok col
            = Ok [VStr "S"; VStr "S"; VStr "C"; VStr "C"; VInt 1; VNaN])
      as Heq; [by rewrite <- Hcol|by injection Heq]. }
  exists df', m. split_and!; [exact Hclean|exact Hm| |exact Hfill].
  assert (2 ≤ count_of m
                [VStr "S"; VStr "S"; VStr "C"; VStr "C"; VInt 1; VNaN])%nat
    as Hcount.
  { apply (Hmax (VStr "S")); [left|discriminate]. }
  assert (count_of m [VStr "S"; VStr "S"; VStr "C"; VStr "C"; VInt 1; VNaN]
          = 2%nat) as Hm2.
  { clear -Hm Hmn Hcount.
    repeat (apply elem_of_cons in Hm as [->|Hm];
            [first [reflexivity|done|vm_compute in Hcount; lia]|]).
    by apply elem_of_nil in Hm. }
  assert (∀ c, c ∈ [VStr "S"; VStr "S"; VStr "C"; VStr "C"; VInt 1; VNaN] →
               c ≠ VNaN →
               count_of c [VStr "S"; VStr "S"; VStr "C"; VStr "C"; VInt 1; VNaN]
               = count_of m
                   [VStr "S"; VStr "S"; VStr "C"; VStr "C"; VInt 1; VNaN] →
               is_str c = true) as Hstr.
  { intros c Hc Hcn Hc2. rewrite Hm2 in Hc2. clear -Hc Hcn Hc2.
    repeat (apply elem_of_cons in Hc as [->|Hc];
            [first [reflexivity|done|vm_compute in Hc2; lia]|]).
    by apply elem_of_nil in Hc. }
  apply (Htie Hstr (VStr "C")); [do 2 right; left|discriminate|].
  rewrite Hm2. reflexivity.
Defined.

(** With "S" met first and "C" second, each once, the missing value is
    filled with "C". *)
Lemma clean_data_embarked_tie_not_first :
  getitem (deduplicated ex_embarked_tie) "Embarked"
  = Ok [VStr "S"; VStr "C"; VNaN] ∧
  (clean_data ex_float_of_str ex_embarked_tie ≫= λ df', getitem df' "Embarked")
  = Ok [VStr "S"; VStr "C"; VStr "C"].
Proof. split; by vm_compute. Qed.

(** ** Paths and directories *)


Lemma path_parent_snoc (l : list string) (c : string) :
  path_parent (l ++ [c]) = l.
Proof. apply removelast_last. Qed.


Lemma path_parent_prefix (p : list string) : path_parent p `prefix_of` p.
Proof.
  destruct p as [|c p _] using rev_ind; [done|].
  rewrite path_parent_snoc. by apply prefix_app_r.
Qed.



Lemma entry_None (fs : FS) (p : list string) :
  entry fs p = None → p ≠ [] ∧ fs !! p = None.
Proof. by destruct p. Qed.




Lemma plain_app (p q : list string) : plain (p ++ q) ↔ plain p ∧ plain q.
Proof. apply Forall_app. Qed.

Lemma plain_prefix (p q : list string) : plain p → q `prefix_of` p → plain q.
Proof. intros Hp [k ->]. by apply plain_app in Hp as [? _]. Qed.

Lemma plain_parent (p : list string) : plain p → plain (path_parent p).
Proof. intros Hp. eapply plain_prefix, path_parent_prefix. done. Qed.

Lemma plain_has_nul (p : list string) : plain p → has_nul p = false.
Proof.
  induction 1 as [|c p [_ Hc] _ IH]; [done|].
  unfold has_nul in *. cbn [existsb]. by rewrite Hc, IH.
Qed.

Lemma resolve_from_cons (fs : FS) (cur : list string) (c : string)
    (p : list string) :
  resolve_from fs cur (c :: p) =
  let next := if decide (c = "..") then path_parent cur else cur ++ [c] in
  match p with
  | [] => inr next
  | _ =>
      match entry fs next with
      | Some Dir => resolve_from fs next p
      | Some (File _) => inl ENOTDIR
      | None => inl ENOENT
      end
  end.
Proof. by destruct p. Qed.

(** A plain path names the place of its own components, and the walk to it
    passes through the directories above it. *)
Lemma resolve_from_plain (fs : FS) (cur p q : list string) :
  plain p → resolve_from fs cur p = inr q →
  q = cur ++ p ∧
  ∀ l, l `prefix_of` p → l ≠ [] → l ≠ p → entry fs (cur ++ l) = Some Dir.
Proof.
  intros Hp. revert cur.
  induction Hp as [|c p [Hc _] Hp IH]; intros cur Hres.
  - injection Hres as <-. rewrite app_nil_r. split; [done|].
    intros l Hl%prefix_nil_inv. done.
  - rewrite resolve_from_cons, decide_False in Hres by done.
    cbv zeta in Hres. destruct p as [|c' p'].
    + injection Hres as <-. split; [done|].
      intros l [k Hk] Hl1 Hl2. destruct l as [|a l]; [done|].
      injection Hk as Ha Hk. subst a. by destruct l.
    + destruct (entry fs (cur ++ [c])) as [[|s]|] eqn:Hnext; try done.
      destruct (IH (cur ++ [c]) Hres) as [-> Hdirs].
      split; [by rewrite <- app_assoc|].
      intros l [k Hk] Hl1 Hl2. destruct l as [|a l]; [done|].
      injection Hk as Ha Hk. subst a.
      destruct l as [|b l]; [done|].
      rewrite (cons_middle c cur), app_assoc. apply Hdirs; [|done|].
      * by exists k.
      * intros Heq. apply Hl2. by rewrite Heq.
Qed.

Lemma resolve_from_plain_dirs (fs : FS) (cur p : list string) :
  plain p →
  (∀ l, l `prefix_of` p → l ≠ [] → l ≠ p → entry fs (cur ++ l) = Some Dir) →
  resolve_from fs cur p = inr (cur ++ p).
Proof.
  intros Hp. revert cur.
  induction Hp as [|c p [Hc _] Hp IH]; intros cur Hdirs.
  - by rewrite app_nil_r.
  - rewrite resolve_from_cons, decide_False by done. cbv zeta.
    destruct p as [|c' p']; [done|].
    rewrite (Hdirs [c]); [|by exists (c' :: p')|done|done].
    rewrite IH; [by rewrite <- app_assoc|].
    intros l [k Hk] Hl1 Hl2. rewrite <- app_assoc. apply Hdirs.
    + exists k. simpl. by rewrite Hk.
    + done.
    + simpl. intros [= Heq]. done.
Qed.


(** The places a walk passes through stay directories when directories
    stay directories. *)
Lemma resolve_from_mono (fs fs' : FS) (cur p q : list string) :
  (∀ l, entry fs l = Some Dir → entry fs' l = Some Dir) →
  resolve_from fs cur p = inr q → resolve_from fs' cur p = inr q.
Proof.
  intros Hdirs. revert cur.
  induction p as [|c p IH]; intros cur Hres; [done|].
  rewrite resolve_from_cons in Hres |- *. cbv zeta in *.
  destruct p as [|c' p']; [done|].
  destruct (entry fs _) as [[|s]|] eqn:Hnext; try done.
  rewrite (Hdirs _ Hnext). by apply IH.
Qed.


Lemma lookup_node_Some (fs : FS) (p : list string) (n : node) :
  lookup_node fs p = Some n → has_nul p = false ∧ os_stat fs p = inr n.
Proof.
  unfold lookup_node. destruct (has_nul p); [done|].
  destruct (os_stat fs p); naive_solver.
Qed.










(** ** load_data and save_data *)







Section DataProcessingTheorems.
Variable BASE_DIR : list string.
Variable parse_csv : string → result DataFrame.
Variable format_csv : DataFrame → bool → string.

Lemma _validate_csv_file_eq (p : list string) (fs : FS) :
  _validate_csv_file p fs =
  (match lookup_node fs (path_parent p), lookup_node fs p with
   | None, _ =>
       Raise (FileNotFoundError
                ("The directory " +:+ path_str (path_parent p)
                 +:+ " does not exist."))
   | Some _, None =>
       Raise (FileNotFoundError
                ("The file " +:+ path_name p +:+ " does not exist in "
                 +:+ path_str (path_parent p) +:+ "."))
   | Some _, Some (File "") =>
       Raise (ValueError ("The file " +:+ path_name p +:+ " is empty."))
   | Some _, Some _ => Ok ()
   end, fs).
Proof.
  unfold _validate_csv_file. rewrite state_bind_eq. unfold Path_exists at 1.
  destruct (lookup_node fs (path_parent p)) as [x|] eqn:Hparent.
  - rewrite bool_decide_eq_true_2 by done. cbn [negb].
    rewrite state_bind_eq. unfold Path_exists.
    destruct (lookup_node fs p) as [y|] eqn:Hfile.
    + rewrite bool_decide_eq_true_2 by done. cbn [negb].
      rewrite state_bind_eq. unfold Path_st_size.
      apply lookup_node_Some in Hfile as [-> ->].
      by destruct y as [|[|c s]].
    + by rewrite bool_decide_eq_false_2 by apply is_Some_None.
  - by rewrite bool_decide_eq_false_2 by apply is_Some_None.
Qed.

Lemma read_csv_file (p : list string) (s : string) (fs : FS) :
  lookup_node fs p = Some (File s) →
  read_csv parse_csv p fs = (parse_csv s, fs).
Proof.
  intros [Hnul Hstat]%lookup_node_Some. unfold read_csv.
  rewrite state_bind_eq. unfold read_text. rewrite Hnul, Hstat.
  unfold lift_result. done.
Qed.

Lemma read_csv_dir (p : list string) (fs : FS) :
  lookup_node fs p = Some Dir →
  read_csv parse_csv p fs = (Raise (IsADirectoryError (path_str p)), fs).
Proof.
  intros [Hnul Hstat]%lookup_node_Some. unfold read_csv.
  rewrite state_bind_eq. unfold read_text. by rewrite Hnul, Hstat.
Qed.





End DataProcessingTheorems.




(** A file name that climbs out of the destination directory: the file
    stored is the one the operating system finds at the end of the walk. *)
Lemma save_data_follows_parent_links :
  ex_fs !! ["repo"; "data"; "raw"; "empty.csv"] = Some (File "") ∧
  (save_data ["repo"] ex_format_csv ex_train "../raw/empty.csv" "processed"
     ex_fs).2 !! ["repo"; "data"; "raw"; "empty.csv"]
  = Some (File "Sex,Age").
Proof. split; vm_compute; reflexivity. Qed.

(** A null character in the file name: the frame is not empty, and the
    error is the one of the path. *)
Lemma save_data_null_character :
  (save_data ["repo"] ex_format_csv ex_train (String "000" "") "processed"
     ex_fs).1 = Raise (ValueError "embedded null byte").
Proof. vm_compute. reflexivity. Qed.

(** ** Title extraction *)

Lemma is_letter_dot : is_letter "."%char = false.
Proof. done. Qed.

Lemma match_letters_dot_Some (s t : string) :
  match_letters_dot s = Some t ↔
  t ≠ "" ∧ all_letters t = true ∧ ∃ post, s = t +:+ "." +:+ post.
Proof.
  revert t. induction s as [|c s IH]; intros t.
  - split; [done|]. intros (Ht & _ & post & Hs). by destruct t.
  - cbn [match_letters_dot]. destruct (is_letter c) eqn:Hc.
    + destruct (match_letters_dot s) as [t0|] eqn:Hrec.
      * destruct (proj1 (IH t0) eq_refl) as (Ht0 & Hl0 & post & Hs). split.
        -- intros [= <-]. split_and!; [done|by simpl; rewrite Hc|].
           exists post. simpl. by rewrite Hs.
        -- intros (Ht & Hl & post' & Heq). destruct t as [|c' t]; [done|].
           simpl in Heq. injection Heq as <- Heq. f_equal. f_equal.
           destruct t as [|c'' t].
           ++ destruct t0 as [|d t0]; [done|]. rewrite Hs in Heq.
              simpl in Heq. injection Heq as -> _. by simpl in Hl0.
           ++ assert (Some t0 = Some (String c'' t)) as Hm; [|by simplify_eq].
              apply IH. split_and!; [done| |by exists post'].
              simpl in Hl. by apply andb_prop in Hl as [_ Hl].
      * split.
        -- destruct s as [|[[] [] [] [] [] [] [] []] s]; try done.
           intros [= <-]. split_and!; [done|by simpl; rewrite Hc|].
           by exists s.
        -- intros (Ht & Hl & post & Heq). destruct t as [|c' t]; [done|].
           simpl in Heq. injection Heq as <- Heq.
           destruct t as [|c'' t].
           ++ simpl in Heq. by subst s.
           ++ assert (None = Some (String c'' t)) as Hm; [|done].
              apply IH. split_and!; [done| |by exists post].
              simpl in Hl. by apply andb_prop in Hl as [_ Hl].
    + split; [done|]. intros (Ht & Hl & post & Heq).
      destruct t as [|c' t]; [done|]. simpl in Heq. injection Heq as <- _.
      simpl in Hl. by rewrite Hc in Hl.
Qed.

Lemma match_title_at_Some (s t : string) :
  match_title_at s = Some t ↔ ∃ post, title_match s "" t post.
Proof.
  unfold match_title_at, title_match.
  destruct s as [|c s].
  - split; [done|]. by intros (post & Heq & _).
  - destruct (decide (c = " "%char)) as [->|Hc].
    + rewrite match_letters_dot_Some. split.
      * intros (Ht & Hl & post & ->). by exists post.
      * intros (post & Heq & Ht & Hl). simpl in Heq. injection Heq as ->.
        split_and!; try done. by exists post.
    + split.
      * by destruct c as [[] [] [] [] [] [] [] []].
      * intros (post & Heq & _). simpl in Heq. by injection Heq as -> _.
Qed.

Lemma title_match_cons (c : ascii) (s pre t post : string) :
  title_match s pre t post → title_match (String c s) (String c pre) t post.
Proof. intros (-> & Ht & Hl). by split_and!. Qed.

Lemma title_match_cons_inv (c : ascii) (s pre t post : string) :
  title_match (String c s) pre t post →
  pre = "" ∨ ∃ pre', pre = String c pre' ∧ title_match s pre' t post.
Proof.
  intros (Heq & Ht & Hl). destruct pre as [|c' pre']; [by left|].
  right. simpl in Heq. injection Heq as <- ->. by exists pre'.
Qed.

Lemma search_title_Some (s t : string) :
  search_title s = Some t ↔
  ∃ pre post,
    title_match s pre t post ∧
    ∀ pre' t' post', title_match s pre' t' post' →
                     (String.length pre ≤ String.length pre')%nat.
Proof.
  revert t. induction s as [|c s IH]; intros t.
  - cbn [search_title match_title_at]. split; [done|].
    intros (pre & post & (Heq & _) & _). by destruct pre.
  - cbn [search_title].
    destruct (match_title_at (String c s)) as [t0|] eqn:Hat.
    + apply match_title_at_Some in Hat as [post0 Hm0]. split.
      * intros [= <-]. exists "", post0. split; [done|]. simpl. lia.
      * intros (pre & post & Hm & Hmin).
        specialize (Hmin _ _ _ Hm0). destruct pre; [|simpl in Hmin; lia].
        assert (match_title_at (String c s) = Some t) as H1.
        { apply match_title_at_Some. by exists post. }
        assert (match_title_at (String c s) = Some t0) as H2.
        { apply match_title_at_Some. by exists post0. }
        congruence.
    + assert (∀ t' post', ¬ title_match (String c s) "" t' post') as Hno.
      { intros t' post' Hm.
        assert (match_title_at (String c s) = Some t') as H1.
        { apply match_title_at_Some. by exists post'. }
        congruence. }
      rewrite IH. split.
      * intros (pre & post & Hm & Hmin). exists (String c pre), post.
        split; [by apply title_match_cons|].
        intros pre' t' post' Hm'.
        destruct (title_match_cons_inv _ _ _ _ _ Hm')
          as [->|(pre'' & -> & Hm'')].
        -- by destruct (Hno t' post').
        -- simpl. specialize (Hmin _ _ _ Hm''). lia.
      * intros (pre & post & Hm & Hmin).
        destruct (title_match_cons_inv _ _ _ _ _ Hm)
          as [->|(pre'' & -> & Hm'')].
        -- by destruct (Hno t post).
        -- exists pre'', post. split; [done|].
           intros pre' t' post' Hm'.
           specialize (Hmin _ _ _ (title_match_cons c _ _ _ _ Hm')).
           simpl in Hmin. lia.
Qed.

Lemma search_title_None (s : string) :
  search_title s = None ↔ ∀ pre t post, ¬ title_match s pre t post.
Proof.
  induction s as [|c s IH].
  - split; [|done]. intros _ pre t post (Heq & _). by destruct pre.
  - cbn [search_title].
    destruct (match_title_at (String c s)) as [t0|] eqn:Hat.
    + split; [done|]. intros Hno.
      apply match_title_at_Some in Hat as [post0 Hm0]. by destruct (Hno _ _ _ Hm0).
    + rewrite IH. split.
      * intros Hno pre t post Hm.
        destruct (title_match_cons_inv _ _ _ _ _ Hm)
          as [->|(pre'' & -> & Hm'')].
        -- assert (match_title_at (String c s) = Some t) as H1.
           { apply match_title_at_Some. by exists post. }
           congruence.
        -- by eapply Hno.
      * intros Hno pre t post Hm.
        eapply Hno. by apply (title_match_cons c).
Qed.

Ltac not_in_list :=
  try done;
  let Hin := fresh "Hin" in
  intros Hin;
  repeat (apply elem_of_cons in Hin as [Hin|Hin]; [done|]);
  by apply elem_of_nil in Hin.

Lemma title_mapping_spec (t : string) :
  default t (title_mapping !! t) = normalize_title_spec t.
Proof.
  unfold normalize_title_spec, title_mapping.
  destruct (decide (t = "Mme")) as [->|H1]; [done|].
  rewrite lookup_insert_ne by done.
  destruct (decide (t = "Ms")) as [->|H2]; [done|].
  rewrite lookup_insert_ne by done.
  destruct (decide (t = "Mlle")) as [->|H3]; [done|].
  rewrite lookup_insert_ne by done.
  rewrite (bool_decide_eq_false_2 (t ∈ ["Mlle"; "Ms"])),
    (bool_decide_eq_false_2 (t = "Mme")) by not_in_list.
  unfold rare_titles. cbn [fmap list_fmap list_to_map foldr uncurry].
  repeat (match goal with
          | |- context [<[?k := _]> _ !! t] =>
              destruct (decide (t = k)) as [->|?];
              [done|rewrite lookup_insert_ne by done]
          end).
  rewrite lookup_empty, bool_decide_eq_false_2 by not_in_list. done.
Qed.

(** ** generate_features *)

Lemma setitem_Ok_spec (d d' : DataFrame) (c : string) (vs : list cell) :
  setitem d c vs = Ok d' →
  getitem d' c = Ok vs ∧ ∀ c', c' ≠ c → getitem d' c' = getitem d c'.
Proof.
  unfold setitem. case_decide as Hlen; [|done]. intros [= <-].
  unfold getitem. cbn [columns rows]. split.
  - rewrite decide_True; [by rewrite cell_at_zip_insert_eq|].
    case_decide; [done|]. apply elem_of_app. right. left.
  - intros c' Hne. rewrite cell_at_zip_insert_ne by done.
    destruct (decide (c ∈ columns d)); [done|].
    destruct (decide (c' ∈ columns d)) as [Hc'|Hc'].
    + rewrite decide_True; [done|]. apply elem_of_app. by left.
    + rewrite decide_False; [done|].
      intros [?|Hin]%elem_of_app; [done|].
      by apply list_elem_of_singleton in Hin.
Qed.

Lemma Series_str_extract_title_Ok (s t : list cell) :
  Series_str_extract_title s = Ok t ↔
  (s = [] ∨ ∃ c, c ∈ s ∧ is_str c = true) ∧ t = str_extract_title <$> s.
Proof.
  unfold Series_str_extract_title, str_accessor.
  destruct (bool_decide (s = []) || existsb is_str s) eqn:Hacc; cbn.
  - apply orb_true_iff in Hacc as [Hnil%bool_decide_eq_true|Hstr].
    + split; [intros [= <-]; auto|by intros [_ ->]].
    + apply existsb_exists in Hstr as (c & Hc%list_elem_of_In & Hstr).
      split; [intros [= <-]; eauto|by intros [_ ->]].
  - apply orb_false_iff in Hacc as [Hnil%bool_decide_eq_false Hstr].
    split; [done|]. intros [[Hs|(c & Hc & Hcs)] _]; [done|].
    assert (existsb is_str s = true) as Hex; [|congruence].
    apply existsb_exists. exists c. by rewrite <- list_elem_of_In.
Qed.

(** The steps of [generate_features], read off a successful run. *)
Lemma generate_features_Ok (df df' : DataFrame) :
  generate_features df = Ok df' →
  ∃ name fare q,
    getitem df "Name" = Ok name ∧ getitem df "Fare" = Ok fare ∧
    np_quantile fare fare_quantiles = Ok q ∧
    getitem df' "Title" = Ok (_group_titles (str_extract_title <$> name)) ∧
    getitem df' "FareBin" = Ok (fare_to_bin q <$> fare).
Proof.
  unfold generate_features. intros Hrun.
  repeat (apply result_bind_Ok in Hrun as (? & ? & Hrun)).
  simplify_eq.
  repeat match goal with
         | H : Series_str_extract_title _ = Ok _ |- _ =>
             apply (proj1 (Series_str_extract_title_Ok _ _)) in H as [_ ->]
         end.
  repeat match goal with
         | H : setitem _ _ _ = Ok _ |- _ =>
             apply setitem_Ok_spec in H as [? ?]
         end.
  repeat match goal with
         | H : ∀ c', c' ≠ ?c → getitem ?d c' = getitem _ c' |- _ =>
             rewrite !H in * by done; clear H
         end.
  eexists _, _, _. split_and!; try done; congruence.
Qed.

Lemma np_quantile_missing (fare : list cell) (qs : list Qc) (q : list cell) :
  VNaN ∈ fare → np_quantile fare qs = Ok q → q = (λ _, VNaN) <$> qs.
Proof.
  intros Hnan. unfold np_quantile. destruct fare as [|c fare]; [done|].
  intros (xs & _ & Hq)%result_bind_Ok.
  rewrite bool_decide_eq_true_2 in Hq by done. by simplify_eq.
Qed.

Lemma cell_leb_missing (c : cell) : cell_leb c VNaN = false.
Proof. unfold cell_leb. by destruct (cell_num c) as [[|]|]. Qed.

(** C8. In the result of [generate_features] the title of a row whose name
    holds a space, a non-empty run of letters and a period is the run of the
    leftmost such place, normalised by the fixed mapping; the title of any
    other row is missing. "Braund, Mr. Owen Harris" gives "Mr", "Futrelle,
    Mrs. Jacques Heath" gives "Mrs", and a name whose title is "Dr" gives
    "Rare". *)
Theorem generate_features_title (df df' : DataFrame) :
  generate_features df = Ok df' →
  ∃ names titles,
    getitem df "Name" = Ok names ∧ getitem df' "Title" = Ok titles ∧
    length titles = length names ∧
    (∀ i name title,
       names !! i = Some name → titles !! i = Some title →
       match name with
       | VStr s =>
           (∃ pre t post,
              title_match s pre t post ∧
              (∀ pre' t' post', title_match s pre' t' post' →
                 (String.length pre ≤ String.length pre')%nat) ∧
              title = VStr (normalize_title_spec t)) ∨
           ((∀ pre t post, ¬ title_match s pre t post) ∧ title = VNaN)
       | _ => title = VNaN
       end) ∧
    _group_titles [str_extract_title (VStr "Braund, Mr. Owen Harris")]
    = [VStr "Mr"] ∧
    _group_titles [str_extract_title (VStr "Futrelle, Mrs. Jacques Heath")]
    = [VStr "Mrs"] ∧
    _group_titles [str_extract_title (VStr "Brewe, Dr. Arthur Jackson")]
    = [VStr "Rare"] ∧
    (∀ s, search_title s = Some "Dr" →
          _group_titles [str_extract_title (VStr s)] = [VStr "Rare"]).
Proof.
  intros Hrun.
  destruct (generate_features_Ok df df' Hrun)
    as (names & fare & q & Hnames & _ & _ & Htitle & _).
  exists names, (_group_titles (str_extract_title <$> names)).
  split_and!; [exact Hnames|exact Htitle| | |by vm_compute..|].
  - unfold _group_titles, Series_replace. by rewrite !length_fmap.
  - intros i name title Hname Htitle_i.
    unfold _group_titles, Series_replace in Htitle_i.
    rewrite !list_lookup_fmap, Hname in Htitle_i.
    cbn [fmap option_fmap option_map] in Htitle_i. injection Htitle_i as <-.
    destruct name as [s|n|x|]; [|reflexivity..]. cbn [str_extract_title].
    destruct (search_title s) as [t|] eqn:Hsearch.
    + left. apply search_title_Some in Hsearch as (pre & post & Hm & Hmin).
      exists pre, t, post. split_and!; [exact Hm|exact Hmin|].
      rewrite <- title_mapping_spec. by destruct (title_mapping !! t).
    + right. split; [|reflexivity]. by apply (proj1 (search_title_None s)).
  - intros s Hsearch. unfold _group_titles, Series_replace.
    cbn [fmap list_fmap str_extract_title]. rewrite Hsearch. by vm_compute.
Qed.

Lemma generate_features_title_witness :
  ∃ df' names titles,
    generate_features ex_passengers = Ok df' ∧
    getitem ex_passengers "Name" = Ok names ∧
    getitem df' "Title" = Ok titles ∧
    titles = [VStr "Mr"; VStr "Rare"].
Proof.
  destruct (generate_features ex_passengers) as [df'|] eqn:Hrun;
    [|by vm_compute in Hrun].
  destruct (generate_features_title ex_passengers df' Hrun)
    as (names & titles & Hnames & Htitles & _).
  exists df', names, titles. split_and!; try done.
  vm_compute in Hrun. simplify_eq. vm_compute in Htitles. by simplify_eq.
Defined.

(** C9. When the [Fare] column holds a missing value, [generate_features]
    gives every row the fare bin "Very High". *)
Theorem generate_features_farebin_missing (df df' : DataFrame)
    (fare : list cell) :
  getitem df "Fare" = Ok fare → VNaN ∈ fare →
  generate_features df = Ok df' →
  getitem df' "FareBin" = Ok ((λ _, VStr "Very High") <$> fare).
Proof.
  intros Hfare Hnan Hrun.
  destruct (generate_features_Ok df df' Hrun)
    as (names & fare' & q & _ & Hfare' & Hq & _ & ->).
  assert (fare' = fare) as -> by congruence.
  apply np_quantile_missing in Hq as ->; [|done].
  f_equal. apply list_fmap_ext. intros i c _.
  unfold fare_to_bin. cbn [nth fmap list_fmap fare_quantiles].
  by rewrite !cell_leb_missing.
Qed.

Lemma generate_features_farebin_missing_witness :
  ∃ df',
    generate_features ex_passengers = Ok df' ∧
    getitem df' "FareBin" = Ok [VStr "Very High"; VStr "Very High"].
Proof.
  destruct (generate_features ex_passengers) as [df'|] eqn:Hrun;
    [|by vm_compute in Hrun].
  exists df'. split; [done|].
  apply (generate_features_farebin_missing ex_passengers df'
           [VFloat (Q2Qc (725 # 100)); VNaN]).
  - by vm_compute.
  - right. left.
  - exact Hrun.
Defined.

(** * Further properties of the code

    Properties of the embedded functions beyond the statements above:
    when the functions return and when they raise, what they keep of their
    input, and how they compose. *)

(** ** clean_data: when it returns and what it returns *)

Lemma elem_of_rows_drop_duplicates (df : DataFrame) (r : gmap string cell) :
  r ∈ rows (drop_duplicates df) ↔ r ∈ rows df.
Proof.
  unfold drop_duplicates. destruct (df_empty df); [done|].
  apply elem_of_unique_first.
Qed.

Lemma deduplicated_columns (df : DataFrame) (c : string) :
  c ∈ columns (deduplicated df) ↔ c ∈ columns df ∧ c ≠ "Cabin".
Proof.
  unfold deduplicated, drop_columns_ignore. cbn [columns].
  rewrite list_elem_of_filter, list_elem_of_singleton.
  assert (columns (drop_duplicates df) = columns df) as ->; [|tauto].
  unfold drop_duplicates. by destruct (df_empty df).
Qed.

Lemma cell_at_delete_ne (k k' : string) (r : gmap string cell) :
  k ≠ k' → cell_at k (delete k' r) = cell_at k r.
Proof. intros Hk. unfold cell_at. by rewrite lookup_delete_ne. Qed.

Lemma deduplicated_column_elem_of (df : DataFrame) (k : string) (c : cell) :
  k ≠ "Cabin" →
  c ∈ cell_at k <$> rows (deduplicated df) ↔ c ∈ cell_at k <$> rows df.
Proof.
  intros Hk. unfold deduplicated, drop_columns_ignore. cbn [rows foldr].
  rewrite <- list_fmap_compose, !list_elem_of_fmap. split.
  - intros (r & -> & Hr). exists r. split.
    + cbn. by rewrite cell_at_delete_ne.
    + exact (proj1 (elem_of_rows_drop_duplicates df r) Hr).
  - intros (r & -> & Hr). exists r. split.
    + cbn. by rewrite cell_at_delete_ne.
    + exact (proj2 (elem_of_rows_drop_duplicates df r) Hr).
Qed.

Lemma numeric_values_Ok_iff (col : list cell) :
  (∃ qs, numeric_values col = Ok qs) ↔ ∀ c, c ∈ col → is_str c = false.
Proof.
  induction col as [|c col IH].
  - split; [by intros _ c ?%elem_of_nil|by exists []].
  - rewrite numeric_values_cons. split.
    + intros [qs Hqs] c' [->|Hc']%elem_of_cons.
      * by destruct c.
      * destruct (cell_num c); [|done].
        apply result_bind_Ok in Hqs as (qs' & Hqs' & _).
        apply (proj1 IH); eauto.
    + intros Hall. destruct (proj2 IH) as [qs Hqs].
      { intros c' Hc'. apply Hall. by right. }
      rewrite Hqs. specialize (Hall c (list_elem_of_here _ _)).
      destruct c; try done; cbn; eauto.
Qed.

Lemma existsb_elem_of (P : cell → bool) (col : list cell) :
  existsb P col = true ↔ ∃ c, c ∈ col ∧ P c = true.
Proof.
  rewrite existsb_exists. by setoid_rewrite list_elem_of_In.
Qed.

Section CleaningFurther.
Variable float_of_str : string → option (option Qc).

Lemma float_values_Ok_iff (col : list cell) :
  (∃ qs, float_values float_of_str col = Ok qs) ↔
  ∀ s, VStr s ∈ col → is_Some (float_of_str s).
Proof.
  induction col as [|c col IH].
  - split; [by intros _ s ?%elem_of_nil|by exists []].
  - rewrite float_values_cons. split.
    + intros [qs Hqs] s [Hs|Hs]%elem_of_cons.
      * subst c. cbn in Hqs. by destruct (float_of_str s).
      * destruct (cell_float float_of_str c); [|done].
        apply result_bind_Ok in Hqs as (qs' & Hqs' & _).
        apply (proj1 IH); eauto.
    + intros Hall. destruct (proj2 IH) as [qs Hqs].
      { intros s Hs. apply Hall. by right. }
      rewrite Hqs.
      assert (is_Some (cell_float float_of_str c)) as [o ->].
      { destruct c as [s| | |]; try by eexists.
        apply Hall. left. }
      cbn. eauto.
Qed.

Lemma float_values_nil_iff (col : list cell) (qs : list Qc) :
  float_values float_of_str col = Ok qs →
  qs = [] ↔ ∀ c, c ∈ col → cell_float float_of_str c = Some None.
Proof.
  revert qs. induction col as [|c col IH]; intros qs.
  - intros [= <-]. split; [by intros _ c ?%elem_of_nil|done].
  - rewrite float_values_cons.
    destruct (cell_float float_of_str c) as [o|] eqn:Hc; [|done].
    intros (qs' & Hqs' & [= <-])%result_bind_Ok.
    specialize (IH qs' Hqs'). split.
    + intros Hnil c' [->|Hc']%elem_of_cons.
      * by destruct o.
      * destruct o; [done|]. by apply (proj1 IH).
    + intros Hall. rewrite (Hall c (list_elem_of_here _ _)) in Hc.
      simplify_eq. apply (proj2 IH).
      intros c' Hc'. apply Hall. by right.
Qed.

Lemma Series_median_guard (col : list cell) :
  existsb is_str col && negb (existsb is_int col) = false ↔
  ∀ s, VStr s ∈ col → ∃ c, c ∈ col ∧ is_int c = true.
Proof.
  split.
  - intros Hguard s Hs.
    assert (existsb is_str col = true) as Hstr.
    { apply existsb_elem_of. by exists (VStr s). }
    rewrite Hstr in Hguard. cbn in Hguard.
    apply negb_false_iff in Hguard. by apply existsb_elem_of.
  - intros Hall. destruct (existsb is_str col) eqn:Hstr; [|done].
    apply existsb_elem_of in Hstr as (c & Hc & Hcs).
    destruct c as [s| | |]; try done.
    cbn. apply negb_false_iff, existsb_elem_of. by apply (Hall s).
Qed.

Lemma Series_median_Ok_iff (col : list cell) :
  (∃ m, Series_median float_of_str col = Ok m) ↔ castable float_of_str col.
Proof.
  unfold Series_median, castable. split.
  - intros [m Hm] s Hs.
    destruct (existsb is_str col && negb (existsb is_int col)) eqn:Hguard;
      [done|].
    apply result_bind_Ok in Hm as (qs & Hqs & _). split.
    + apply (proj1 (float_values_Ok_iff col)); eauto.
    + by apply (proj1 (Series_median_guard col) Hguard s).
  - intros Hall.
    rewrite (proj2 (Series_median_guard col))
      by (intros s Hs; by destruct (Hall s Hs)).
    destruct (proj2 (float_values_Ok_iff col)) as [qs ->].
    { intros s Hs. by apply Hall. }
    cbn. destruct qs; eauto.
Qed.

Lemma castable_no_str (col : list cell) :
  (∀ c, c ∈ col → is_str c = false) → castable float_of_str col.
Proof. intros Hall s Hs. by specialize (Hall _ Hs). Qed.

Lemma castable_ext (col col' : list cell) :
  (∀ c, c ∈ col ↔ c ∈ col') →
  castable float_of_str col ↔ castable float_of_str col'.
Proof.
  assert (∀ l l' : list cell, (∀ c, c ∈ l ↔ c ∈ l') →
            castable float_of_str l → castable float_of_str l') as Hone.
  { intros l l' Heq Hl s Hs. destruct (Hl s) as [Hparse (c & Hc & Hint)].
    - by apply Heq.
    - split; [done|]. exists c. split; [by apply Heq|done]. }
  intros Heq. split; apply Hone; [done|]. intros c. by rewrite Heq.
Qed.

Lemma Series_median_NaN_iff (col : list cell) (m : cell) :
  Series_median float_of_str col = Ok m →
  m = VNaN ↔ ∀ c, c ∈ col → c = VNaN.
Proof.
  intros Hm.
  pose proof (proj1 (Series_median_Ok_iff col) (ex_intro _ m Hm)) as Hcast.
  unfold Series_median in Hm.
  destruct (existsb is_str col && negb (existsb is_int col)); [done|].
  apply result_bind_Ok in Hm as (qs & Hqs & Hm).
  pose proof (float_values_nil_iff col qs Hqs) as Hnil.
  assert (m = VNaN ↔ qs = []) as ->.
  { destruct qs; simplify_eq; split; done. }
  rewrite Hnil. split.
  - intros Hall c Hc. pose proof (Hall c Hc) as Hcf.
    destruct c as [s| | |]; try done.
    destruct (Hcast s Hc) as [_ (c' & Hc' & Hint)].
    specialize (Hall c' Hc'). by destruct c'.
  - intros Hall c Hc. by rewrite (Hall c Hc).
Qed.

Lemma mode_iloc0_Ok_iff (col : list cell) :
  (∃ m, iloc0 (Series_mode col) = Ok m) ↔ ∃ c, c ∈ col ∧ c ≠ VNaN.
Proof.
  split.
  - intros [m Hm%iloc0_Ok]. exists m.
    destruct (Series_mode_elem_of col m) as (? & ? & _); [|done].
    by apply head_Some_elem_of.
  - intros (c & Hc & Hcn).
    pose proof (Series_mode_nonempty col c Hc Hcn) as Hne.
    destruct (Series_mode col) as [|m l]; [done|]. by exists m.
Qed.

Lemma mode_iloc0_not_NaN (col : list cell) (m : cell) :
  iloc0 (Series_mode col) = Ok m → m ≠ VNaN.
Proof.
  intros Hm%iloc0_Ok.
  destruct (Series_mode_elem_of col m) as (? & _); [|done].
  by apply head_Some_elem_of.
Qed.

Lemma castable_deduplicated (df : DataFrame) (k : string) :
  k ≠ "Cabin" →
  castable float_of_str (cell_at k <$> rows (deduplicated df))
  ↔ castable float_of_str (cell_at k <$> rows df).
Proof.
  intros Hk. apply castable_ext. intros c.
  by apply deduplicated_column_elem_of.
Qed.

(** What a successful run of [clean_data] says of its input. *)
Lemma clean_data_Ok_input (df df' : DataFrame) :
  clean_data float_of_str df = Ok df' →
  "Age" ∈ columns df ∧ "Embarked" ∈ columns df ∧ "Fare" ∈ columns df ∧
  castable float_of_str (cell_at "Age" <$> rows df) ∧
  castable float_of_str (cell_at "Fare" <$> rows df) ∧
  (∃ r, r ∈ rows df ∧ cell_at "Embarked" r ≠ VNaN).
Proof.
  intros Hdf'. apply clean_data_Ok in Hdf'
    as (a & e & f & Ha & He & Hf & Hage & Hemb & Hfare & _).
  apply (proj1 (deduplicated_columns _ _)) in Ha as [Ha _].
  apply (proj1 (deduplicated_columns _ _)) in He as [He _].
  apply (proj1 (deduplicated_columns _ _)) in Hf as [Hf _].
  split_and!; try done.
  - apply (castable_deduplicated df "Age"); [done|].
    apply Series_median_Ok_iff. eauto.
  - apply (castable_deduplicated df "Fare"); [done|].
    apply Series_median_Ok_iff. eauto.
  - destruct (proj1 (mode_iloc0_Ok_iff _) (ex_intro _ e Hemb))
      as (c & Hc & Hcn).
    assert ("Embarked" ≠ "Cabin") as Hne by done.
    apply (proj1 (deduplicated_column_elem_of df _ c Hne)) in Hc.
    destruct (proj1 (list_elem_of_fmap _ _ _) Hc) as (r & Heq & Hr).
    exists r. split; [done|]. by rewrite <- Heq.
Qed.

(** X1. [clean_data] returns a frame exactly when the frame has the columns
    Age, Embarked and Fare, some Embarked cell is not missing, and the
    median of Age and of Fare can be computed: every string in the column
    spells a number, and a column that holds a string also holds an
    integer. In every other case it raises. *)
Theorem clean_data_defined_iff (df : DataFrame) :
  (∃ df', clean_data float_of_str df = Ok df') ↔
  "Age" ∈ columns df ∧ "Embarked" ∈ columns df ∧ "Fare" ∈ columns df ∧
  castable float_of_str (cell_at "Age" <$> rows df) ∧
  castable float_of_str (cell_at "Fare" <$> rows df) ∧
  (∃ r, r ∈ rows df ∧ cell_at "Embarked" r ≠ VNaN).
Proof.
  split.
  - intros [df' Hdf']. by apply (clean_data_Ok_input df df').
  - intros (Ha & He & Hf & Hage & Hfare & r & Hr & Hemb).
    destruct (proj2 (Series_median_Ok_iff
                       (cell_at "Age" <$> rows (deduplicated df))))
      as [a Ha']; [by apply castable_deduplicated|].
    destruct (proj2 (Series_median_Ok_iff
                       (cell_at "Fare" <$> rows (deduplicated df))))
      as [f Hf']; [by apply castable_deduplicated|].
    destruct (proj2 (mode_iloc0_Ok_iff
                       (cell_at "Embarked" <$> rows (deduplicated df))))
      as [e He'].
    { exists (cell_at "Embarked" r). split; [|done].
      apply deduplicated_column_elem_of; [done|].
      apply list_elem_of_fmap. eauto. }
    eexists. apply clean_data_Ok. exists a, e, f.
    rewrite !deduplicated_columns. split_and!; done.
Qed.

Lemma clean_data_not_empty (df df' : DataFrame) :
  clean_data float_of_str df = Ok df' → df_empty df = false.
Proof.
  intros Hrun.
  destruct (clean_data_Ok_input df df' Hrun)
    as (Ha & _ & _ & _ & _ & r & Hr & _).
  unfold df_empty. apply orb_false_intro; apply bool_decide_eq_false.
  - intros Hnil. rewrite Hnil in Ha. by apply elem_of_nil in Ha.
  - intros Hnil. rewrite Hnil in Hr. by apply elem_of_nil in Hr.
Qed.

Lemma deduplicated_rows (df : DataFrame) :
  df_empty df = false →
  rows (deduplicated df) = delete "Cabin" <$> unique_first (rows df).
Proof.
  intros Hne. unfold deduplicated, drop_columns_ignore, drop_duplicates.
  by rewrite Hne.
Qed.

Lemma Series_median_number (col : list cell) (m : cell) :
  Series_median float_of_str col = Ok m →
  m ≠ VNaN ↔ ∃ c, c ∈ col ∧ is_number c = true.
Proof.
  intros Hm. pose proof (Series_median_NaN_iff col m Hm) as Hnan.
  pose proof (proj1 (Series_median_Ok_iff col) (ex_intro _ m Hm)) as Hcast.
  split.
  - intros Hmn. destruct (decide (Forall (λ c, c = VNaN) col)) as [Hall|Hex].
    + exfalso. apply Hmn, Hnan. by apply Forall_forall.
    + apply not_Forall_Exists in Hex; [|apply _].
      apply Exists_exists in Hex as (c & Hc & Hcn).
      destruct c as [s| | |].
      * destruct (Hcast s Hc) as [_ (c' & Hc' & Hint)].
        exists c'. split; [done|]. by destruct c'.
      * by eexists.
      * by eexists.
      * by exfalso; apply Hcn.
  - intros (c & Hc & Hnum) Hm'. rewrite (proj1 Hnan Hm' c Hc) in Hnum. done.
Qed.

Lemma column_number_deduplicated (df : DataFrame) (k : string) :
  k ≠ "Cabin" →
  (∃ c, c ∈ cell_at k <$> rows (deduplicated df) ∧ is_number c = true) ↔
  ∃ r, r ∈ rows df ∧ is_number (cell_at k r) = true.
Proof.
  intros Hk. split.
  - intros (c & Hc & Hnum).
    apply (proj1 (deduplicated_column_elem_of df k c Hk)) in Hc.
    destruct (proj1 (list_elem_of_fmap _ _ _) Hc) as (r & -> & Hr). eauto.
  - intros (r & Hr & Hnum). exists (cell_at k r). split; [|done].
    apply (proj2 (deduplicated_column_elem_of df k _ Hk)).
    by apply list_elem_of_fmap_2.
Qed.

(** X2. The frame returned by [clean_data] has no Cabin column: the name is
    not among its columns, no row holds a value under it, and reading the
    column raises [KeyError]. *)
Theorem clean_data_drops_Cabin (df df' : DataFrame) :
  clean_data float_of_str df = Ok df' →
  ("Cabin" ∉ columns df') ∧
  (∀ r, r ∈ rows df' → r !! "Cabin" = None) ∧
  getitem df' "Cabin" = Raise (KeyError "Cabin").
Proof.
  intros (a & e & f & _ & _ & _ & _ & _ & _ & ->)%clean_data_Ok.
  pose proof (deduplicated_columns_no_Cabin df) as Hcol.
  split_and!; [done| |].
  - cbn [rows]. intros r (r0 & -> & Hr0)%list_elem_of_fmap.
    unfold fill3. rewrite !(lookup_fill_row_ne "Cabin") by done.
    by apply (deduplicated_rows_no_Cabin df).
  - unfold getitem. cbn [columns]. by rewrite decide_False.
Qed.

(** X3. After [clean_data] no Embarked cell is missing; no Age cell is
    missing exactly when the input has a number in the Age column, and the
    same holds for Fare. *)
Theorem clean_data_no_missing (df df' : DataFrame) :
  clean_data float_of_str df = Ok df' →
  (∀ r, r ∈ rows df' → cell_at "Embarked" r ≠ VNaN) ∧
  ((∀ r, r ∈ rows df' → cell_at "Age" r ≠ VNaN) ↔
   ∃ r, r ∈ rows df ∧ is_number (cell_at "Age" r) = true) ∧
  ((∀ r, r ∈ rows df' → cell_at "Fare" r ≠ VNaN) ↔
   ∃ r, r ∈ rows df ∧ is_number (cell_at "Fare" r) = true).
Proof.
  intros Hrun.
  destruct (clean_data_Ok_input df df' Hrun)
    as (_ & _ & _ & _ & _ & r1 & Hr1 & _).
  apply clean_data_Ok in Hrun
    as (a & e & f & _ & _ & _ & Hage & Hemb & Hfare & ->).
  cbn [rows].
  assert (∃ r0, r0 ∈ rows (deduplicated df)) as [r0 Hr0].
  { assert ("Embarked" ≠ "Cabin") as Hk by done.
    destruct (proj1 (list_elem_of_fmap _ _ _)
      (proj2 (deduplicated_column_elem_of df _ _ Hk)
         (list_elem_of_fmap_2 (cell_at "Embarked") _ _ Hr1)))
      as (r & _ & Hr). eauto. }
  assert (∀ k m, k ≠ "Cabin" →
            Series_median float_of_str (cell_at k <$> rows (deduplicated df)) = Ok m →
            (∀ r, r ∈ rows (deduplicated df) →
                  fill_cell m (cell_at k r) ≠ VNaN) ↔
            ∃ r, r ∈ rows df ∧ is_number (cell_at k r) = true) as Hmed.
  { intros k m Hk Hm. rewrite <- (column_number_deduplicated df k Hk).
    rewrite <- (Series_median_number _ m Hm). split.
    - intros Hall ->. apply (Hall r0 Hr0).
      rewrite (proj1 (Series_median_NaN_iff _ _ Hm) eq_refl (cell_at k r0))
        by by apply list_elem_of_fmap_2.
      done.
    - intros Hmn r _. by apply fill_cell_not_NaN. }
  assert (∀ k (v : cell) (g : gmap string cell → gmap string cell),
            (∀ r, cell_at k (g r) = fill_cell v (cell_at k r)) →
            (∀ r, r ∈ g <$> rows (deduplicated df) → cell_at k r ≠ VNaN) ↔
            (∀ r, r ∈ rows (deduplicated df) →
                  fill_cell v (cell_at k r) ≠ VNaN)) as Hfill.
  { intros k v g Hg. split.
    - intros Hall r Hr. rewrite <- Hg. by apply Hall, list_elem_of_fmap_2.
    - intros Hall r (r' & -> & Hr')%list_elem_of_fmap. rewrite Hg.
      by apply Hall. }
  split_and!.
  - apply (proj2 (Hfill "Embarked" e _
                    (λ r, proj1 (proj2 (cell_at_fill3 a e f r))))).
    intros r _. apply fill_cell_not_NaN. by eapply mode_iloc0_not_NaN.
  - rewrite (Hfill "Age" a _ (λ r, proj1 (cell_at_fill3 a e f r))).
    by apply Hmed.
  - rewrite (Hfill "Fare" f _
               (λ r, proj2 (proj2 (cell_at_fill3 a e f r)))).
    by apply Hmed.
Qed.

Lemma cell_at_fill_row_present (k k' : string) (v : cell)
    (r : gmap string cell) :
  cell_at k r ≠ VNaN ∨ k ≠ k' → cell_at k (fill_row k' v r) = cell_at k r.
Proof.
  intros Hk. destruct (decide (k = k')) as [<-|Hne].
  - rewrite cell_at_fill_row_eq. unfold fill_cell. case_decide; [|done].
    by destruct Hk.
  - by apply cell_at_fill_row_ne.
Qed.

Lemma cell_at_fill3_present (a e f : cell) (k : string)
    (r : gmap string cell) :
  cell_at k r ≠ VNaN ∨ k ∉ ["Age"; "Embarked"; "Fare"] →
  cell_at k (fill3 a e f r) = cell_at k r.
Proof.
  intros Hk. unfold fill3.
  assert (∀ k', k' ∈ ["Age"; "Embarked"; "Fare"] →
                cell_at k r ≠ VNaN ∨ k ≠ k') as Hk'.
  { intros k' Hin. destruct Hk as [Hk|Hk]; [by left|right].
    by intros ->. }
  assert (cell_at k (fill_row "Age" a r) = cell_at k r) as E1.
  { apply cell_at_fill_row_present, Hk', list_elem_of_here. }
  assert (cell_at k (fill_row "Embarked" e (fill_row "Age" a r))
          = cell_at k r) as E2.
  { rewrite cell_at_fill_row_present; [done|]. rewrite E1.
    apply Hk', list_elem_of_further, list_elem_of_here. }
  rewrite cell_at_fill_row_present; [done|]. rewrite E2.
  apply Hk'. do 2 apply list_elem_of_further. apply list_elem_of_here.
Qed.

(** X4. The frame returned by [clean_data] has the columns of the input
    other than Cabin, in their order, and one row for every distinct row of
    the input, so never more rows than the input. *)
Theorem clean_data_shape (df df' : DataFrame) :
  clean_data float_of_str df = Ok df' →
  columns df' = filter (λ c, c ≠ "Cabin") (columns df) ∧
  length (rows df') = length (unique_first (rows df)) ∧
  (length (rows df') ≤ length (rows df))%nat.
Proof.
  intros Hrun. pose proof (clean_data_not_empty df df' Hrun) as Hne.
  apply clean_data_Ok in Hrun as (a & e & f & _ & _ & _ & _ & _ & _ & ->).
  cbn [columns rows]. rewrite deduplicated_rows, !length_fmap by done.
  split_and!; [|done|apply length_unique_first].
  unfold deduplicated, drop_columns_ignore, drop_duplicates.
  rewrite Hne. cbn [columns]. apply list_filter_iff.
  intros c. by rewrite list_elem_of_singleton.
Qed.

(** X5. Row [i] of the frame returned by [clean_data] comes from the
    [i]-th distinct row of the input: every cell that is present there, and
    every cell of a column other than Age, Embarked and Fare, is the same
    in both (the Cabin column apart). *)
Theorem clean_data_keeps_present_values (df df' : DataFrame) (i : nat)
    (r : gmap string cell) :
  clean_data float_of_str df = Ok df' →
  unique_first (rows df) !! i = Some r →
  ∃ r', rows df' !! i = Some r' ∧
        ∀ k, k ≠ "Cabin" →
             cell_at k r ≠ VNaN ∨ k ∉ ["Age"; "Embarked"; "Fare"] →
             cell_at k r' = cell_at k r.
Proof.
  intros Hrun Hr. pose proof (clean_data_not_empty df df' Hrun) as Hne.
  apply clean_data_Ok in Hrun as (a & e & f & _ & _ & _ & _ & _ & _ & ->).
  cbn [rows]. rewrite deduplicated_rows by done.
  eexists. split.
  - rewrite !list_lookup_fmap, Hr. done.
  - intros k Hk Hpres.
    rewrite cell_at_fill3_present; rewrite cell_at_delete_ne; done.
Qed.

(** X6. A frame that has the columns Age and Embarked, no string in Age,
    and no value in Embarked -- in particular a frame without rows -- makes
    [clean_data] raise [IndexError]. *)
Theorem clean_data_no_embarked_raises (df : DataFrame) :
  "Age" ∈ columns df → "Embarked" ∈ columns df →
  (∀ r, r ∈ rows df → is_str (cell_at "Age" r) = false) →
  (∀ r, r ∈ rows df → cell_at "Embarked" r = VNaN) →
  clean_data float_of_str df
  = Raise (IndexError "single positional indexer is out-of-bounds").
Proof.
  intros Ha He Hstr Hemb. unfold clean_data. fold (deduplicated df).
  assert ("Age" ∈ columns (deduplicated df)) as Ha2.
  { by apply (proj2 (deduplicated_columns df "Age")). }
  assert ("Embarked" ∈ columns (deduplicated df)) as He2.
  { by apply (proj2 (deduplicated_columns df "Embarked")). }
  unfold getitem. rewrite (decide_True _ _ Ha2), (decide_True _ _ He2).
  destruct (proj2 (Series_median_Ok_iff
                     (cell_at "Age" <$> rows (deduplicated df))))
    as [a Ha'].
  { apply castable_no_str.
    intros c Hc. assert ("Age" ≠ "Cabin") as Hk by done.
    apply (proj1 (deduplicated_column_elem_of df _ c Hk)) in Hc.
    destruct (proj1 (list_elem_of_fmap _ _ _) Hc) as (r & -> & Hr).
    by apply Hstr. }
  cbn [mbind result_bind]. rewrite Ha'. cbn [mbind result_bind].
  destruct (Series_mode (cell_at "Embarked" <$> rows (deduplicated df)))
    as [|m l] eqn:Hmode; [done|]. exfalso.
  destruct (Series_mode_elem_of _ m
              (eq_ind_r (λ s, m ∈ s) (list_elem_of_here m l) Hmode))
    as (Hmn & Hm & _).
  assert ("Embarked" ≠ "Cabin") as Hk by done.
  apply (proj1 (deduplicated_column_elem_of df _ m Hk)) in Hm.
  destruct (proj1 (list_elem_of_fmap _ _ _) Hm) as (r & -> & Hr).
  by apply Hmn, Hemb.
Qed.

End CleaningFurther.

Lemma clean_data_drops_Cabin_witness :
  ∃ df', clean_data ex_float_of_str ex_embarked_tie = Ok df' ∧
         ("Cabin" ∉ columns df') ∧
         (∀ r, r ∈ rows df' → r !! "Cabin" = None) ∧
         getitem df' "Cabin" = Raise (KeyError "Cabin").
Proof.
  eexists. split; [vm_compute; reflexivity|].
  apply (clean_data_drops_Cabin ex_float_of_str ex_embarked_tie).
  vm_compute. reflexivity.
Defined.

Lemma clean_data_no_missing_witness :
  ∃ df', clean_data ex_float_of_str ex_age_gap = Ok df' ∧
         ∀ r, r ∈ rows df' → cell_at "Embarked" r ≠ VNaN.
Proof.
  eexists. split; [vm_compute; reflexivity|].
  apply (clean_data_no_missing ex_float_of_str ex_age_gap). vm_compute. reflexivity.
Defined.

Lemma clean_data_shape_witness :
  ∃ df', clean_data ex_float_of_str ex_age_gap = Ok df' ∧
         length (rows df') = length (unique_first (rows ex_age_gap)).
Proof.
  eexists. split; [vm_compute; reflexivity|].
  apply (clean_data_shape ex_float_of_str ex_age_gap). vm_compute. reflexivity.
Defined.

Lemma clean_data_keeps_present_values_witness :
  ∃ df', clean_data ex_float_of_str ex_age_gap = Ok df' ∧
    ∃ r', rows df' !! 0%nat = Some r' ∧
          cell_at "Fare" r' = VFloat (Qc_of_Z 1).
Proof.
  assert (∃ d, clean_data ex_float_of_str ex_age_gap = Ok d) as [df' Hrun].
  { eexists. vm_compute. reflexivity. }
  assert (∃ r, unique_first (rows ex_age_gap) !! 0%nat = Some r ∧
               cell_at "Fare" r = VFloat (Qc_of_Z 1)) as (r & Hr & Hfare).
  { eexists. split; vm_compute; reflexivity. }
  destruct (clean_data_keeps_present_values ex_float_of_str ex_age_gap df' 0 r Hrun Hr)
    as (r' & Hr' & Hkeep).
  exists df'. split; [exact Hrun|]. exists r'. split; [exact Hr'|].
  rewrite (Hkeep "Fare"); [exact Hfare|discriminate|].
  left. rewrite Hfare. discriminate.
Defined.

Lemma clean_data_no_embarked_raises_witness :
  clean_data ex_float_of_str {| columns := ["Age"; "Embarked"; "Fare"]; rows := [] |}
  = Raise (IndexError "single positional indexer is out-of-bounds").
Proof.
  apply clean_data_no_embarked_raises; cbn [columns rows].
  - apply list_elem_of_here.
  - apply list_elem_of_further, list_elem_of_here.
  - intros r Hr. by apply elem_of_nil in Hr.
  - intros r Hr. by apply elem_of_nil in Hr.
Defined.

(** The Age column [1, "2", missing] holds a string, an integer beside it,
    and the string spells a number: the frame is cleaned. *)
Lemma clean_data_defined_iff_witness :
  ∃ df', clean_data ex_float_of_str ex_age_text = Ok df'.
Proof.
  apply (proj2 (clean_data_defined_iff ex_float_of_str ex_age_text)).
  split_and!.
  - left.
  - right. left.
  - do 2 right. left.
  - intros s Hs. cbn in Hs.
    repeat (apply elem_of_cons in Hs as [Hs|Hs]; [try discriminate Hs|]);
      [|by apply elem_of_nil in Hs].
    injection Hs as ->. split; [by eexists|].
    exists (VInt 1). split; [left|done].
  - apply castable_no_str. intros c Hc. cbn in Hc.
    repeat (apply elem_of_cons in Hc as [->|Hc]; [done|]).
    by apply elem_of_nil in Hc.
  - eexists. split; [left|]. vm_compute. discriminate.
Defined.

(** ** What load_data and save_data do to the file system *)

Lemma only_new_dirs_refl (p : list string) (fs : FS) : only_new_dirs p fs fs.
Proof. intros q. by left. Qed.

Lemma only_new_dirs_trans (p p' : list string) (fs1 fs2 fs3 : FS) :
  p `prefix_of` p' →
  only_new_dirs p fs1 fs2 → only_new_dirs p' fs2 fs3 →
  only_new_dirs p' fs1 fs3.
Proof.
  intros Hp H12 H23 q.
  destruct (H23 q) as [E23|(N2 & D3 & P3)], (H12 q) as [E12|(N1 & D2 & P2)].
  - left. congruence.
  - right. split_and!; [done|congruence|by etrans].
  - right. split_and!; [congruence|done|done].
  - congruence.
Qed.

(** At a plain path, [os.mkdir] leaves the file system as it was or adds
    the directory where nothing was. *)
Lemma os_mkdir_plain_state (p : list string) (fs : FS) :
  plain p →
  (os_mkdir p fs).2 = fs ∨
  (fs !! p = None ∧ (os_mkdir p fs).2 = <[p := Dir]> fs).
Proof.
  intros Hp. unfold os_mkdir. rewrite plain_has_nul by done.
  destruct (resolve fs p) as [e|q] eqn:Hres; [by left|].
  apply resolve_from_plain in Hres as [-> _]; [|done]. cbn [app].
  destruct (entry fs p) as [x|] eqn:Hentry; [by left|right].
  by destruct (entry_None _ _ Hentry).
Qed.

(** At a plain path, writing a file leaves the file system as it was or
    stores the file where no directory was. *)
Lemma write_text_plain_state (p : list string) (content : string) (fs : FS) :
  plain p →
  (write_text p content fs).2 = fs ∨
  (fs !! p ≠ Some Dir ∧ p ≠ [] ∧
   (write_text p content fs).2 = <[p := File content]> fs).
Proof.
  intros Hp. unfold write_text. rewrite plain_has_nul by done.
  destruct (resolve fs p) as [e|q] eqn:Hres; [by left|].
  apply resolve_from_plain in Hres as [-> _]; [|done]. cbn [app].
  destruct p as [|c p]; [by left|]. cbn [entry].
  destruct (fs !! (c :: p)) as [[|s]|] eqn:Hentry; [by left|by right..].
Qed.

Lemma os_mkdir_only_new_dirs (p : list string) (fs : FS) :
  plain p → only_new_dirs p fs (os_mkdir p fs).2.
Proof.
  intros Hp.
  destruct (os_mkdir_plain_state p fs Hp) as [->|[Hnone ->]];
    [apply only_new_dirs_refl|].
  intros q. destruct (decide (q = p)) as [->|Hne].
  - right. by rewrite lookup_insert_eq.
  - left. by rewrite lookup_insert_ne.
Qed.

Lemma Path_mkdir_exist_ok_state (p : list string) (fs : FS) :
  (Path_mkdir_exist_ok p fs).2 = (os_mkdir p fs).2.
Proof.
  unfold Path_mkdir_exist_ok.
  destruct (os_mkdir p fs) as [[u|e] fs']; [done|].
  by repeat case_match.
Qed.

Lemma Path_mkdir_rev_only_new_dirs (rp : list string) (fs : FS) :
  plain (rev rp) → only_new_dirs (rev rp) fs (Path_mkdir_rev rp fs).2.
Proof.
  revert fs. induction rp as [|c rp IH]; intros fs Hplain.
  - cbn [Path_mkdir_rev].
    pose proof (os_mkdir_only_new_dirs (rev []) fs Hplain) as Hos.
    destruct (os_mkdir (rev []) fs) as [[u|e] fs'] eqn:Hrun; [done|].
    by repeat case_match.
  - assert (plain (rev rp)) as Hplain'.
    { simpl in Hplain. by apply plain_app in Hplain as [? _]. }
    cbn [Path_mkdir_rev].
    pose proof (os_mkdir_only_new_dirs (rev (c :: rp)) fs Hplain) as Hos.
    destruct (os_mkdir (rev (c :: rp)) fs) as [[u|e] fs'] eqn:Hrun; [done|].
    destruct (is_FileNotFoundError e); [|by repeat case_match].
    rewrite state_bind_eq. specialize (IH fs' Hplain').
    destruct (Path_mkdir_rev rp fs') as [[u|e'] fs1] eqn:Hrec.
    + rewrite Path_mkdir_exist_ok_state.
      apply (only_new_dirs_trans (rev (c :: rp)) _ fs fs'); [done|done|].
      apply (only_new_dirs_trans (rev rp) _ fs' fs1);
        [by apply prefix_app_r|done|].
      by apply os_mkdir_only_new_dirs.
    + apply (only_new_dirs_trans (rev (c :: rp)) _ fs fs'); [done|done|].
      intros q. destruct (IH q) as [?|(? & ? & ?)]; [by left|right].
      split_and!; [done|done|]. by apply prefix_app_r.
Qed.

(** What [exists] sees at a plain path is the entry there, reached through
    directories. *)
Lemma lookup_node_plain_inv (fs : FS) (p : list string) (n : node) :
  plain p → lookup_node fs p = Some n →
  entry fs p = Some n ∧
  ∀ l, l `prefix_of` p → l ≠ [] → l ≠ p → entry fs l = Some Dir.
Proof.
  intros Hp [_ Hstat]%lookup_node_Some. unfold os_stat, resolve in Hstat.
  destruct (resolve_from fs [] p) as [e|q] eqn:Hres; [done|].
  apply resolve_from_plain in Hres as [-> Hdirs]; [|done].
  cbn [app] in *. split; [|done].
  destruct (entry fs p); by simplify_eq.
Qed.

Lemma lookup_node_plain_intro (fs : FS) (p : list string) (n : node) :
  plain p → entry fs p = Some n →
  (∀ l, l `prefix_of` p → l ≠ [] → l ≠ p → entry fs l = Some Dir) →
  lookup_node fs p = Some n.
Proof.
  intros Hp Hentry Hdirs. unfold lookup_node, os_stat, resolve.
  rewrite plain_has_nul, (resolve_from_plain_dirs fs [] p Hp) by done.
  cbn [app]. by rewrite Hentry.
Qed.

Section DataProcessingFurther.
Variable BASE_DIR : list string.
Variable parse_csv : string → result DataFrame.
Variable format_csv : DataFrame → bool → string.

(** X7. [load_data] never changes the file system, whatever it returns or
    raises. *)
Theorem load_data_leaves_fs (file_name data_type : string) (fs : FS) :
  (load_data BASE_DIR parse_csv file_name data_type fs).2 = fs.
Proof.
  unfold load_data. rewrite state_bind_eq, _validate_csv_file_eq.
  set (p := path_div _ file_name).
  destruct (lookup_node fs (path_parent p)) as [x|]; [|done].
  destruct (lookup_node fs p) as [[|s]|] eqn:Hp; try done.
  - by rewrite state_bind_eq, (read_csv_dir parse_csv _ _ Hp).
  - assert (∀ r : result (), (match r, fs with
                               | Ok _, st' =>
                                   (read_csv parse_csv p ≫= mret) st'
                               | Raise e, st' => (Raise e, st')
                               end).2 = fs) as Hall.
    { intros [u|e]; [|done].
      rewrite state_bind_eq, (read_csv_file parse_csv _ _ _ Hp).
      by destruct (parse_csv s). }
    destruct s as [|c s]; [done|]. apply (Hall (Ok ())).
Qed.

(** The file system after [to_csv] at a plain path. *)
Lemma to_csv_plain_state (df : DataFrame) (p : list string) (index : bool)
    (fs : FS) :
  plain p →
  (to_csv format_csv df p index fs).2 = fs ∨
  (fs !! p ≠ Some Dir ∧ p ≠ [] ∧
   (to_csv format_csv df p index fs).2
   = <[p := File (format_csv df index)]> fs).
Proof.
  intros Hp. unfold to_csv. rewrite state_bind_eq. unfold Path_is_dir.
  destruct (bool_decide _); cbn [negb]; [|by left].
  by apply write_text_plain_state.
Qed.

(** X8. For a path without [..] and null characters, whatever [save_data]
    returns or raises, it never removes or replaces an entry other than the
    target file: every other path is as before, or was absent and is now a
    directory on the way to the destination directory. *)
Theorem save_data_only_adds (df : DataFrame) (file_name data_type : string)
    (fs : FS) (q : list string) :
  let file_path := save_path BASE_DIR file_name data_type in
  let fs' := (save_data BASE_DIR format_csv df file_name data_type fs).2 in
  plain file_path →
  q ≠ file_path →
  fs' !! q = fs !! q ∨
  (fs !! q = None ∧ fs' !! q = Some Dir ∧
   q `prefix_of` path_parent file_path).
Proof.
  intros file_path fs' Hplain Hq. unfold fs', save_data.
  fold (save_path BASE_DIR file_name data_type). fold file_path.
  destruct (df_empty df); [by left|].
  rewrite state_bind_eq. unfold Path_mkdir_parents.
  pose proof (Path_mkdir_rev_only_new_dirs (rev (path_parent file_path)) fs)
    as Hmk.
  rewrite rev_involutive in Hmk. specialize (Hmk (plain_parent _ Hplain)).
  destruct (Path_mkdir_rev _ fs) as [[u|e] fs1]; [|apply Hmk].
  cbn [snd] in Hmk.
  destruct (to_csv_plain_state df file_path false fs1 Hplain)
    as [->|(_ & _ & ->)]; [apply Hmk|].
  rewrite lookup_insert_ne by done. apply Hmk.
Qed.


(** What [save_data] at a plain path leaves of an entry, in every outcome:
    a directory stays, a file other than the target stays, and the target
    stays an entry. *)
Lemma save_data_preserves (df : DataFrame) (file_name data_type : string)
    (fs : FS) (q : list string) (x : node) :
  let file_path := save_path BASE_DIR file_name data_type in
  let fs' := (save_data BASE_DIR format_csv df file_name data_type fs).2 in
  plain file_path →
  fs !! q = Some x →
  is_Some (fs' !! q) ∧ (x = Dir ∨ q ≠ file_path → fs' !! q = Some x).
Proof.
  intros file_path fs' Hplain Hq. unfold fs', save_data.
  fold (save_path BASE_DIR file_name data_type). fold file_path.
  destruct (df_empty df); [by split; [eexists|]|].
  rewrite state_bind_eq. unfold Path_mkdir_parents.
  pose proof (Path_mkdir_rev_only_new_dirs (rev (path_parent file_path)) fs)
    as Hmk.
  rewrite rev_involutive in Hmk.
  specialize (Hmk (plain_parent _ Hplain) q).
  destruct (Path_mkdir_rev _ fs) as [[u|e] fs1]; cbn [snd] in Hmk;
    destruct Hmk as [Hmk|(Hnone & _)]; try congruence;
    rewrite Hq in Hmk.
  2: { by split; [eexists|]. }
  destruct (to_csv_plain_state df file_path false fs1 Hplain)
    as [->|(Hdir & _ & ->)]; [by split; [eexists|]|].
  destruct (decide (q = file_path)) as [->|Hne].
  - rewrite lookup_insert_eq. split; [by eexists|].
    intros [->|?]; [|done]. congruence.
  - rewrite lookup_insert_ne by done. by split; [eexists|].
Qed.

(** Loading a non-empty file that lies in an existing directory. *)
Lemma load_data_file (file_name data_type s : string) (fs : FS) :
  let file_path := load_path BASE_DIR file_name data_type in
  is_Some (lookup_node fs (path_parent file_path)) →
  lookup_node fs file_path = Some (File s) → s ≠ "" →
  load_data BASE_DIR parse_csv file_name data_type fs = (parse_csv s, fs).
Proof.
  intros file_path [x Hpar] Hfile Hs. unfold load_data.
  fold (load_path BASE_DIR file_name data_type). fold file_path.
  rewrite state_bind_eq, _validate_csv_file_eq, Hpar, Hfile.
  destruct s as [|c s]; [done|].
  rewrite state_bind_eq, (read_csv_file parse_csv _ _ _ Hfile).
  by destruct (parse_csv _).
Qed.

(** What [exists] sees at a plain path other than the target is seen
    after [save_data] at a plain path as well, in every outcome. *)
Lemma save_data_keeps_lookup (df : DataFrame) (file_name data_type : string)
    (fs : FS) (p : list string) (n : node) :
  let file_path := save_path BASE_DIR file_name data_type in
  let fs' := (save_data BASE_DIR format_csv df file_name data_type fs).2 in
  plain file_path → plain p →
  lookup_node fs p = Some n →
  is_Some (lookup_node fs' p) ∧
  (n = Dir ∨ p ≠ file_path → lookup_node fs' p = Some n).
Proof.
  intros file_path fs' Hplain Hp Hlook.
  apply lookup_node_plain_inv in Hlook as [Hentry Hdirs]; [|done].
  assert (∀ l y, entry fs l = Some y →
            is_Some (entry fs' l) ∧
            (y = Dir ∨ l ≠ file_path → entry fs' l = Some y)) as Hkeep.
  { intros l y Hl. destruct l as [|c l].
    - cbn [entry] in *. by split; [eexists|].
    - cbn [entry] in *.
      by apply (save_data_preserves df file_name data_type fs). }
  assert (∀ l, l `prefix_of` p → l ≠ [] → l ≠ p → entry fs' l = Some Dir)
    as Hdirs'.
  { intros l Hl1 Hl2 Hl3. apply (Hkeep l Dir); [by apply Hdirs|by left]. }
  destruct (Hkeep p n Hentry) as [[y Hy] Hsame]. split.
  - exists y. by apply lookup_node_plain_intro.
  - intros Hcase. apply lookup_node_plain_intro; auto.
Qed.

(** X10. For paths without [..] and null characters, a file that
    [load_data] loads is loaded with the same result after any call of
    [save_data] that does not write that very path, whether the call
    returns or raises. *)
Theorem load_data_after_save_data (df d : DataFrame)
    (name1 type1 name2 type2 : string) (fs fs0 : FS) :
  let fs' := (save_data BASE_DIR format_csv df name2 type2 fs).2 in
  plain (load_path BASE_DIR name1 type1) →
  plain (save_path BASE_DIR name2 type2) →
  load_data BASE_DIR parse_csv name1 type1 fs = (Ok d, fs0) →
  load_path BASE_DIR name1 type1 ≠ save_path BASE_DIR name2 type2 →
  load_data BASE_DIR parse_csv name1 type1 fs' = (Ok d, fs').
Proof.
  intros fs' Hplain1 Hplain2. unfold load_data.
  fold (load_path BASE_DIR name1 type1).
  set (p := load_path _ name1 type1) in *.
  rewrite !state_bind_eq, !_validate_csv_file_eq. intros Hload Hne.
  destruct (lookup_node fs (path_parent p)) as [x0|] eqn:Hpar; [|done].
  destruct (lookup_node fs p) as [y|] eqn:Hp; [|done].
  assert (∃ s, y = File s ∧ s ≠ "" ∧ parse_csv s = Ok d) as (s & -> & Hs & Hd).
  { destruct y as [|s].
    - by rewrite state_bind_eq, (read_csv_dir parse_csv _ _ Hp) in Hload.
    - destruct s as [|c s]; [done|]. eexists. split; [done|].
      split; [done|].
      rewrite state_bind_eq, (read_csv_file parse_csv _ _ _ Hp) in Hload.
      destruct (parse_csv _) as [d0|e]; [|done].
      unfold mret, state_exn_ret in Hload. by simplify_eq. }
  assert (lookup_node fs' p = Some (File s)) as Hp'.
  { apply (save_data_keeps_lookup df name2 type2 fs p (File s)); auto. }
  assert (is_Some (lookup_node fs' (path_parent p))) as [x0' Hpar'].
  { apply (save_data_keeps_lookup df name2 type2 fs (path_parent p) x0);
      auto using plain_parent. }
  rewrite Hpar', Hp'. destruct s as [|c s]; [done|].
  rewrite state_bind_eq, (read_csv_file parse_csv _ _ _ Hp').
  by rewrite Hd.
Qed.

(** X11. With an absolute file name, [load_data] and [save_data] ignore
    the data directories: the path is the file name itself, whatever the
    kind of data and the base directory. *)
Theorem absolute_name_ignores_data_dir (BASE_DIR' : list string)
    (df : DataFrame) (file_name type1 type2 : string) (fs : FS) :
  is_absolute file_name = true →
  load_data BASE_DIR parse_csv file_name type1 fs
  = load_data BASE_DIR' parse_csv file_name type2 fs ∧
  save_data BASE_DIR format_csv df file_name type1 fs
  = save_data BASE_DIR' format_csv df file_name type2 fs ∧
  load_path BASE_DIR file_name type1 = path_parts file_name ∧
  save_path BASE_DIR file_name type1 = path_parts file_name.
Proof.
  intros Habs. unfold load_data, save_data, load_path, save_path, path_div.
  by rewrite Habs.
Qed.
End DataProcessingFurther.

Lemma save_data_only_adds_witness :
  (save_data ["repo"] ex_format_csv ex_train "out.csv" "processed" ex_fs).2
    !! ["repo"; "data"; "raw"; "train.csv"]
  = ex_fs !! ["repo"; "data"; "raw"; "train.csv"].
Proof.
  destruct (save_data_only_adds ["repo"] ex_format_csv ex_train "out.csv"
              "processed" ex_fs ["repo"; "data"; "raw"; "train.csv"])
    as [Hsame|(Hnone & _)].
  - repeat constructor; discriminate.
  - vm_compute. discriminate.
  - exact Hsame.
  - vm_compute in Hnone. discriminate Hnone.
Defined.


Lemma load_data_after_save_data_witness :
  load_data ["repo"] ex_parse_csv "train.csv" "raw"
    (save_data ["repo"] ex_format_csv ex_train "out.csv" "processed" ex_fs).2
  = (Ok ex_no_columns,
     (save_data ["repo"] ex_format_csv ex_train "out.csv" "processed"
        ex_fs).2).
Proof.
  assert (load_data ["repo"] ex_parse_csv "train.csv" "raw" ex_fs
          = (Ok ex_no_columns, ex_fs)) as Hload.
  { apply (load_data_file ["repo"] ex_parse_csv "train.csv" "raw" "Sex,Age").
    - exists Dir. vm_compute. reflexivity.
    - vm_compute. reflexivity.
    - discriminate. }
  assert (load_path ["repo"] "train.csv" "raw"
          ≠ save_path ["repo"] "out.csv" "processed") as Hne.
  { vm_compute. discriminate. }
  assert (plain (load_path ["repo"] "train.csv" "raw")) as Hplain1.
  { repeat constructor; discriminate. }
  assert (plain (save_path ["repo"] "out.csv" "processed")) as Hplain2.
  { repeat constructor; discriminate. }
  pose proof (load_data_after_save_data ["repo"] ex_parse_csv ex_format_csv
                ex_train ex_no_columns "train.csv" "raw" "out.csv"
                "processed" ex_fs ex_fs) as Hthm.
  cbv zeta in Hthm. exact (Hthm Hplain1 Hplain2 Hload Hne).
Defined.

Lemma absolute_name_ignores_data_dir_witness :
  load_data ["repo"] ex_parse_csv "/tmp/train.csv" "raw" ex_fs
  = load_data ["elsewhere"] ex_parse_csv "/tmp/train.csv" "processed" ex_fs.
Proof.
  apply (absolute_name_ignores_data_dir ["repo"] ex_parse_csv ex_format_csv
           ["elsewhere"] ex_train "/tmp/train.csv" "raw" "processed" ex_fs).
  reflexivity.
Defined.

(** ** generate_features: the derived columns *)

Lemma wrap64_add_1 (z : Z) : wrap64 (wrap64 z + 1) = wrap64 (z + 1).
Proof.
  unfold wrap64. f_equal.
  replace ((z + 2 ^ 63) mod 2 ^ 64 - 2 ^ 63 + 1 + 2 ^ 63)
    with ((z + 2 ^ 63) mod 2 ^ 64 + 1) by lia.
  rewrite Zplus_mod_idemp_l. f_equal. lia.
Qed.

Lemma wrap64_small (z : Z) : - 2 ^ 63 ≤ z < 2 ^ 63 → wrap64 z = z.
Proof. intros Hz. unfold wrap64. rewrite Z.mod_small; lia. Qed.

Lemma Q2Qc_inject_Z_inj (a b : Z) :
  Q2Qc (inject_Z a) = Q2Qc (inject_Z b) ↔ a = b.
Proof.
  split; [|by intros ->]. intros Heq%Q2Qc_eq_iff.
  unfold Qeq, inject_Z in Heq. simpl in Heq. lia.
Qed.

Lemma Series_add_lookup (a b v : list cell) (i : nat) (x y : cell) :
  Series_add a b = Ok v → a !! i = Some x → b !! i = Some y →
  ∃ z, cell_add x y = Ok z ∧ v !! i = Some z.
Proof.
  revert b v i. induction a as [|x0 a IH]; intros [|y0 b] v i; try done.
  cbn [Series_add].
  intros (z0 & Hz0 & (vs & Hvs & [= <-])%result_bind_Ok)%result_bind_Ok.
  destruct i as [|i]; simpl.
  - intros [= <-] [= <-]. eauto.
  - intros Hx Hy. by apply (IH b vs i).
Qed.

Lemma Series_add_length (a b v : list cell) :
  Series_add a b = Ok v → length v = Nat.min (length a) (length b).
Proof.
  revert b v. induction a as [|x0 a IH]; intros [|y0 b] v;
    try (by intros [= <-]).
  cbn [Series_add].
  intros (z0 & Hz0 & (vs & Hvs & [= <-])%result_bind_Ok)%result_bind_Ok.
  simpl. f_equal. by apply IH.
Qed.

Lemma pd_cut_lookup (bins : list Qc) (labels : list string)
    (s v : list cell) :
  pd_cut bins labels s = Ok v →
  length v = length s ∧
  ∀ i c, s !! i = Some c →
         ∃ o, cell_num c = Some o ∧
              v !! i = Some (match o with
                             | Some x => cut_bin bins labels x
                             | None => VNaN
                             end).
Proof.
  revert v. induction s as [|c0 s IH]; intros v.
  - intros [= <-]. split; [done|]. by intros i c.
  - cbn [pd_cut]. destruct (cell_num c0) as [o0|] eqn:Hc0; [|done].
    intros (vs & Hvs & [= <-])%result_bind_Ok.
    destruct (IH vs Hvs) as [Hlen Hall]. split; [simpl; by f_equal|].
    intros [|i] c; simpl.
    + intros [= <-]. eauto.
    + apply Hall.
Qed.

(** The value a successful run gives the columns it adds. *)
Lemma generate_features_steps (df df' : DataFrame) :
  generate_features df = Ok df' →
  ∃ sibsp parch family0 family age agebin,
    getitem df "SibSp" = Ok sibsp ∧ getitem df "Parch" = Ok parch ∧
    Series_add sibsp parch = Ok family0 ∧
    Series_add family0 ((λ _, VInt 1) <$> family0) = Ok family ∧
    getitem df "Age" = Ok age ∧ pd_cut age_bins age_labels age = Ok agebin ∧
    getitem df' "FamilySize" = Ok family ∧
    getitem df' "IsAlone" = Ok (cell_eq_int 1 <$> family) ∧
    getitem df' "AgeBin" = Ok agebin.
Proof.
  unfold generate_features. intros Hrun.
  repeat (apply result_bind_Ok in Hrun as (? & ? & Hrun)).
  simplify_eq.
  repeat match goal with
         | H : Series_str_extract_title _ = Ok _ |- _ =>
             apply (proj1 (Series_str_extract_title_Ok _ _)) in H as [_ ->]
         end.
  repeat match goal with
         | H : setitem _ _ _ = Ok _ |- _ =>
             apply setitem_Ok_spec in H as [? ?]
         end.
  repeat match goal with
         | H : ∀ c', c' ≠ ?c → getitem ?d c' = getitem _ c' |- _ =>
             rewrite !H in * by done; clear H
         end.
  eexists _, _, _, _, _, _. split_and!; try done; congruence.
Qed.

Lemma generate_features_other_column (df df' : DataFrame) (c : string) :
  generate_features df = Ok df' →
  c ∉ ["FamilySize"; "IsAlone"; "Title"; "AgeBin"; "FareBin"] →
  getitem df' c = getitem df c.
Proof.
  unfold generate_features. intros Hrun Hc.
  assert (c ≠ "FamilySize" ∧ c ≠ "IsAlone" ∧ c ≠ "Title" ∧ c ≠ "AgeBin"
          ∧ c ≠ "FareBin") as (? & ? & ? & ? & ?).
  { split_and!; intros ->; apply Hc; repeat constructor. }
  repeat (apply result_bind_Ok in Hrun as (? & ? & Hrun)).
  simplify_eq.
  repeat match goal with
         | H : Series_str_extract_title _ = Ok _ |- _ =>
             apply (proj1 (Series_str_extract_title_Ok _ _)) in H as [_ ->]
         end.
  repeat match goal with
         | H : setitem _ _ _ = Ok _ |- _ =>
             apply setitem_Ok_spec in H as [_ ?]
         end.
  repeat match goal with
         | H : ∀ c', c' ≠ ?c0 → getitem ?d c' = getitem _ c' |- _ =>
             rewrite (H c) by done; clear H
         end.
  done.
Qed.

(** X12. In the result of [generate_features], a row whose SibSp and Parch
    are the integers [s] and [p] has FamilySize [s + p + 1] in 64-bit
    arithmetic, and IsAlone 1 when that is 1 and 0 otherwise; when
    [s + p + 1] fits 64 bits, FamilySize is [s + p + 1] and IsAlone is 1
    exactly when [s + p = 0]. *)
Theorem generate_features_family_size (df df' : DataFrame) :
  generate_features df = Ok df' →
  ∃ sibsp parch family alone,
    getitem df "SibSp" = Ok sibsp ∧ getitem df "Parch" = Ok parch ∧
    getitem df' "FamilySize" = Ok family ∧
    getitem df' "IsAlone" = Ok alone ∧
    ∀ i s p,
      sibsp !! i = Some (VInt s) → parch !! i = Some (VInt p) →
      family !! i = Some (VInt (wrap64 (s + p + 1))) ∧
      alone !! i
      = Some (VInt (if decide (wrap64 (s + p + 1) = 1) then 1 else 0)) ∧
      (- 2 ^ 63 ≤ s + p + 1 < 2 ^ 63 →
       family !! i = Some (VInt (s + p + 1)) ∧
       alone !! i = Some (VInt (if decide (s + p = 0) then 1 else 0))).
Proof.
  intros Hrun.
  destruct (generate_features_steps df df' Hrun)
    as (sibsp & parch & family0 & family & age & agebin & Hsib & Hpar
        & Hadd0 & Hadd & _ & _ & Hfam & Halone & _).
  exists sibsp, parch, family, (cell_eq_int 1 <$> family).
  split_and!; try done. intros i s p Hs Hp.
  destruct (Series_add_lookup _ _ _ i _ _ Hadd0 Hs Hp) as (z0 & Hz0 & Hi0).
  cbn [cell_add] in Hz0. injection Hz0 as <-.
  destruct (Series_add_lookup _ _ _ i (VInt (wrap64 (s + p))) (VInt 1) Hadd)
    as (z & Hz & Hi); [done|by rewrite list_lookup_fmap, Hi0|].
  cbn [cell_add] in Hz. injection Hz as <-.
  rewrite wrap64_add_1 in Hi.
  assert ((cell_eq_int 1 <$> family) !! i
          = Some (VInt (if decide (wrap64 (s + p + 1) = 1) then 1 else 0)))
    as Hal.
  { rewrite list_lookup_fmap, Hi. cbn [fmap option_fmap option_map].
    unfold cell_eq_int. cbn [cell_num].
    destruct (decide (wrap64 (s + p + 1) = 1)) as [->|Hne].
    - by rewrite decide_True.
    - rewrite decide_False; [done|]. by rewrite Q2Qc_inject_Z_inj. }
  split_and!; [done|done|]. intros Hrange.
  rewrite Hi, Hal, (wrap64_small _ Hrange). split; [done|].
  repeat case_decide; try done; lia.
Qed.

Lemma generate_features_family_size_witness :
  ∃ df' family alone,
    generate_features ex_passengers = Ok df' ∧
    getitem df' "FamilySize" = Ok family ∧
    getitem df' "IsAlone" = Ok alone ∧
    family !! 0%nat = Some (VInt 2) ∧ alone !! 0%nat = Some (VInt 0) ∧
    family !! 1%nat = Some (VInt 1) ∧ alone !! 1%nat = Some (VInt 1).
Proof.
  destruct (generate_features ex_passengers) as [df'|] eqn:Hrun;
    [|by vm_compute in Hrun].
  destruct (generate_features_family_size ex_passengers df' Hrun)
    as (sibsp & parch & family & alone & Hsib & Hpar & Hfam & Hal & Hrows).
  vm_compute in Hsib. injection Hsib as <-.
  vm_compute in Hpar. injection Hpar as <-.
  exists df', family, alone. split_and!; [done|done|done|..].
  - apply (Hrows 0%nat 1 0); [reflexivity|reflexivity|lia].
  - apply (Hrows 0%nat 1 0); [reflexivity|reflexivity|lia].
  - apply (Hrows 1%nat 0 0); [reflexivity|reflexivity|lia].
  - apply (Hrows 1%nat 0 0); [reflexivity|reflexivity|lia].
Defined.

Ltac Qc_order :=
  unfold Qclt, Qcle, Qc_of_Z in *; cbn [this Q2Qc] in *;
  repeat match goal with
         | H : context [Qred (inject_Z ?z)] |- _ =>
             let v := eval vm_compute in (Qred (inject_Z z)) in
             change (Qred (inject_Z z)) with v in H
         | |- context [Qred (inject_Z ?z)] =>
             let v := eval vm_compute in (Qred (inject_Z z)) in
             change (Qred (inject_Z z)) with v
         end;
  lra.

(** The label [pd.cut] gives a number with the bins of [generate_features]:
    the intervals are open on the left and closed on the right, and a number
    outside (0, 100] gets no label. *)
Lemma cut_bin_age (x : Qc) :
  let b := cut_bin age_bins age_labels x in
  ((Qc_of_Z 0 < x ≤ Qc_of_Z 12)%Qc → b = VStr "Child") ∧
  ((Qc_of_Z 12 < x ≤ Qc_of_Z 18)%Qc → b = VStr "Teenager") ∧
  ((Qc_of_Z 18 < x ≤ Qc_of_Z 35)%Qc → b = VStr "Adult") ∧
  ((Qc_of_Z 35 < x ≤ Qc_of_Z 60)%Qc → b = VStr "Middle") ∧
  ((Qc_of_Z 60 < x ≤ Qc_of_Z 100)%Qc → b = VStr "Senior") ∧
  ((x ≤ Qc_of_Z 0 ∨ Qc_of_Z 100 < x)%Qc → b = VNaN).
Proof.
  intros b. unfold b, age_bins, age_labels.
  cbn [fmap list_fmap cut_bin].
  repeat case_decide; split_and!; intros; try done; exfalso;
    repeat match goal with
           | H : _ ∧ _ |- _ => destruct H
           | H : _ ∨ _ |- _ => destruct H
           end;
    try Qc_order.
Qed.

(** X13. In the result of [generate_features] the AgeBin of a row is Child
    for an age in (0, 12], Teenager in (12, 18], Adult in (18, 35], Middle
    in (35, 60], Senior in (60, 100], and missing for an age that is missing
    or outside (0, 100]. *)
Theorem generate_features_age_bin (df df' : DataFrame) :
  generate_features df = Ok df' →
  ∃ age agebin,
    getitem df "Age" = Ok age ∧ getitem df' "AgeBin" = Ok agebin ∧
    length agebin = length age ∧
    ∀ i c, age !! i = Some c →
      ∃ b, agebin !! i = Some b ∧
        match cell_num c with
        | Some (Some x) =>
            ((Qc_of_Z 0 < x ≤ Qc_of_Z 12)%Qc → b = VStr "Child") ∧
            ((Qc_of_Z 12 < x ≤ Qc_of_Z 18)%Qc → b = VStr "Teenager") ∧
            ((Qc_of_Z 18 < x ≤ Qc_of_Z 35)%Qc → b = VStr "Adult") ∧
            ((Qc_of_Z 35 < x ≤ Qc_of_Z 60)%Qc → b = VStr "Middle") ∧
            ((Qc_of_Z 60 < x ≤ Qc_of_Z 100)%Qc → b = VStr "Senior") ∧
            ((x ≤ Qc_of_Z 0 ∨ Qc_of_Z 100 < x)%Qc → b = VNaN)
        | _ => b = VNaN
        end.
Proof.
  intros Hrun.
  destruct (generate_features_steps df df' Hrun)
    as (sibsp & parch & family0 & family & age & agebin & _ & _
        & _ & _ & Hage & Hcut & _ & _ & Hbin).
  exists age, agebin. destruct (pd_cut_lookup _ _ _ _ Hcut) as [Hlen Hall].
  split_and!; try done. intros i c Hc.
  destruct (Hall i c Hc) as (o & Ho & Hi). eexists. split; [exact Hi|].
  rewrite Ho. destruct o as [x|]; [|done]. apply cut_bin_age.
Qed.

Lemma generate_features_age_bin_witness :
  ∃ df' agebin,
    generate_features ex_passengers = Ok df' ∧
    getitem df' "AgeBin" = Ok agebin ∧
    agebin !! 1%nat = Some (VStr "Senior").
Proof.
  destruct (generate_features ex_passengers) as [df'|] eqn:Hrun;
    [|by vm_compute in Hrun].
  destruct (generate_features_age_bin ex_passengers df' Hrun)
    as (age & agebin & Hage & Hbin & _ & Hrows).
  vm_compute in Hage. injection Hage as <-.
  exists df', agebin. split_and!; [done|done|].
  destruct (Hrows 1%nat _ eq_refl) as (b & Hb & Hspec).
  cbn [cell_num] in Hspec. destruct Hspec as (_ & _ & _ & _ & Hsenior & _).
  rewrite Hb, Hsenior; [done|]. split; by vm_compute.
Defined.

(** X14. [generate_features] keeps the rows and columns of its input: the
    result has as many rows, its columns are those of the input and the
    five new ones, and every column other than the five new ones holds the
    values it held. *)
Theorem generate_features_keeps_columns (df df' : DataFrame) :
  generate_features df = Ok df' →
  let new := ["FamilySize"; "IsAlone"; "Title"; "AgeBin"; "FareBin"] in
  length (rows df') = length (rows df) ∧
  (∀ c, c ∈ columns df' ↔ c ∈ columns df ∨ c ∈ new) ∧
  (∀ c, c ∉ new → getitem df' c = getitem df c).
Proof.
  intros Hrun new.
  destruct (generate_features_steps df df' Hrun)
    as (sibsp & parch & family0 & family & age & agebin & Hsib & _
        & _ & _ & _ & _ & Hfam & Halone & Hbin).
  destruct (generate_features_Ok df df' Hrun)
    as (name & fare & q & _ & _ & _ & Htitle & Hfare).
  assert (∀ c, c ∉ new → getitem df' c = getitem df c) as Hother.
  { intros c Hc. by apply generate_features_other_column. }
  assert (∀ d c, c ∈ columns d ↔ ∃ vs, getitem d c = Ok vs) as Hcol.
  { intros d c. unfold getitem. case_decide; split; try done; eauto.
    by intros [? ?]. }
  split_and!; [|  |done].
  - rewrite <- (getitem_length df' "SibSp" sibsp),
      <- (getitem_length df "SibSp" sibsp); [done|done|].
    rewrite Hother; [done|]. unfold new. not_in_list.
  - intros c. destruct (decide (c ∈ new)) as [Hin|Hnotin].
    + split; [by right|]. intros _. apply Hcol. unfold new in Hin.
      repeat (apply elem_of_cons in Hin as [->|Hin]; [by eexists|]).
      by apply elem_of_nil in Hin.
    + rewrite !Hcol, Hother by done. split; [by left|].
      by intros [?|?].
Qed.

Lemma generate_features_keeps_columns_witness :
  ∃ df', generate_features ex_passengers = Ok df' ∧
         length (rows df') = length (rows ex_passengers) ∧
         getitem df' "Name" = getitem ex_passengers "Name".
Proof.
  destruct (generate_features ex_passengers) as [df'|] eqn:Hrun;
    [|by vm_compute in Hrun].
  destruct (generate_features_keeps_columns ex_passengers df' Hrun)
    as (Hlen & _ & Hother).
  exists df'. split_and!; [done|done|]. apply Hother. not_in_list.
Defined.

(** X15. [_group_titles] is idempotent: no title it produces is one it
    replaces. *)
Theorem group_titles_idempotent (titles : list cell) :
  _group_titles (_group_titles titles) = _group_titles titles.
Proof.
  unfold _group_titles, Series_replace. rewrite <- list_fmap_compose.
  apply list_fmap_ext. intros i c _. cbn.
  destruct c as [t| | |]; try done.
  pose proof (title_mapping_spec t) as Ht.
  destruct (title_mapping !! t) as [t'|] eqn:Hlook; [|by rewrite Hlook].
  cbn in Ht. subst t'.
  pose proof (title_mapping_spec (normalize_title_spec t)) as Ht'.
  assert (normalize_title_spec (normalize_title_spec t)
          = normalize_title_spec t) as Hidem.
  { unfold normalize_title_spec at 2 3.
    repeat case_bool_decide; try by vm_compute.
    unfold normalize_title_spec.
    by rewrite !bool_decide_eq_false_2 by done. }
  rewrite Hidem in Ht'.
  destruct (title_mapping !! normalize_title_spec t) as [t''|]; [|done].
  cbn in Ht'. by subst t''.
Qed.

Lemma cell_add_total (x y : cell) :
  is_str x = false → is_str y = false →
  ∃ z, cell_add x y = Ok z ∧ is_str z = false.
Proof. destruct x, y; try done; intros _ _; cbn; eauto. Qed.

Lemma Series_add_total (a b : list cell) :
  (∀ x, x ∈ a → is_str x = false) → (∀ y, y ∈ b → is_str y = false) →
  ∃ v, Series_add a b = Ok v ∧ ∀ z, z ∈ v → is_str z = false.
Proof.
  revert b. induction a as [|x a IH]; intros [|y b] Ha Hb;
    try (exists []; split; [done|]; by intros z ?%elem_of_nil).
  destruct (cell_add_total x y) as (z & Hz & Hzs).
  { apply Ha. left. } { apply Hb. left. }
  destruct (IH b) as (v & Hv & Hvs).
  { intros x' Hx'. apply Ha. by right. }
  { intros y' Hy'. apply Hb. by right. }
  exists (z :: v). cbn [Series_add]. rewrite Hz. cbn [mbind result_bind].
  rewrite Hv. split; [done|].
  intros z' [->|Hz']%elem_of_cons; [done|by apply Hvs].
Qed.

Lemma pd_cut_total (bins : list Qc) (labels : list string) (s : list cell) :
  (∀ c, c ∈ s → is_str c = false) → ∃ v, pd_cut bins labels s = Ok v.
Proof.
  induction s as [|c s IH]; intros Hs; [by exists []|].
  destruct IH as [v Hv]. { intros c' Hc'. apply Hs. by right. }
  cbn [pd_cut]. rewrite Hv.
  specialize (Hs c (list_elem_of_here _ _)).
  destruct c; try done; cbn; eauto.
Qed.

Lemma np_quantile_total (s : list cell) (qs : list Qc) :
  s ≠ [] → (∀ c, c ∈ s → is_str c = false) → ∃ q, np_quantile s qs = Ok q.
Proof.
  intros Hne Hs. destruct (proj2 (numeric_values_Ok_iff s) Hs) as [xs Hxs].
  unfold np_quantile. destruct s as [|c s]; [done|]. rewrite Hxs.
  cbn [mbind result_bind]. case_bool_decide; eauto.
Qed.

Lemma setitem_step (d : DataFrame) (c : string) (vs : list cell) :
  length vs = length (rows d) →
  ∃ d', setitem d c vs = Ok d' ∧ length (rows d') = length (rows d) ∧
        getitem d' c = Ok vs ∧ ∀ c', c' ≠ c → getitem d' c' = getitem d c'.
Proof.
  intros Hlen.
  destruct (setitem d c vs) as [d'|e] eqn:Hset.
  - exists d'. destruct (setitem_Ok_spec d d' c vs Hset) as [Hget Hother].
    split_and!; try done.
    unfold setitem in Hset. rewrite decide_True in Hset by done.
    injection Hset as <-. cbn [rows]. by rewrite length_zip_with_l_eq.
  - unfold setitem in Hset. by rewrite decide_True in Hset.
Qed.

(** X16. [generate_features] returns a frame for every input that has the
    columns SibSp, Parch, Name, Age and Fare, a string in at least one cell
    of Name, and no string in SibSp, Parch, Age and Fare. *)
Theorem generate_features_defined (df : DataFrame) :
  (∀ c, c ∈ ["SibSp"; "Parch"; "Name"; "Age"; "Fare"] → c ∈ columns df) →
  (∃ r, r ∈ rows df ∧ is_str (cell_at "Name" r) = true) →
  (∀ r c, r ∈ rows df → c ∈ ["SibSp"; "Parch"; "Age"; "Fare"] →
          is_str (cell_at c r) = false) →
  ∃ df', generate_features df = Ok df'.
Proof.
  intros Hcols (r0 & Hr0 & Hname) Hstr.
  assert (rows df ≠ []) as Hrows.
  { intros Hnil. rewrite Hnil in Hr0. by apply elem_of_nil in Hr0. }
  assert (∀ c, c ∈ ["SibSp"; "Parch"; "Name"; "Age"; "Fare"] →
               getitem df c = Ok (cell_at c <$> rows df)) as Hget.
  { intros c Hc. apply getitem_Ok. split; [by apply Hcols|done]. }
  assert (∀ c, c ∈ ["SibSp"; "Parch"; "Age"; "Fare"] →
               ∀ x, x ∈ cell_at c <$> rows df → is_str x = false) as Hcol.
  { intros c Hc x (r & -> & Hr)%list_elem_of_fmap. by apply Hstr. }
  unfold generate_features.
  rewrite (Hget "SibSp"), (Hget "Parch") by (repeat constructor).
  cbn [mbind result_bind].
  destruct (Series_add_total (cell_at "SibSp" <$> rows df)
              (cell_at "Parch" <$> rows df)) as (f0 & Hf0 & Hf0s);
    [apply Hcol; repeat constructor..|].
  pose proof (Series_add_length _ _ _ Hf0) as Hl0.
  rewrite !length_fmap, Nat.min_id in Hl0.
  destruct (Series_add_total f0 ((λ _, VInt 1) <$> f0)) as (fam & Hfam & _);
    [done|by intros y (? & -> & _)%list_elem_of_fmap|].
  pose proof (Series_add_length _ _ _ Hfam) as Hl.
  rewrite !length_fmap, Nat.min_id, Hl0 in Hl.
  rewrite Hf0. cbn [mbind result_bind]. rewrite Hfam. cbn [mbind result_bind].
  destruct (setitem_step df "FamilySize" fam Hl)
    as (d1 & -> & Hl1 & Hg1 & Ho1).
  cbn [mbind result_bind]. rewrite Hg1. cbn [mbind result_bind].
  destruct (setitem_step d1 "IsAlone" (cell_eq_int 1 <$> fam))
    as (d2 & -> & Hl2 & Hg2 & Ho2); [rewrite length_fmap; congruence|].
  cbn [mbind result_bind].
  rewrite Ho2, Ho1, (Hget "Name") by (first [done|repeat constructor]).
  cbn [mbind result_bind].
  rewrite (proj2 (Series_str_extract_title_Ok (cell_at "Name" <$> rows df)
                    _) (conj (or_intror (ex_intro _ (cell_at "Name" r0)
                          (conj (list_elem_of_fmap_2 _ _ _ Hr0) Hname)))
                          eq_refl)).
  cbn [mbind result_bind].
  destruct (setitem_step d2 "Title"
              (str_extract_title <$> (cell_at "Name" <$> rows df)))
    as (d3 & -> & Hl3 & Hg3 & Ho3); [rewrite !length_fmap; congruence|].
  cbn [mbind result_bind]. rewrite Hg3. cbn [mbind result_bind].
  destruct (setitem_step d3 "Title"
              (_group_titles
                 (str_extract_title <$> (cell_at "Name" <$> rows df))))
    as (d4 & -> & Hl4 & Hg4 & Ho4).
  { unfold _group_titles, Series_replace. rewrite !length_fmap. congruence. }
  cbn [mbind result_bind].
  rewrite Ho4, Ho3, Ho2, Ho1, (Hget "Age") by (first [done|repeat constructor]).
  cbn [mbind result_bind].
  destruct (pd_cut_total age_bins age_labels (cell_at "Age" <$> rows df))
    as [agebin Hcut]; [apply Hcol; repeat constructor|].
  rewrite Hcut. cbn [mbind result_bind].
  destruct (setitem_step d4 "AgeBin" agebin)
    as (d5 & -> & Hl5 & Hg5 & Ho5).
  { rewrite (proj1 (pd_cut_lookup _ _ _ _ Hcut)), length_fmap. congruence. }
  cbn [mbind result_bind].
  rewrite Ho5, Ho4, Ho3, Ho2, Ho1, (Hget "Fare")
    by (first [done|repeat constructor]).
  cbn [mbind result_bind].
  destruct (np_quantile_total (cell_at "Fare" <$> rows df) fare_quantiles)
    as [q Hq]; [by destruct (rows df)|apply Hcol; repeat constructor|].
  rewrite Hq. cbn [mbind result_bind].
  destruct (setitem_step d5 "FareBin"
              (fare_to_bin q <$> (cell_at "Fare" <$> rows df)))
    as (d6 & -> & _); [rewrite !length_fmap; congruence|].
  cbn [mbind result_bind]. eauto.
Qed.

Lemma generate_features_defined_witness :
  ∃ df', generate_features ex_passengers = Ok df'.
Proof.
  apply generate_features_defined.
  - intros c Hc. vm_compute.
    repeat (apply elem_of_cons in Hc as [->|Hc];
            [repeat constructor|]).
    by apply elem_of_nil in Hc.
  - eexists. split; [left|]. vm_compute. reflexivity.
  - intros r c Hr Hc. cbn [rows ex_passengers] in Hr.
    repeat (apply elem_of_cons in Hr as [->|Hr];
            [repeat (apply elem_of_cons in Hc as [->|Hc];
                     [by vm_compute|]);
             by apply elem_of_nil in Hc|]).
    by apply elem_of_nil in Hr.
Defined.

(** ** generate_features: the fare bins *)

Lemma numeric_values_elem_of (s : list cell) (xs : list Qc) (x : Qc) :
  numeric_values s = Ok xs →
  x ∈ xs ↔ ∃ c, c ∈ s ∧ cell_num c = Some (Some x).
Proof.
  revert xs. induction s as [|c s IH]; intros xs.
  - intros [= <-]. split; [by intros ?%elem_of_nil|].
    by intros (c & ?%elem_of_nil & _).
  - rewrite numeric_values_cons. destruct (cell_num c) as [o|] eqn:Hc; [|done].
    intros (xs' & Hxs' & [= <-])%result_bind_Ok.
    specialize (IH xs' Hxs'). split.
    + destruct o as [y|].
      * intros [->|Hx]%elem_of_cons.
        -- exists c. split; [left|done].
        -- destruct (proj1 IH Hx) as (c' & Hc' & Hnum).
           exists c'. split; [by right|done].
      * intros Hx. destruct (proj1 IH Hx) as (c' & Hc' & Hnum).
        exists c'. split; [by right|done].
    + intros (c' & [->|Hc']%elem_of_cons & Hnum).
      * rewrite Hc in Hnum. injection Hnum as ->. left.
      * assert (x ∈ xs') as Hx by (apply IH; eauto).
        destruct o; [by right|done].
Qed.

Ltac Qc_to_Q :=
  repeat progress
    (unfold Qcle, Qclt, Qcplus, Qcminus, Qcopp, Qcmult, Qc_of_Z, Q2Qc in *;
     cbn [this] in * );
  rewrite ?Qred_correct in *.

(** A quantile is a weighted mean of two elements, so it is not below a
    lower bound of the elements. *)
Lemma quantile_linear_lower (a : list Qc) (q x : Qc) :
  a ≠ [] → (Qc_of_Z 0 ≤ q)%Qc → (q ≤ Qc_of_Z 1)%Qc →
  (∀ y, y ∈ a → (x ≤ y)%Qc) →
  (x ≤ quantile_linear a q)%Qc.
Proof.
  intros Hne Hq0 Hq1 Hlow. unfold quantile_linear.
  set (n := length a). set (m := Z.of_nat (n - 1)).
  set (h := (Qc_of_Z m * q)%Qc). set (F := Qfloor h).
  assert (0 < n)%nat as Hn by (unfold n; destruct a; [done|simpl; lia]).
  assert (0 ≤ m) as Hm by (unfold m; lia).
  pose proof (Qfloor_le h) as HF1. pose proof (Qlt_floor h) as HF2.
  fold F in HF1, HF2.
  assert (0 <= inject_Z m)%Q as Hm'.
  { change 0%Q with (inject_Z 0). by rewrite <- Zle_Qle. }
  assert ((0 <= h)%Q ∧ (h <= inject_Z m)%Q) as [Hh0 Hh1].
  { unfold h. clear HF1 HF2. Qc_to_Q.
    change (inject_Z 0) with 0%Q in Hq0. change (inject_Z 1) with 1%Q in Hq1.
    split; nra. }
  assert (0 ≤ F ≤ m) as HF.
  { split.
    - change 0 with (Qfloor 0). by apply Qfloor_resp_le.
    - rewrite <- (Qfloor_Z m). by apply Qfloor_resp_le. }
  set (lo := Z.to_nat F). set (hi := Nat.min (lo + 1) (n - 1)).
  assert (lo < n)%nat as Hlo by (unfold lo, m in *; lia).
  assert (hi < n)%nat as Hhi by (unfold hi; lia).
  assert (nth lo a 0%Qc ∈ a) as HA by (apply list_elem_of_In, nth_In, Hlo).
  assert (nth hi a 0%Qc ∈ a) as HB by (apply list_elem_of_In, nth_In, Hhi).
  apply Hlow in HA, HB.
  generalize dependent (nth lo a 0%Qc). generalize dependent (nth hi a 0%Qc).
  intros B HB A HA.
  assert (inject_Z (F + 1) == inject_Z F + 1)%Q as HF3.
  { rewrite inject_Z_plus. reflexivity. }
  clearbody h. clear Hq0 Hq1 Hlow. Qc_to_Q. rewrite HF3 in HF2.
  generalize dependent (inject_Z F). intros f ? ? ?.
  nra.
Qed.

(** X17. When no fare is missing, a row whose fare is the lowest of the
    column gets the fare bin "Low" from [generate_features]; so does the
    single row of a frame with one row. *)
Theorem generate_features_lowest_fare (df df' : DataFrame)
    (fare : list cell) (i : nat) (c : cell) :
  generate_features df = Ok df' →
  getitem df "Fare" = Ok fare → (VNaN ∉ fare) → fare !! i = Some c →
  (∀ c', c' ∈ fare → cell_leb c c' = true) →
  ∃ bins, getitem df' "FareBin" = Ok bins ∧ bins !! i = Some (VStr "Low").
Proof.
  intros Hrun Hfare Hnan Hi Hlow.
  destruct (generate_features_Ok df df' Hrun)
    as (names & fare' & q & _ & Hfare' & Hq & _ & Hbins).
  assert (fare' = fare) as -> by congruence.
  eexists. split; [exact Hbins|].
  rewrite list_lookup_fmap, Hi. cbn [fmap option_fmap option_map]. f_equal.
  assert (c ∈ fare) as Hc by (by eapply list_elem_of_lookup_2).
  unfold np_quantile in Hq. destruct fare as [|c0 fare0] eqn:Heq; [done|].
  rewrite <- Heq in *. clear Heq c0 fare0.
  apply result_bind_Ok in Hq as (xs & Hxs & Hq).
  rewrite bool_decide_eq_false_2 in Hq by done. injection Hq as <-.
  unfold fare_to_bin, fare_quantiles. cbn [fmap list_fmap nth].
  pose proof (Hlow c Hc) as Hcc. unfold cell_leb in Hcc |- *.
  destruct (cell_num c) as [[x|]|] eqn:Hx; try done. cbn [cell_num].
  rewrite bool_decide_eq_true_2; [done|].
  apply quantile_linear_lower.
  - intros Hnil.
    assert (x ∈ merge_sort Qcle xs) as Hin.
    { rewrite merge_sort_Permutation.
      apply (numeric_values_elem_of fare xs x Hxs). eauto. }
    rewrite Hnil in Hin. by apply elem_of_nil in Hin.
  - by vm_compute.
  - by vm_compute.
  - intros y Hy. rewrite merge_sort_Permutation in Hy.
    apply (numeric_values_elem_of fare xs y Hxs) in Hy as (c' & Hc' & Hy).
    specialize (Hlow c' Hc'). unfold cell_leb in Hlow.
    rewrite Hx, Hy in Hlow. by apply bool_decide_eq_true in Hlow.
Qed.

Lemma generate_features_lowest_fare_witness :
  ∃ df' bins,
    generate_features ex_two_fares = Ok df' ∧
    getitem df' "FareBin" = Ok bins ∧ bins !! 1%nat = Some (VStr "Low").
Proof.
  assert (∃ d, generate_features ex_two_fares = Ok d) as [df' Hrun].
  { eexists. vm_compute. reflexivity. }
  destruct (generate_features_lowest_fare ex_two_fares df'
              [VFloat (Q2Qc (712833 # 10000)); VFloat (Q2Qc (7925 # 1000))]
              1 (VFloat (Q2Qc (7925 # 1000))) Hrun)
    as (bins & Hbins & Hlow).
  - vm_compute. reflexivity.
  - intros Hin. apply elem_of_cons in Hin as [Hin|Hin]; [discriminate Hin|].
    apply elem_of_cons in Hin as [Hin|Hin]; [discriminate Hin|].
    by apply elem_of_nil in Hin.
  - reflexivity.
  - intros c' Hc'.
    apply elem_of_cons in Hc' as [->|Hc']; [vm_compute; reflexivity|].
    apply elem_of_cons in Hc' as [->|Hc']; [vm_compute; reflexivity|].
    by apply elem_of_nil in Hc'.
  - exists df', bins. split_and!; [exact Hrun|exact Hbins|exact Hlow].
Defined.

(** ** encode_features: when it returns, and the frames it returns *)

Lemma rank_inj (y : list string) (x x' : string) :
  x ∈ y → x' ∈ y → rank x y = rank x' y → x = x'.
Proof.
  intros Hx Hx' Heq.
  pose proof (class_index_Some _ _ _ (class_index_fit y x Hx)) as H1.
  pose proof (class_index_Some _ _ _ (class_index_fit y x' Hx')) as H2.
  rewrite Heq in H1. congruence.
Qed.

Lemma elem_of_columns_getitem (d : DataFrame) (c : string) :
  c ∈ columns d ↔ ∃ vs, getitem d c = Ok vs.
Proof.
  unfold getitem. case_decide; split; try done; eauto. by intros [? ?].
Qed.

Section EncodingFurther.
Variable float_repr : Qc → string.
Local Abbreviation astr := (astype_str float_repr).

Lemma encode_loop_total_gen (cols : list string) (tr te : nat)
    (les : gmap string LabelEncoder) (h : heap) (dtr dte : DataFrame) :
  tr ≠ te → h !! tr = Some dtr → h !! te = Some dte →
  (∀ c, c ∈ cols → c ∈ columns dtr ∧ c ∈ columns dte) →
  rows dtr ≠ [] ∨ rows dte = [] →
  ∃ res h', encode_loop float_repr cols tr te les h = (Ok res, h').
Proof.
  intros Hne. revert les h dtr dte.
  induction cols as [|col cols IH]; intros les h dtr dte Htr Hte Hcols Hrows.
  - by eexists _, _.
  - destruct (Hcols col) as [Hc1 Hc2]; [left|].
    destruct (_encode_column_run float_repr tr te col h dtr dte
                (cell_at col <$> rows dtr) (cell_at col <$> rows dte))
      as (dtr1 & dte1 & Hrun1 & Hup_tr & Hup_te); try done.
    { by apply getitem_Ok. }
    { by apply getitem_Ok. }
    { destruct Hrows as [Hrows| ->]; [left|by right].
      by intros Hnil%fmap_nil_inv. }
    rewrite encode_loop_cons, Hrun1.
    destruct Hup_tr as (Hcols_tr & Hlen_tr & _ & _).
    destruct Hup_te as (Hcols_te & Hlen_te & _ & _).
    assert (tr < length h)%nat by (by eapply lookup_lt_Some).
    assert (te < length h)%nat by (by eapply lookup_lt_Some).
    apply IH with (dtr := dtr1) (dte := dte1).
    + rewrite list_lookup_insert_ne by done.
      by rewrite list_lookup_insert_eq.
    + by rewrite list_lookup_insert_eq by (by rewrite length_insert).
    + intros c Hc. rewrite Hcols_tr, Hcols_te. apply Hcols. by right.
    + destruct Hrows as [Hrows|Hrows]; [left|right].
      * intros Hnil. rewrite Hnil in Hlen_tr. by destruct (rows dtr).
      * rewrite Hrows in Hlen_te. by destruct (rows dte1).
Qed.

(** A successful run of [encode_features], column by column. *)
Lemma encode_features_run (train test : nat) (h h' : heap)
    (res : nat * nat * gmap string LabelEncoder) (dtr dte : DataFrame) :
  h !! train = Some dtr → h !! test = Some dte →
  encode_features float_repr train test h = (Ok res, h') →
  ∃ dtr' dte' les,
    res = (length h, S (length h), les) ∧
    h' !! length h = Some dtr' ∧ h' !! S (length h) = Some dte' ∧
    (∀ c, c ∈ categorical_cols →
          column_encoded float_repr dtr dte dtr' dte' (les !! c) c) ∧
    (∀ c, c ∉ categorical_cols →
          getitem dtr' c = getitem dtr c ∧ getitem dte' c = getitem dte c ∧
          les !! c = None).
Proof.
  intros Htr Hte. rewrite (encode_features_eq float_repr _ _ _ dtr dte) by done.
  intros Hrun.
  apply encode_loop_spec with (dtr := dtr) (dte := dte) in Hrun
      as (dtr' & dte' & les & -> & Htr' & Hte' & Hin & Hout).
  - by exists dtr', dte', les.
  - apply categorical_cols_NoDup.
  - lia.
  - by rewrite lookup_app_r, Nat.sub_diag by done.
  - rewrite lookup_app_r by lia.
    by replace (S (length h) - length h)%nat with 1%nat by lia.
Qed.

(** X18. On two frames, [encode_features] returns exactly when both hold
    the five categorical columns and the training frame has a row or the
    test frame has none; otherwise it raises. *)
Theorem encode_features_defined_iff (train test : nat) (h : heap)
    (dtr dte : DataFrame) :
  h !! train = Some dtr → h !! test = Some dte →
  (∃ res h', encode_features float_repr train test h = (Ok res, h')) ↔
  (∀ c, c ∈ categorical_cols → c ∈ columns dtr ∧ c ∈ columns dte) ∧
  (rows dtr ≠ [] ∨ rows dte = []).
Proof.
  intros Htr Hte. split.
  - intros (res & h' & Hrun).
    destruct (encode_features_run _ _ _ _ _ _ _ Htr Hte Hrun)
      as (dtr' & dte' & les & _ & _ & _ & Hin & _).
    split.
    + intros c Hc.
      destruct (Hin c Hc) as (ctr & cte & Hctr & Hcte & _).
      split; apply elem_of_columns_getitem; eauto.
    + destruct (Hin "Sex") as (ctr & cte & Hctr & Hcte & Hne & _); [left|].
      apply getitem_Ok in Hctr as [_ ->]. apply getitem_Ok in Hcte as [_ ->].
      destruct Hne as [Hne|Hnil]; [left|right].
      * intros Hnil. apply Hne. by rewrite Hnil.
      * by apply fmap_nil_inv in Hnil.
  - intros [Hcols Hrows].
    rewrite (encode_features_eq float_repr _ _ _ dtr dte) by done.
    apply encode_loop_total_gen with (dtr := dtr) (dte := dte);
      [lia| | |done|done].
    + by rewrite lookup_app_r, Nat.sub_diag by done.
    + rewrite lookup_app_r by lia.
      by replace (S (length h) - length h)%nat with 1%nat by lia.
Qed.

(** X19. In the frames [encode_features] returns, two training values get
    the same code exactly when they print as the same string, and a test
    value that prints as a training value gets the code of that value. *)
Theorem encode_features_consistent_codes (train test : nat) (h h' : heap)
    (tr' te' : nat) (les : gmap string LabelEncoder) (dtr dte : DataFrame)
    (col : string) :
  h !! train = Some dtr → h !! test = Some dte →
  encode_features float_repr train test h = (Ok (tr', te', les), h') →
  col ∈ categorical_cols →
  ∃ dtr' dte' ctr cte vtr vte,
    h' !! tr' = Some dtr' ∧ h' !! te' = Some dte' ∧
    getitem dtr col = Ok ctr ∧ getitem dte col = Ok cte ∧
    getitem dtr' col = Ok vtr ∧ getitem dte' col = Ok vte ∧
    (∀ i j a b, ctr !! i = Some a → ctr !! j = Some b →
                vtr !! i = vtr !! j ↔ astr a = astr b) ∧
    (∀ i j a b, ctr !! i = Some a → cte !! j = Some b →
                astr a = astr b → vte !! j = vtr !! i).
Proof.
  intros Htr Hte Hrun Hcol.
  destruct (encode_features_run _ _ _ _ _ _ _ Htr Hte Hrun)
    as (dtr' & dte' & les' & Hres & Htr' & Hte' & Hin & _).
  injection Hres as -> -> ->.
  destruct (Hin col Hcol) as (ctr & cte & Hctr & Hcte & _ & Hvtr & Hvte & _).
  exists dtr', dte', ctr, cte. eexists _, _.
  split_and!; [done..| |].
  - intros i j a b Ha Hb. rewrite !list_lookup_fmap, Ha, Hb.
    cbn [fmap option_fmap option_map]. unfold train_code. split.
    + intros [= Heq%Nat2Z.inj].
      apply (rank_inj (astr <$> ctr)); [| |done];
        apply list_elem_of_fmap_2; by eapply list_elem_of_lookup_2.
    + by intros ->.
  - intros i j a b Ha Hb Heq. rewrite !list_lookup_fmap, Ha, Hb.
    cbn [fmap option_fmap option_map]. unfold test_code. rewrite <- Heq.
    rewrite decide_True; [done|].
    apply list_elem_of_fmap_2. by eapply list_elem_of_lookup_2.
Qed.

(** X20. [encode_features] changes the five categorical columns only: the
    returned frames have the rows and columns of the arguments, and every
    other column holds the values it held. *)
Theorem encode_features_other_columns (train test : nat) (h h' : heap)
    (tr' te' : nat) (les : gmap string LabelEncoder) (dtr dte : DataFrame) :
  h !! train = Some dtr → h !! test = Some dte →
  encode_features float_repr train test h = (Ok (tr', te', les), h') →
  ∃ dtr' dte',
    h' !! tr' = Some dtr' ∧ h' !! te' = Some dte' ∧
    length (rows dtr') = length (rows dtr) ∧
    length (rows dte') = length (rows dte) ∧
    (∀ c, (c ∈ columns dtr' ↔ c ∈ columns dtr) ∧
          (c ∈ columns dte' ↔ c ∈ columns dte)) ∧
    (∀ c, c ∉ categorical_cols →
          getitem dtr' c = getitem dtr c ∧ getitem dte' c = getitem dte c).
Proof.
  intros Htr Hte Hrun.
  destruct (encode_features_run _ _ _ _ _ _ _ Htr Hte Hrun)
    as (dtr' & dte' & les' & Hres & Htr' & Hte' & Hin & Hout).
  injection Hres as -> -> ->.
  exists dtr', dte'. split_and!; [done|done| | | |].
  - destruct (Hin "Sex") as (ctr & cte & Hctr & _ & _ & Hvtr & _); [left|].
    apply getitem_length in Hctr, Hvtr. rewrite !length_fmap in Hvtr.
    congruence.
  - destruct (Hin "Sex") as (ctr & cte & _ & Hcte & _ & _ & Hvte & _); [left|].
    apply getitem_length in Hcte, Hvte. rewrite !length_fmap in Hvte.
    congruence.
  - intros c. rewrite !elem_of_columns_getitem.
    destruct (decide (c ∈ categorical_cols)) as [Hc|Hc].
    + destruct (Hin c Hc) as (ctr & cte & -> & -> & _ & -> & -> & _).
      split; split; eauto.
    + destruct (Hout c Hc) as (-> & -> & _). done.
  - intros c Hc. destruct (Hout c Hc) as (-> & -> & _). done.
Qed.

(** X21. The dictionary [encode_features] returns has exactly the five
    categorical columns as keys, each with the encoder fitted on the
    strings of that column of the training frame. *)
Theorem encode_features_encoders (train test : nat) (h h' : heap)
    (tr' te' : nat) (les : gmap string LabelEncoder) (dtr dte : DataFrame)
    (c : string) :
  h !! train = Some dtr → h !! test = Some dte →
  encode_features float_repr train test h = (Ok (tr', te', les), h') →
  les !! c = if decide (c ∈ categorical_cols)
             then Some (LabelEncoder_fit (astr <$> (cell_at c <$> rows dtr)))
             else None.
Proof.
  intros Htr Hte Hrun.
  destruct (encode_features_run _ _ _ _ _ _ _ Htr Hte Hrun)
    as (dtr' & dte' & les' & Hres & _ & _ & Hin & Hout).
  injection Hres as -> -> ->.
  case_decide as Hc.
  - destruct (Hin c Hc) as (ctr & cte & Hctr & _ & _ & _ & _ & ->).
    by apply getitem_Ok in Hctr as [_ ->].
  - by destruct (Hout c Hc) as (_ & _ & ->).
Qed.

(** X22. The two frames [encode_features] returns are new objects: distinct
    from each other and from every object of the heap it was called in,
    also when the same frame is passed as training and as test frame. *)
Theorem encode_features_fresh (train test : nat) (h h' : heap)
    (tr' te' : nat) (les : gmap string LabelEncoder) :
  encode_features float_repr train test h = (Ok (tr', te', les), h') →
  tr' = length h ∧ te' = S (length h) ∧ length h' = S (S (length h)) ∧
  h !! tr' = None ∧ h !! te' = None.
Proof.
  unfold encode_features. rewrite state_bind_eq, DataFrame_copy_eq.
  destruct (h !! train) as [dtr|]; [|done].
  rewrite state_bind_eq, DataFrame_copy_eq.
  destruct ((h ++ [dtr])%list !! test) as [dte|]; [|done].
  intros Hrun.
  destruct (encode_loop_footprint float_repr _ _ _ _ _ _ _ Hrun) as [Hlen _].
  rewrite !length_app in Hlen. cbn [length] in Hlen.
  assert (tr' = length h ∧ te' = S (length h)) as [-> ->].
  { clear Hlen. revert Hrun. rewrite length_app. cbn [length].
    rewrite Nat.add_1_r. generalize (∅ : gmap string LabelEncoder).
    generalize ((h ++ [dtr]) ++ [dte]). generalize categorical_cols.
    intros cols. induction cols as [|col cols IH]; intros h0 les0.
    - rewrite encode_loop_nil. by intros [= <- <- _ _].
    - rewrite encode_loop_cons.
      destruct (_encode_column _ _ _ _ _) as [[[[tr1 te1] le]|e] h1] eqn:Hcol;
        [|done].
      destruct (_encode_column_footprint float_repr _ _ _ _ _ _ Hcol)
        as (_ & _ & Hres).
      specialize (Hres _ eq_refl). cbn in Hres. injection Hres as -> ->.
      apply IH. }
  split_and!; [done|done|lia| |]; apply lookup_ge_None; lia.
Qed.
End EncodingFurther.

Lemma encode_features_defined_iff_witness :
  ∃ res h',
    encode_features ex_float_repr 0 1 [ex_train; ex_test] = (Ok res, h').
Proof.
  apply (proj2 (encode_features_defined_iff ex_float_repr 0 1
                  [ex_train; ex_test] ex_train ex_test eq_refl eq_refl)).
  split.
  - intros c Hc. split; exact Hc.
  - left. discriminate.
Defined.

Lemma encode_features_consistent_codes_witness :
  ∃ tr' te' les h' dtr' dte' vtr vte,
    encode_features ex_float_repr 0 1 [ex_train; ex_test]
    = (Ok (tr', te', les), h') ∧
    h' !! tr' = Some dtr' ∧ h' !! te' = Some dte' ∧
    getitem dtr' "Title" = Ok vtr ∧ getitem dte' "Title" = Ok vte ∧
    vte !! 0%nat = vtr !! 1%nat.
Proof.
  destruct (encode_features_total ex_float_repr 0 1 [ex_train; ex_test]
              ex_train ex_test)
    as ([[tr' te'] les] & h' & Hrun).
  { reflexivity. }
  { reflexivity. }
  { intros c Hc. split; exact Hc. }
  { discriminate. }
  destruct (encode_features_consistent_codes ex_float_repr 0 1
              [ex_train; ex_test] h' tr' te' les ex_train ex_test "Title")
    as (dtr' & dte' & ctr & cte & vtr & vte & Htr & Hte & Hctr & Hcte
        & Hvtr & Hvte & _ & Hcross).
  { reflexivity. }
  { reflexivity. }
  { exact Hrun. }
  { do 2 right. left. }
  exists tr', te', les, h', dtr', dte', vtr, vte.
  split_and!; [exact Hrun|exact Htr|exact Hte|exact Hvtr|exact Hvte|].
  assert (ctr = [VStr "Mr"; VStr "Mrs"]) as ->.
  { assert (Ok ctr = Ok [VStr "Mr"; VStr "Mrs"]) as Heq;
      [by rewrite <- Hctr|by injection Heq]. }
  assert (cte = [VStr "Mrs"]) as ->.
  { assert (Ok cte = Ok [VStr "Mrs"]) as Heq;
      [by rewrite <- Hcte|by injection Heq]. }
  apply (Hcross 1%nat 0%nat (VStr "Mrs") (VStr "Mrs")); reflexivity.
Defined.

Lemma encode_features_other_columns_witness :
  ∃ tr' te' les h' dtr' dte',
    encode_features ex_float_repr 0 1 [ex_train; ex_test]
    = (Ok (tr', te', les), h') ∧
    h' !! tr' = Some dtr' ∧ h' !! te' = Some dte' ∧
    length (rows dtr') = length (rows ex_train) ∧
    length (rows dte') = length (rows ex_test) ∧
    getitem dtr' "Name" = getitem ex_train "Name".
Proof.
  destruct (encode_features_total ex_float_repr 0 1 [ex_train; ex_test]
              ex_train ex_test)
    as ([[tr' te'] les] & h' & Hrun).
  { reflexivity. }
  { reflexivity. }
  { intros c Hc. split; exact Hc. }
  { discriminate. }
  destruct (encode_features_other_columns ex_float_repr 0 1
              [ex_train; ex_test] h' tr' te' les ex_train ex_test)
    as (dtr' & dte' & Htr & Hte & Hltr & Hlte & _ & Hother).
  { reflexivity. }
  { reflexivity. }
  { exact Hrun. }
  exists tr', te', les, h', dtr', dte'.
  split_and!; [exact Hrun|exact Htr|exact Hte|exact Hltr|exact Hlte|].
  apply Hother. clear. unfold categorical_cols. not_in_list.
Defined.

Lemma encode_features_encoders_witness :
  ∃ tr' te' les h',
    encode_features ex_float_repr 0 1 [ex_train; ex_test]
    = (Ok (tr', te', les), h') ∧
    les !! "Name" = None ∧
    les !! "Sex"
    = Some (LabelEncoder_fit
              (astype_str ex_float_repr <$> (cell_at "Sex" <$> rows ex_train))).
Proof.
  destruct (encode_features_total ex_float_repr 0 1 [ex_train; ex_test]
              ex_train ex_test)
    as ([[tr' te'] les] & h' & Hrun).
  { reflexivity. }
  { reflexivity. }
  { intros c Hc. split; exact Hc. }
  { discriminate. }
  exists tr', te', les, h'. split_and!; [exact Hrun| |].
  - rewrite (encode_features_encoders ex_float_repr 0 1 [ex_train; ex_test]
               h' tr' te' les ex_train ex_test "Name" eq_refl eq_refl Hrun).
    apply decide_False. clear. unfold categorical_cols. not_in_list.
  - rewrite (encode_features_encoders ex_float_repr 0 1 [ex_train; ex_test]
               h' tr' te' les ex_train ex_test "Sex" eq_refl eq_refl Hrun).
    apply decide_True. left.
Defined.

Lemma encode_features_fresh_witness :
  ∃ les h',
    encode_features ex_float_repr 0 0 [ex_train] = (Ok (1, 2, les), h')%nat ∧
    length h' = 3%nat.
Proof.
  destruct (encode_features_total ex_float_repr 0 0 [ex_train]
              ex_train ex_train)
    as ([[tr' te'] les] & h' & Hrun).
  { reflexivity. }
  { reflexivity. }
  { intros c Hc. split; exact Hc. }
  { discriminate. }
  destruct (encode_features_fresh ex_float_repr 0 0 [ex_train] h' tr' te'
              les Hrun) as (-> & -> & Hlen & _).
  exists les, h'. split; [exact Hrun|exact Hlen].
Defined.
